(** * dynorm: a shallow embedding of [src/index.js]

    The development follows the source file top to bottom: the JSON date
    reviver, the [Schema] class (compiler and record transforms), the
    entity class produced by [Model.compile] (constructor, [save],
    [update], [get]) and the static helpers of [Model] ([batchGet],
    [batchGetKeys], [find]).

    JavaScript objects are association lists in enumeration order, because
    the source depends on that order ([Object.keys(prop.join)[0]],
    [Object.keys(update[type]).forEach], [for ... in]).  Numbers are
    restricted to integers and NaN.  The store client, the validator, the
    clock and [Date.parse] are parameters of the model. *)

From Stdlib Require Import String Ascii List ZArith Lia Bool Arith PeanoNat.
Import ListNotations.
Open Scope list_scope.
Open Scope string_scope.

Set Implicit Arguments.
Set Warnings "-register-all".

(* ================================================================= *)
(** ** JavaScript values *)

Inductive value : Type :=
| VUndef
| VNull
| VBool (b : bool)
| VNum (n : Z)
| VNaN
| VStr (s : string)
| VDate (t : option Z)                      (* time value; [None] is an invalid Date *)
| VObj (o : list (string * value))          (* plain object, own enumerable properties *)
| VModel (props : list string) (data : list (string * value)).
    (* instance of a compiled model: the schema property names, each
       installed as an accessor onto [_data], and [_data] itself *)

Definition obj : Type := list (string * value).

(** Truthiness ([ToBoolean]). *)
Definition truthy (v : value) : bool :=
  match v with
  | VUndef | VNull | VNaN => false
  | VBool b => b
  | VNum n => negb (Z.eqb n 0)
  | VStr s => negb (String.eqb s "")
  | VDate _ | VObj _ | VModel _ _ => true
  end.

Definition str_truthy (s : string) : bool := negb (String.eqb s "").

Definition opt_str_truthy (s : option string) : bool :=
  match s with Some x => str_truthy x | None => false end.

(** [v === undefined]. *)
Definition is_undefined (v : value) : bool :=
  match v with VUndef => true | _ => false end.

(* ----------------------------------------------------------------- *)
(** *** Property tables *)

Fixpoint assoc {A : Type} (k : string) (l : list (string * A)) : option A :=
  match l with
  | [] => None
  | (k', v) :: t => if String.eqb k k' then Some v else assoc k t
  end.

(** [o[k] = v]: overwrite in place when [k] is an own property, append
    otherwise. *)
Fixpoint assoc_set {A : Type} (k : string) (v : A) (l : list (string * A))
  : list (string * A) :=
  match l with
  | [] => [(k, v)]
  | (k', v') :: t =>
      if String.eqb k k' then (k', v) :: t else (k', v') :: assoc_set k v t
  end.

(** [delete o[k]]. *)
Fixpoint assoc_del {A : Type} (k : string) (l : list (string * A))
  : list (string * A) :=
  match l with
  | [] => []
  | (k', v') :: t =>
      if String.eqb k k' then assoc_del k t else (k', v') :: assoc_del k t
  end.

(** [Object.keys(o)]. *)
Definition keys {A : Type} (l : list (string * A)) : list string := map fst l.

(** [o[k]] on a plain object: [undefined] when [k] is not a property. *)
Definition obj_get (o : obj) (k : string) : value :=
  match assoc k o with Some v => v | None => VUndef end.

Definition obj_set (o : obj) (k : string) (v : value) : obj := assoc_set k v o.

(* ----------------------------------------------------------------- *)
(** *** Errors and outcomes *)

Inductive error : Type :=
| DynormError (msg : string)     (* [class DynormError extends Error] *)
| PlainError (msg : string)      (* [new Error(msg)] *)
| TypeError                      (* raised by the engine on a bad dereference *)
| StoreError (code : string).    (* rejection coming from the store client *)

Inductive outcome (A : Type) : Type :=
| Return (a : A)
| Throw (e : error).

Arguments Return {A} a.
Arguments Throw {A} e.

Definition obind {A B : Type} (x : outcome A) (f : A -> outcome B) : outcome B :=
  match x with
  | Return a => f a
  | Throw e => Throw e
  end.

(** [v[k]] on an arbitrary value, for [k] an attribute name.  Reading
    through [undefined] or [null] throws; a model instance answers through
    the accessor of a schema property and has no other attribute; on the
    remaining primitives and on dates an attribute name finds nothing
    (fields and methods of the classes, prototype members and string
    indices are not attribute names). *)
Definition js_get (v : value) (k : string) : outcome value :=
  match v with
  | VUndef | VNull => Throw TypeError
  | VObj o => Return (obj_get o k)
  | VModel props data =>
      if existsb (String.eqb k) props then Return (obj_get data k)
      else Return VUndef
  | _ => Return VUndef
  end.

(* ================================================================= *)
(** ** Dates *)

(** [TimeClip]: a time value is kept when within 8.64e15 ms of the epoch. *)
Definition TimeClip (n : Z) : option Z :=
  if ((-8640000000000000 <=? n) && (n <=? 8640000000000000))%Z
  then Some n else None.

(** [d.valueOf()] / [d.getTime()]. *)
Definition Date_valueOf (t : option Z) : value :=
  match t with Some n => VNum n | None => VNaN end.

(* ================================================================= *)
(** ** The ISO date pattern and the reviver (lines 5-17) *)

Definition is_digit (c : ascii) : bool :=
  let n := nat_of_ascii c in (48 <=? n)%nat && (n <=? 57)%nat.

(** [\d{n}]: exactly [n] digits, returning the rest. *)
Fixpoint digits_exact (n : nat) (s : string) : option string :=
  match n with
  | O => Some s
  | S n' =>
      match s with
      | String c r => if is_digit c then digits_exact n' r else None
      | EmptyString => None
      end
  end.

(** A literal character. *)
Definition lit (c : ascii) (s : string) : option string :=
  match s with
  | String c' r => if Ascii.eqb c c' then Some r else None
  | EmptyString => None
  end.

(** Any number of digits, greedy. *)
Fixpoint digits_star (s : string) : string :=
  match s with
  | String c r => if is_digit c then digits_star r else s
  | EmptyString => s
  end.

(** The offset class up to the end: every remaining character is a digit,
    a bar or a colon. *)
Fixpoint offset_class_all (s : string) : bool :=
  match s with
  | EmptyString => true
  | String c r =>
      (is_digit c || Ascii.eqb c "|" || Ascii.eqb c ":") && offset_class_all r
  end.

(** The optional zone group: nothing, a capital Z, or a sign followed by
    characters of the offset class, up to the end of the input. *)
Definition zone_tail (s : string) : bool :=
  match s with
  | EmptyString => true
  | String c r =>
      if Ascii.eqb c "Z" then
        match r with EmptyString => true | _ => false end
      else if Ascii.eqb c "+" || Ascii.eqb c "-" then offset_class_all r
      else false
  end.

Definition andThen {A B : Type} (x : option A) (f : A -> option B) : option B :=
  match x with Some a => f a | None => None end.

(** [reISO.test(s)]: four digits, dash, two digits, dash, two digits, T,
    two digits, colon, two digits, colon, two digits, a dot, any number of
    digits, the optional zone group, end of input.  The fraction group of
    the pattern carries no question mark, so the dot is mandatory. *)
Definition reISO_test (s : string) : bool :=
  match
    andThen (digits_exact 4 s) (fun s =>
    andThen (lit "-" s) (fun s =>
    andThen (digits_exact 2 s) (fun s =>
    andThen (lit "-" s) (fun s =>
    andThen (digits_exact 2 s) (fun s =>
    andThen (lit "T" s) (fun s =>
    andThen (digits_exact 2 s) (fun s =>
    andThen (lit ":" s) (fun s =>
    andThen (digits_exact 2 s) (fun s =>
    andThen (lit ":" s) (fun s =>
    andThen (digits_exact 2 s) (fun s =>
    andThen (lit "." s) (fun s =>
    Some (zone_tail (digits_star s))))))))))))))
  with
  | Some b => b
  | None => false
  end.

(** [QuoteJSONString] of [JSON.stringify]. *)
Definition dquote : ascii := "034"%char.
Definition backslash : ascii := "092"%char.

Definition hex_digit (n : nat) : ascii :=
  if (n <? 10)%nat then ascii_of_nat (48 + n) else ascii_of_nat (87 + n).

Definition json_escape (c : ascii) : string :=
  let n := nat_of_ascii c in
  if (n =? 8)%nat then String backslash "b"
  else if (n =? 9)%nat then String backslash "t"
  else if (n =? 10)%nat then String backslash "n"
  else if (n =? 12)%nat then String backslash "f"
  else if (n =? 13)%nat then String backslash "r"
  else if (n =? 34)%nat then String backslash (String dquote EmptyString)
  else if (n =? 92)%nat then String backslash (String backslash EmptyString)
  else if (n <? 32)%nat then
    String backslash
      (String "u" (String "0" (String "0"
         (String (hex_digit (n / 16)) (String (hex_digit (n mod 16)) EmptyString)))))
  else String c EmptyString.

Fixpoint json_escape_all (s : string) : string :=
  match s with
  | EmptyString => EmptyString
  | String c r => json_escape c ++ json_escape_all r
  end.

Definition QuoteJSONString (s : string) : string :=
  String dquote (json_escape_all s ++ String dquote EmptyString).

(* ================================================================= *)
(** ** Schema documents *)

(** A property descriptor of a definition.  Flags are kept by their
    truthiness. *)
Record PropertyDesc : Type := mkProp {
  p_type : option string;
  p_format : option string;
  p_default : value;                          (* [VUndef] when not declared *)
  p_hashKey : bool;
  p_rangeKey : bool;
  p_version : bool;
  p_owner : bool;
  p_ref : option string;                      (* [$ref] *)
  p_join : option (list (string * string));   (* local attribute -> foreign attribute *)
  p_required : option (list string)
}.

Record IndexDesc : Type := mkIndex {
  i_hashKey : string;
  i_rangeKey : option string;
  i_unique : bool
}.

Record SchemaDef : Type := mkDef {
  d_id : option string;                       (* [$id] *)
  d_properties : list (string * PropertyDesc);
  d_tableName : string;
  d_timestamps : bool;
  d_indexes : list (string * IndexDesc);
  d_required : option (list string)
}.

(** [dynorm.schema.definitions]; an unset document has no definition. *)
Definition SchemaDoc : Type := list (string * SchemaDef).

(** [this.#key] *)
Record Key : Type := mkKey {
  hashKey : option string;
  rangeKey : option string
}.

(** The compiled validator, applied to the attribute map of the entity
    (the source hands it the JSON image of that map).  [None]: valid;
    [Some errs]: the content of [validate.errors]. *)
Definition validator : Type := obj -> option (list value).

Record Schema : Type := mkSchema {
  s_id : string;
  s_schemaName : string;
  s_schema : SchemaDef;         (* [this.#schema] *)
  s_key : Key;
  s_validate : validator
}.

Definition properties (s : Schema) : list (string * PropertyDesc) :=
  d_properties (s_schema s).
Definition tableName (s : Schema) : string := d_tableName (s_schema s).
Definition timestamps (s : Schema) : bool := d_timestamps (s_schema s).
Definition indexes (s : Schema) : list (string * IndexDesc) :=
  d_indexes (s_schema s).

(** [get version()]: the first property flagged as version. *)
Fixpoint first_version (ps : list (string * PropertyDesc)) : option string :=
  match ps with
  | [] => None
  | (k, p) :: t => if p_version p then Some k else first_version t
  end.

Definition version (s : Schema) : option string := first_version (properties s).

(** [prop.$ref] tested as a condition. *)
Definition has_ref (p : PropertyDesc) : bool := opt_str_truthy (p_ref p).

(* ----------------------------------------------------------------- *)
(** *** The constructor of [Schema] (lines 87-131) *)

(** The first definition whose [$id] is the requested one, with its name. *)
Fixpoint find_definition (id : string) (defs : SchemaDoc)
  : option (string * SchemaDef) :=
  match defs with
  | [] => None
  | (name, d) :: t =>
      match d_id d with
      | Some i => if String.eqb i id then Some (name, d) else find_definition id t
      | None => find_definition id t
      end
  end.

Fixpoint assoc_update {A : Type} (k : string) (f : A -> A) (l : list (string * A))
  : list (string * A) :=
  match l with
  | [] => []
  | (k', v) :: t =>
      if String.eqb k k' then (k', f v) :: t else (k', v) :: assoc_update k f t
  end.

Definition set_def_required (r : option (list string)) (d : SchemaDef) : SchemaDef :=
  mkDef (d_id d) (d_properties d) (d_tableName d) (d_timestamps d) (d_indexes d) r.

Definition set_def_properties (ps : list (string * PropertyDesc)) (d : SchemaDef)
  : SchemaDef :=
  mkDef (d_id d) ps (d_tableName d) (d_timestamps d) (d_indexes d) (d_required d).

(** [delete prop.required] *)
Definition clear_required (p : PropertyDesc) : PropertyDesc :=
  mkProp (p_type p) (p_format p) (p_default p) (p_hashKey p) (p_rangeKey p)
         (p_version p) (p_owner p) (p_ref p) (p_join p) None.

(** Delete the properties of a referenced definition that point back. *)
Definition prune_back_refs (schemaName : string) (d : SchemaDef) : SchemaDef :=
  set_def_properties
    (filter (fun kp => match p_ref (snd kp) with
                       | Some r => negb (String.eqb r schemaName)
                       | None => true
                       end) (d_properties d)) d.

(** One turn of the loop of lines 104-119 on the live document.  A
    property deleted by an earlier turn is not visited. *)
Definition hoist_step (schemaName : string) (defs : SchemaDoc) (propName : string)
  : outcome SchemaDoc :=
  match assoc schemaName defs with
  | None => Return defs
  | Some schema =>
      match assoc propName (d_properties schema) with
      | None => Return defs
      | Some prop =>
          match p_required prop with
          | Some req =>
              if has_ref prop then
                let refSchemaName := match p_ref prop with Some r => r | None => "" end in
                match assoc refSchemaName defs with
                | None => Throw TypeError
                | Some _ =>
                    let defs1 :=
                      assoc_update refSchemaName (set_def_required (Some req)) defs in
                    let defs2 :=
                      assoc_update schemaName
                        (fun d => set_def_properties
                                    (assoc_update propName clear_required (d_properties d)) d)
                        defs1 in
                    Return (assoc_update refSchemaName (prune_back_refs schemaName) defs2)
                end
              else Return defs
          | None => Return defs
          end
      end
  end.

Fixpoint hoist_loop (schemaName : string) (defs : SchemaDoc) (names : list string)
  : outcome SchemaDoc * SchemaDoc :=
  match names with
  | [] => (Return defs, defs)
  | n :: t =>
      match hoist_step schemaName defs n with
      | Return defs' => hoist_loop schemaName defs' t
      | Throw e => (Throw e, defs)
      end
  end.

(** Lines 126-130: the last property carrying each flag wins. *)
Fixpoint derive_key (ps : list (string * PropertyDesc)) (key : Key) : Key :=
  match ps with
  | [] => key
  | (k, p) :: t =>
      let key1 := if p_hashKey p then mkKey (Some k) (rangeKey key) else key in
      let key2 := if p_rangeKey p then mkKey (hashKey key1) (Some k) else key1 in
      derive_key t key2
  end.

(** [new Schema(id)].  [ajv] stands for [ajv.addSchema(defSchema)] followed
    by [ajv.getSchema(id)]; the definitions of the shared document are
    updated in place, so the document is returned as well.  When no
    definition matches, [schema] is still [null] at line 104 and reading
    [schema.properties] throws. *)
Definition Schema_constructor (ajv : SchemaDoc -> string -> validator)
  (doc : SchemaDoc) (id : string) : outcome Schema * SchemaDoc :=
  match find_definition id doc with
  | None => (Throw TypeError, doc)
  | Some (schemaName, schema) =>
      match hoist_loop schemaName doc (keys (d_properties schema)) with
      | (Throw e, doc') => (Throw e, doc')
      | (Return _, doc') =>
          let compiled := match assoc schemaName doc' with
                          | Some d => d
                          | None => schema
                          end in
          (Return (mkSchema id schemaName compiled
                     (derive_key (d_properties compiled) (mkKey None None))
                     (ajv doc' id)),
           doc')
      end
  end.

(* ================================================================= *)
(** ** Record transforms and JSON (lines 196-254) *)

(** A name that may be [undefined]: used as a property name or inside a
    template literal it reads as the word undefined. *)
Definition name_of (o : option string) : string :=
  match o with Some s => s | None => "undefined" end.

Definition name_val (o : option string) : value :=
  match o with Some s => VStr s | None => VUndef end.

(** [Object.keys(prop.join)[0]] *)
Definition join_first (join : list (string * string)) : option string :=
  match join with
  | [] => None
  | (key, _) :: _ => Some key
  end.

Section Transforms.

(** [Date.parse] of the host: the time value of a date string, [None]
    for NaN. *)
Variable Date_parse : string -> option Z.

(** [new Date(v)] with one argument. *)
Definition new_Date (v : value) : value :=
  match v with
  | VDate t => VDate t
  | VStr s => VDate (Date_parse s)
  | VNum n => VDate (TimeClip n)
  | VNaN | VUndef => VDate None
  | VNull => VDate (Some 0%Z)
  | VBool b => VDate (Some (if b then 1%Z else 0%Z))
  | VObj _ | VModel _ _ => VDate (Date_parse "[object Object]")
  end.

(** [reviver(key, value)] *)
Definition reviver (key : string) (v : value) : value :=
  match v with
  | VStr s => if reISO_test s then new_Date v else v
  | _ => v
  end.

(** [parseJSON(json)] is [JSON.stringify(json, reviver)], here on a text
    argument: the text is handed to [reviver] as the replacer; a string
    result is quoted, a Date result is an object without enumerable
    property of its own and is written as an empty object. *)
Definition parseJSON (json : string) : value :=
  match reviver "" (VStr json) with
  | VStr s => VStr (QuoteJSONString s)
  | _ => VStr "{}"
  end.

(** [toDynamo(model)], one property of the schema. *)
Fixpoint toDynamo_join (mk : value) (join : list (string * string)) (item : obj)
  : outcome obj :=
  match join with
  | [] => Return item
  | (key, v) :: t =>
      obind (js_get mk v) (fun x => toDynamo_join mk t (obj_set item key x))
  end.

Definition toDynamo_prop (model : obj) (item : obj) (kp : string * PropertyDesc)
  : outcome obj :=
  let (k, prop) := kp in
  let mk := obj_get model k in
  if is_undefined mk then Return item
  else if has_ref prop then
    toDynamo_join mk (match p_join prop with Some j => j | None => [] end) item
  else
    match mk with
    | VDate t => Return (obj_set item k (Date_valueOf t))
    | _ => Return (obj_set item k mk)
    end.

Fixpoint toDynamo_loop (model : obj) (ps : list (string * PropertyDesc)) (item : obj)
  : outcome obj :=
  match ps with
  | [] => Return item
  | kp :: t => obind (toDynamo_prop model item kp) (toDynamo_loop model t)
  end.

Definition toDynamo (s : Schema) (model : obj) : outcome obj :=
  toDynamo_loop model (properties s) [].

(** [prop.join[key]] used as a property name. *)
Definition join_target (join : list (string * string)) (key : option string) : string :=
  name_of (assoc (name_of key) join).

Definition is_date_format (p : PropertyDesc) : bool :=
  match p_format p with
  | Some f => String.eqb f "date-time" || String.eqb f "date"
  | None => false
  end.

(** [parseDynamo(item)], one property of the schema. *)
Definition parseDynamo_prop (item : obj) (model : obj) (kp : string * PropertyDesc)
  : outcome obj :=
  let (k, prop) := kp in
  if has_ref prop then
    if truthy (obj_get item k) then Return (obj_set model k (obj_get item k))
    else
      match p_join prop with
      | None => Throw TypeError                   (* [Object.keys(undefined)] *)
      | Some join =>
          let key := join_first join in
          if negb (truthy (obj_get item (name_of key))) then Return model
          else
            let fk := join_target join key in
            Return (obj_set model k (VObj [(fk, obj_get item (name_of key))]))
      end
  else if is_undefined (obj_get item k) then Return model
  else if is_date_format prop then Return (obj_set model k (new_Date (obj_get item k)))
  else Return (obj_set model k (obj_get item k)).

Fixpoint parseDynamo_loop (item : obj) (ps : list (string * PropertyDesc)) (model : obj)
  : outcome obj :=
  match ps with
  | [] => Return model
  | kp :: t => obind (parseDynamo_prop item model kp) (parseDynamo_loop item t)
  end.

Definition parseDynamo (s : Schema) (item : obj) : outcome obj :=
  parseDynamo_loop item (properties s) [].

End Transforms.

(* ================================================================= *)
(** ** The store client (the DocumentClient of the source) *)

Record GetParams : Type := mkGet {
  get_TableName : string;
  get_Key : obj
}.

Record GetOutput : Type := mkGetOut {
  Item : option obj
}.

Record PutParams : Type := mkPut {
  put_TableName : string;
  put_Item : obj;
  put_ConditionExpression : option string;
  put_ExpressionAttributeNames : option obj;
  put_ExpressionAttributeValues : option obj
}.

Record QueryParams : Type := mkQuery {
  q_TableName : string;
  q_IndexName : option string;
  q_KeyConditionExpression : option string;
  q_FilterExpression : option string;
  q_ExpressionAttributeNames : obj;
  q_ExpressionAttributeValues : obj;
  q_ExclusiveStartKey : option obj;
  q_Limit : option Z
}.

Record QueryOutput : Type := mkQueryOut {
  Items : list value;
  Count : Z;
  ScannedCount : Z;
  LastEvaluatedKey : option obj
}.

Record UpdateParams : Type := mkUpdate {
  u_TableName : string;
  u_Key : obj;
  u_ExpressionAttributeNames : obj;
  u_ExpressionAttributeValues : obj;
  u_ReturnValues : string;
  u_UpdateExpression : string;
  u_ConditionExpression : option string
}.

Record UpdateOutput : Type := mkUpdateOut {
  Attributes : value
}.

(** [RequestItems] of a batch get: table name -> [Keys]. *)
Definition RequestItems : Type := list (string * list value).

(** [Responses] of a batch get: table name -> items. *)
Definition TableItems : Type := list (string * list value).

Record BatchGetOutput : Type := mkBatchGetOut {
  Responses : TableItems;
  UnprocessedKeys : RequestItems
}.

(** The client over a store state [S]; every call may be rejected. *)
Record Client (S : Type) : Type := mkClient {
  c_get : GetParams -> S -> outcome GetOutput * S;
  c_put : PutParams -> S -> outcome unit * S;
  c_query : QueryParams -> S -> outcome QueryOutput * S;
  c_scan : QueryParams -> S -> outcome QueryOutput * S;
  c_update : UpdateParams -> S -> outcome UpdateOutput * S;
  c_batchGet : RequestItems -> S -> outcome BatchGetOutput * S
}.

(** What was asked of the store, and what it answered, in order. *)
Inductive event : Type :=
| EvGet (p : GetParams) (r : outcome GetOutput)
| EvPut (p : PutParams) (r : outcome unit)
| EvQuery (p : QueryParams) (r : outcome QueryOutput)
| EvScan (p : QueryParams) (r : outcome QueryOutput)
| EvUpdate (p : UpdateParams) (r : outcome UpdateOutput)
| EvBatchGet (p : RequestItems) (r : outcome BatchGetOutput).

(** The world an operation runs in: the store, the number of clock
    readings taken so far, and the calls made to the store. *)
Record World (S : Type) : Type := mkWorld {
  w_store : S;
  w_tick : nat;
  w_trace : list event
}.

(** Computations: state passing over the world, with exceptions. *)
Definition M (S A : Type) : Type := World S -> outcome A * World S.

Definition ret {S A : Type} (a : A) : M S A := fun w => (Return a, w).

Definition throw {S A : Type} (e : error) : M S A := fun w => (Throw e, w).

Definition bind {S A B : Type} (m : M S A) (f : A -> M S B) : M S B :=
  fun w =>
    match m w with
    | (Return a, w') => f a w'
    | (Throw e, w') => (Throw e, w')
    end.

Definition lift {S A : Type} (x : outcome A) : M S A := fun w => (x, w).

Declare Scope dyn_scope.
Delimit Scope dyn_scope with dyn.
Notation "x <- m ;; k" := (bind m (fun x => k))
  (at level 61, m at next level, right associativity) : dyn_scope.
Notation "m ;;; k" := (bind m (fun _ => k))
  (at level 61, right associativity) : dyn_scope.

(** A call to the store: run it on the store state and record it. *)
Definition call {S P R : Type} (f : P -> S -> outcome R * S)
  (ev : P -> outcome R -> event) (p : P) : M S R :=
  fun w =>
    let (r, s') := f p (w_store w) in
    (r, mkWorld s' (w_tick w) (w_trace w ++ [ev p r])%list).

(* ================================================================= *)
(** ** The compiled entity class (lines 280-635) *)

(** An instance: [_isNew], [_data] and the private snapshot [#orig].  The
    accessors the constructor installs for the schema properties read and
    write [_data]; property names are attribute names of records, none of
    them is one of the two fields of the instance. *)
Record Entity : Type := mkEntity {
  _isNew : bool;
  _data : obj;
  orig : obj
}.

(** The registry [orm]: the models compiled so far, by name. *)
Definition Registry : Type := list (string * Schema).

(** [String(validate.errors)]: the entries are error objects. *)
Definition errors_message (errs : list value) : string :=
  String.concat "," (map (fun _ => "[object Object]") errs).

(** The message of the error thrown when a unique index already has a
    match (line 414). *)
Definition unique_message (k : string) : string :=
  "Unique index constraint " ++ k.

Section Lifecycle.

Variable Date_parse : string -> option Z.

(** [ToNumber] on a string, as the host computes it. *)
Variable ToNumber_string : string -> value.

(** The successive readings of the clock. *)
Variable clock : nat -> Z.

Variable St : Type.
Variable client : Client St.

Local Open Scope dyn_scope.

(** [Date.now()] *)
Definition Date_now : M St Z :=
  fun w => (Return (clock (w_tick w)),
            mkWorld (w_store w) (S (w_tick w)) (w_trace w)).

(* ----------------------------------------------------------------- *)
(** *** The constructor (lines 285-312) *)

Definition is_date_time (p : PropertyDesc) : bool :=
  match p_type p, p_format p with
  | Some t, Some f => String.eqb t "string" && String.eqb f "date-time"
  | _, _ => false
  end.

Definition is_now (v : value) : bool :=
  match v with VStr s => String.eqb s "now" | _ => false end.

(** Lines 298-310 for one property. *)
Definition init_default (data : obj) (kp : string * PropertyDesc) : M St obj :=
  let (k, prop) := kp in
  if negb (truthy (obj_get data k)) && negb (is_undefined (p_default prop)) then
    if is_date_time prop then
      if is_now (p_default prop) then
        now <- Date_now ;; ret (obj_set data k (VDate (Some now)))
      else ret (obj_set data k (new_Date Date_parse (p_default prop)))
    else ret (obj_set data k (p_default prop))
  else ret data.

Fixpoint init_defaults (ps : list (string * PropertyDesc)) (data : obj) : M St obj :=
  match ps with
  | [] => ret data
  | kp :: t => data' <- init_default data kp ;; init_defaults t data'
  end.

(** [new NewModel(data, isNew)].  The snapshot is taken before the
    defaults are written. *)
Definition NewModel_constructor (schema : Schema) (data : obj) (isNew : bool)
  : M St Entity :=
  data' <- init_defaults (properties schema) data ;;
  ret (mkEntity isNew data' data).

(* ----------------------------------------------------------------- *)
(** *** [get(key)] with the default [fields = []] (lines 591-599) *)

(** [Object.values(schema.key).reduce(...)]: the key attributes read
    from [key]. *)
Definition project_key (k : Key) (key : value) : outcome obj :=
  obind (match hashKey k with
         | Some c => obind (js_get key c) (fun v => Return (obj_set [] c v))
         | None => Return []
         end) (fun a =>
  match rangeKey k with
  | Some c => obind (js_get key c) (fun v => Return (obj_set a c v))
  | None => Return a
  end).

(** [populate] returns at once on an empty field list, so the fetched
    item goes straight to [parseDynamo] and the constructor. *)
Definition get (schema : Schema) (key : value) : M St value :=
  k <- lift (project_key (s_key schema) key) ;;
  out <- call (c_get client) EvGet (mkGet (tableName schema) k) ;;
  match Item out with
  | None => ret VNull
  | Some item =>
      parsed <- lift (parseDynamo Date_parse schema item) ;;
      e <- NewModel_constructor schema parsed false ;;
      ret (VModel (keys (properties schema)) (_data e))
  end.

(* ----------------------------------------------------------------- *)
(** *** [save()] (lines 324-474) *)

(** Lines 326-340 for one property.  A name the registry does not know
    compiles to a model without schema, whose [get] dereferences
    [undefined]. *)
Definition resolve_relation (orm : Registry) (data : obj) (kp : string * PropertyDesc)
  : M St obj :=
  let (propName, prop) := kp in
  if negb (truthy (obj_get data propName)) then ret data
  else if negb (has_ref prop) then ret data
  else
    match obj_get data propName with
    | VModel _ _ => ret data
    | o =>
        match assoc (name_of (p_ref prop)) orm with
        | None => throw TypeError
        | Some refSchema =>
            r <- get refSchema o ;;
            if negb (truthy r)
            then throw (DynormError ("Relation " ++ propName ++ " not exist"))
            else ret (obj_set data propName r)
        end
    end.

Fixpoint resolve_relations (orm : Registry) (ps : list (string * PropertyDesc))
  (data : obj) : M St obj :=
  match ps with
  | [] => ret data
  | kp :: t => data' <- resolve_relation orm data kp ;; resolve_relations orm t data'
  end.

(** Lines 343-349. *)
Definition check_valid (schema : Schema) (data : obj) : M St unit :=
  match s_validate schema data with
  | None => ret tt
  | Some errs => throw (DynormError (errors_message errs))
  end.

(** Lines 358-366 and 372-380: the attribute name and the value of one
    component of an index, through the join when the backing property is
    a relation. *)
Definition index_component (schema : Schema) (data : obj) (attr : string)
  : outcome (option string * value) :=
  match assoc attr (properties schema) with
  | None => Throw TypeError
  | Some prop =>
      if has_ref prop then
        match p_join prop with
        | None => Throw TypeError
        | Some join =>
            let key := join_first join in
            let fk := join_target join key in
            obind (js_get (obj_get data attr) fk) (fun v => Return (key, v))
        end
      else Return (Some attr, obj_get data attr)
  end.

(** Lines 386-411: the query sent for one unique index. *)
Definition unique_query (schema : Schema) (e : Entity) (k : string)
  (hKey : option string) (hashVal : value)
  (rKey : option string) (rangeVal : value) : QueryParams :=
  let hk := name_of hKey in
  let kce := "#" ++ hk ++ " = :" ++ hk in
  let names := obj_set [] ("#" ++ hk) (name_val hKey) in
  let vals := obj_set [] (":" ++ hk) hashVal in
  let '(kce, names, vals) :=
    if opt_str_truthy rKey then
      let rk := name_of rKey in
      (kce ++ " AND #" ++ rk ++ " = :" ++ rk,
       obj_set names ("#" ++ rk) (name_val rKey),
       obj_set vals (":" ++ rk) rangeVal)
    else (kce, names, vals) in
  let '(fe, names, vals) :=
    if negb (_isNew e) then
      let key := s_key schema in
      let hk := name_of (hashKey key) in
      let fe := "#" ++ hk ++ "Pk <> :" ++ hk ++ "Pk" in
      let names := obj_set names ("#" ++ hk ++ "Pk") (name_val (hashKey key)) in
      let vals := obj_set vals (":" ++ hk ++ "Pk") (obj_get (_data e) hk) in
      if opt_str_truthy (rangeKey key) then
        let rk := name_of (rangeKey key) in
        (Some (fe ++ " AND #" ++ rk ++ "Pk <> :" ++ rk ++ "Pk"),
         obj_set names ("#" ++ rk ++ "Pk") (name_val (rangeKey key)),
         obj_set vals (":" ++ rk ++ "Pk") (obj_get (_data e) rk))
      else (Some fe, names, vals)
    else (None, names, vals) in
  mkQuery (tableName schema) (Some k) (Some kce) fe names vals None None.

(** Lines 352-415 for one index. *)
Definition check_unique_index (schema : Schema) (e : Entity)
  (ki : string * IndexDesc) : M St unit :=
  let (k, index) := ki in
  if negb (i_unique index) then ret tt
  else
    hc <- lift (index_component schema (_data e) (i_hashKey index)) ;;
    let (hKey, hashVal) := hc : option string * value in
    if negb (truthy hashVal)
    then throw (DynormError ("Unique index constraint " ++ k ++ " hashKey "
                               ++ name_of hKey ++ " is empty"))
    else
      rc <- (if opt_str_truthy (i_rangeKey index) then
               rc <- lift (index_component schema (_data e)
                             (name_of (i_rangeKey index))) ;;
               let (rKey, rangeVal) := rc : option string * value in
               if negb (truthy rangeVal)
               then throw (DynormError ("Unique index constraint " ++ k ++ " rangeKey "
                                          ++ name_of rKey ++ " is empty"))
               else ret rc
             else ret (None, VNull)) ;;
      let (rKey, rangeVal) := rc : option string * value in
      out <- call (c_query client) EvQuery
               (unique_query schema e k hKey hashVal rKey rangeVal) ;;
      if negb (Z.eqb (Count out) 0)
      then throw (DynormError (unique_message k))
      else ret tt.

Fixpoint check_unique_indexes (schema : Schema) (e : Entity)
  (ixs : list (string * IndexDesc)) : M St unit :=
  match ixs with
  | [] => ret tt
  | ki :: t => check_unique_index schema e ki ;;; check_unique_indexes schema e t
  end.

(** Lines 417-425. *)
Definition set_timestamps (schema : Schema) (e : Entity) : M St obj :=
  if timestamps schema then
    if _isNew e then
      t1 <- Date_now ;;
      t2 <- Date_now ;;
      ret (obj_set (obj_set (_data e) "createdAt" (VDate (Some t1)))
             "updatedAt" (VDate (Some t2)))
    else
      ret (obj_set (obj_set (_data e) "createdAt" (obj_get (orig e) "createdAt"))
             "updatedAt" (obj_get (orig e) "updatedAt"))
  else ret (_data e).

(** [x++] on a stored value: [ToNumber] then one more. *)
Definition js_incr (v : value) : value :=
  let n := match v with
           | VStr s => ToNumber_string s
           | VNull => VNum 0
           | VBool b => VNum (if b then 1 else 0)
           | VDate t => Date_valueOf t
           | VNum n => VNum n
           | _ => VNaN
           end in
  match n with
  | VNum z => VNum (z + 1)
  | _ => VNaN
  end.

(** [params.ConditionExpression = (params.ConditionExpression) ? ' AND ' : ''] *)
Definition restart_condition (c : option string) : string :=
  if opt_str_truthy c then " AND " else "".

Definition or_empty (o : option obj) : obj :=
  match o with Some x => x | None => [] end.

Definition is_integer (p : PropertyDesc) : bool :=
  match p_type p with Some t => String.eqb t "integer" | None => false end.

Definition unsupported_version (p : PropertyDesc) : error :=
  DynormError ("Version property type " ++ name_of (p_type p) ++ " not supported").

(** Lines 430-457. *)
Definition apply_version (schema : Schema) (e : Entity) (params : PutParams)
  : M St PutParams :=
  match version schema with
  | None => ret params
  | Some ver =>
      if negb (str_truthy ver) then ret params
      else
        match assoc ver (properties schema) with
        | None => ret params
        | Some prop =>
            if truthy (obj_get (orig e) ver) then
              let cond := restart_condition (put_ConditionExpression params)
                          ++ "#" ++ ver ++ " = :" ++ ver in
              let names := obj_set (or_empty (put_ExpressionAttributeNames params))
                             ("#" ++ ver) (VStr ver) in
              let vals := or_empty (put_ExpressionAttributeValues params) in
              if is_integer prop then
                ret (mkPut (put_TableName params)
                       (obj_set (put_Item params) ver (js_incr (obj_get (put_Item params) ver)))
                       (Some cond) (Some names)
                       (Some (obj_set vals (":" ++ ver) (obj_get (orig e) ver))))
              else if is_date_time prop then
                match obj_get (orig e) ver with
                | VDate t =>
                    now <- Date_now ;;
                    ret (mkPut (put_TableName params)
                           (obj_set (put_Item params) ver (VNum now))
                           (Some cond) (Some names)
                           (Some (obj_set vals (":" ++ ver) (Date_valueOf t))))
                | _ => throw TypeError            (* [getTime] is not a function *)
                end
              else throw (unsupported_version prop)
            else if is_undefined (obj_get (put_Item params) ver) then
              if is_integer prop then
                ret (mkPut (put_TableName params)
                       (obj_set (put_Item params) ver (VNum 1))
                       (put_ConditionExpression params)
                       (put_ExpressionAttributeNames params)
                       (put_ExpressionAttributeValues params))
              else if is_date_time prop then
                now <- Date_now ;;
                ret (mkPut (put_TableName params)
                       (obj_set (put_Item params) ver (VNum now))
                       (put_ConditionExpression params)
                       (put_ExpressionAttributeNames params)
                       (put_ExpressionAttributeValues params))
              else throw (unsupported_version prop)
            else ret params
        end
  end.

(** Lines 459-470: the guard of a new entity. *)
Definition guard_new (schema : Schema) (e : Entity) (params : PutParams) : PutParams :=
  if _isNew e then
    let key := s_key schema in
    let names := or_empty (put_ExpressionAttributeNames params) in
    let hk := name_of (hashKey key) in
    let cond := restart_condition (put_ConditionExpression params)
                ++ "attribute_not_exists(#" ++ hk ++ ")" in
    let names := obj_set names ("#" ++ hk) (name_val (hashKey key)) in
    if opt_str_truthy (rangeKey key) then
      let rk := name_of (rangeKey key) in
      let cond := restart_condition (Some cond)
                  ++ "attribute_not_exists(#" ++ rk ++ ")" in
      mkPut (put_TableName params) (put_Item params) (Some cond)
        (Some (obj_set names ("#" ++ rk) (name_val (rangeKey key))))
        (put_ExpressionAttributeValues params)
    else
      mkPut (put_TableName params) (put_Item params) (Some cond) (Some names)
        (put_ExpressionAttributeValues params)
  else params.

(** [save()].  The instance is returned in its final state; the request
    handed to [client.put] is on the trace. *)
Definition save (orm : Registry) (schema : Schema) (e : Entity) : M St Entity :=
  data1 <- resolve_relations orm (properties schema) (_data e) ;;
  let e1 := mkEntity (_isNew e) data1 (orig e) in
  check_valid schema data1 ;;;
  check_unique_indexes schema e1 (indexes schema) ;;;
  data2 <- set_timestamps schema e1 ;;
  let e2 := mkEntity (_isNew e) data2 (orig e) in
  item <- lift (toDynamo schema data2) ;;
  params <- apply_version schema e2 (mkPut (tableName schema) item None None None) ;;
  call (c_put client) EvPut (guard_new schema e2 params) ;;;
  ret e2.

(* ----------------------------------------------------------------- *)
(** *** [update(key, update)] (lines 546-584) *)

Inductive verb : Type := SET | ADD | DELETE.

(** The caller's update object: each verb key, when present, holds the
    object of the attributes it applies to. *)
Record UpdateSpec : Type := mkSpec {
  upd_SET : option obj;
  upd_ADD : option obj;
  upd_DELETE : option obj
}.

Definition verb_body (u : UpdateSpec) (t : verb) : option obj :=
  match t with
  | SET => upd_SET u
  | ADD => upd_ADD u
  | DELETE => upd_DELETE u
  end.

Definition set_verb_body (u : UpdateSpec) (t : verb) (o : obj) : UpdateSpec :=
  match t with
  | SET => mkSpec (Some o) (upd_ADD u) (upd_DELETE u)
  | ADD => mkSpec (upd_SET u) (Some o) (upd_DELETE u)
  | DELETE => mkSpec (upd_SET u) (upd_ADD u) (Some o)
  end.

(** [['$SET', '$ADD', '$DELETE'].find(t => update[t])] *)
Definition find_verb (u : UpdateSpec) : option verb :=
  match upd_SET u, upd_ADD u, upd_DELETE u with
  | Some _, _, _ => Some SET
  | None, Some _, _ => Some ADD
  | None, None, Some _ => Some DELETE
  | None, None, None => None
  end.

(** Lines 555-561. *)
Definition verb_prefix (t : option verb) : string :=
  match t with
  | Some ADD => "ADD "
  | Some DELETE => "DELETE "
  | _ => "SET "
  end.

(** Lines 562-573 once the clock has been read: the request and the verb
    body after the version attribute has been handled. *)
Definition update_version (k : string) (now : Z) (params : UpdateParams) (body : obj)
  : UpdateParams * obj :=
  let expr := u_UpdateExpression params ++ "#" ++ k ++ " = :" ++ k in
  let names := obj_set (u_ExpressionAttributeNames params) ("#" ++ k) (VStr k) in
  let vals := obj_set (u_ExpressionAttributeValues params) (":" ++ k) (VNum now) in
  let '(cond, vals) :=
    if truthy (obj_get body k)
    then (Some ("#" ++ k ++ " = :" ++ k ++ "Old"),
          obj_set vals (":" ++ k ++ "Old") (obj_get body k))
    else (u_ConditionExpression params, vals) in
  (mkUpdate (u_TableName params) (u_Key params) names vals
     (u_ReturnValues params) expr cond,
   assoc_del k body).

(** Line 574: [Object.keys(key).forEach(k => delete update[type][k])] *)
Definition strip_keys (key : obj) (body : obj) : obj :=
  fold_left (fun b k => assoc_del k b) (keys key) body.

(** Lines 575-580 for one remaining attribute. *)
Definition update_assign (body : obj) (params : UpdateParams) (k : string)
  : UpdateParams :=
  let sep := match u_ExpressionAttributeNames params with
             | [] => ""
             | _ :: _ => ", "
             end in
  mkUpdate (u_TableName params) (u_Key params)
    (obj_set (u_ExpressionAttributeNames params) ("#" ++ k) (VStr k))
    (obj_set (u_ExpressionAttributeValues params) (":" ++ k) (obj_get body k))
    (u_ReturnValues params)
    (u_UpdateExpression params ++ sep ++ "#" ++ k ++ " = :" ++ k)
    (u_ConditionExpression params).

(** [schema.version] as the condition of line 562 sees it. *)
Definition tested_version (schema : Schema) : option string :=
  match version schema with
  | Some k => if str_truthy k then Some k else None
  | None => None
  end.

(** Lines 547-580: the request built for the store and the state in which
    the caller's update object is left.  Without a verb key, [update[type]]
    is [undefined] and its first use throws, before anything is deleted. *)
Definition update_build (schema : Schema) (key : obj) (upd : UpdateSpec)
  : M St (UpdateParams * UpdateSpec) :=
  let type := find_verb upd in
  let params := mkUpdate (tableName schema) key [] [] "ALL_NEW" (verb_prefix type) None in
  let ver := tested_version schema in
  now <- match ver with
         | Some _ => n <- Date_now ;; ret (Some n)
         | None => ret None
         end ;;
  match type with
  | None => throw TypeError
  | Some t =>
      let body := match verb_body upd t with Some b => b | None => [] end in
      let '(params, body) :=
        match ver, now with
        | Some k, Some n => update_version k n params body
        | _, _ => (params, body)
        end in
      let body := strip_keys key body in
      ret (fold_left (update_assign body) (keys body) params,
           set_verb_body upd t body)
  end.

(** [update(key, update)]: the attributes the store reports, together
    with the caller's update object as the call leaves it. *)
Definition update (schema : Schema) (key : obj) (upd : UpdateSpec)
  : World St -> outcome value * UpdateSpec * World St :=
  fun w =>
    match update_build schema key upd w with
    | (Return (params, upd'), w1) =>
        match call (c_update client) EvUpdate params w1 with
        | (Return data, w2) => (Return (Attributes data), upd', w2)
        | (Throw e, w2) => (Throw e, upd', w2)
        end
    | (Throw e, w1) => (Throw e, upd, w1)
    end.

(* ================================================================= *)
(** ** Static helpers of [Model] (lines 702-772) *)

(** [Object.keys(res).reduce((a, c) => { a[c] = (a[c]) ? a[c].concat(res[c])
    : res[c]; return a; }, obj)] *)
Definition merge_tables (res : TableItems) (o : TableItems) : TableItems :=
  fold_left
    (fun a cr =>
       let (c, items) := cr : string * list value in
       assoc_set c (match assoc c a with
                    | Some old => (old ++ items)%list
                    | None => items
                    end) a)
    res o.

(** [batchGet(client, params)]: unprocessed keys are asked again, without
    bound in the source; [fuel] bounds the number of requests here and
    [None] reports that it ran out. *)
Fixpoint batchGet (fuel : nat) (params : RequestItems) : M St (option TableItems) :=
  match fuel with
  | O => ret None
  | S fuel' =>
      data <- call (c_batchGet client) EvBatchGet params ;;
      match UnprocessedKeys data with
      | [] => ret (Some (Responses data))
      | _ :: _ =>
          r <- batchGet fuel' (UnprocessedKeys data) ;;
          match r with
          | None => ret None
          | Some res => ret (Some (merge_tables res (Responses data)))
          end
      end
  end.

(** Line 722: the keys of all tables in one list. *)
Definition flatten_keys (tableKeys : RequestItems) : list (string * value) :=
  flat_map (fun tk => map (pair (fst tk)) (snd tk)) tableKeys.

(** Lines 725-729: the request of one slice, keys grouped by table. *)
Definition chunk_request (slice : list (string * value)) : RequestItems :=
  fold_left
    (fun ri tk =>
       let (t, k) := tk : string * value in
       assoc_set t (match assoc t ri with
                    | Some ks => (ks ++ [k])%list
                    | None => [k]
                    end) ri)
    slice [].

(** [keys.slice(i, i + 100)] *)
Definition slice100 (i : nat) (l : list (string * value)) : list (string * value) :=
  firstn 100 (skipn i l).

(** The loop of lines 724-732; [x < keys.length / 100] is [100 * x <
    keys.length].  [steps] only makes the recursion structural: the loop
    never takes more turns than there are keys. *)
Fixpoint batchGetKeys_loop (fuel steps x i : nat) (ks : list (string * value))
  (o : TableItems) : M St (option TableItems) :=
  match steps with
  | O => ret (Some o)
  | S steps' =>
      if (100 * x <? length ks)%nat then
        r <- batchGet fuel (chunk_request (slice100 i ks)) ;;
        match r with
        | None => ret None
        | Some res =>
            batchGetKeys_loop fuel steps' (x + 1) (i + 100) ks (merge_tables res o)
        end
      else ret (Some o)
  end.

(** [batchGetKeys(client, tableKeys)] *)
Definition batchGetKeys (fuel : nat) (tableKeys : RequestItems)
  : M St (option TableItems) :=
  match tableKeys with
  | [] => ret (Some [])
  | _ :: _ =>
      let o := fold_left (fun a c => assoc_set c [] a) (keys tableKeys) [] in
      let ks := flatten_keys tableKeys in
      batchGetKeys_loop fuel (length ks) 0 0 ks o
  end.

(* ----------------------------------------------------------------- *)
(** *** [find(client, params, opts, acc)] (lines 744-772) *)

Record FindOpts : Type := mkOpts {
  o_filter : option (value -> bool);
  o_map : option (value -> outcome value);
  o_reduce : option (value -> value -> value);
  o_initialValue : value
}.

Record Acc : Type := mkAcc {
  a_Items : list value;
  a_ScannedCount : Z;
  a_Count : option Z;
  a_Accumulator : value;
  a_LastEvaluatedKey : option obj
}.

(** The default accumulator [{ Items: [], ScannedCount: 0 }]. *)
Definition empty_acc : Acc := mkAcc [] 0 None VUndef None.

(** [Promise.all(items.map(f))] *)
Fixpoint map_all (f : value -> outcome value) (l : list value) : outcome (list value) :=
  match l with
  | [] => Return []
  | x :: t => obind (f x) (fun y => obind (map_all f t) (fun r => Return (y :: r)))
  end.

(** Lines 745-747. *)
Definition check_opts (opts : FindOpts) (acc : Acc) : outcome Acc :=
  match o_map opts, o_reduce opts with
  | Some _, Some _ => Throw (PlainError "Only map or reduce is required")
  | _, Some _ =>
      if negb (truthy (o_initialValue opts))
      then Throw (PlainError "Reduce initialValue is required")
      else if negb (truthy (a_Accumulator acc))
      then Return (mkAcc (a_Items acc) (a_ScannedCount acc) (a_Count acc)
                     (o_initialValue opts) (a_LastEvaluatedKey acc))
      else Return acc
  | _, None => Return acc
  end.

(** Lines 752-753: the items of the page after [opts.filter] and
    [opts.map]. *)
Definition page_items (opts : FindOpts) (data : QueryOutput) : outcome (list value) :=
  let items := match o_filter opts with
               | Some f => filter f (Items data)
               | None => Items data
               end in
  match o_map opts with
  | Some f => map_all f items
  | None => Return items
  end.

(** Lines 751 and 754-759. *)
Definition absorb (opts : FindOpts) (acc : Acc) (data : QueryOutput)
  (items : list value) : Acc :=
  let sc := (a_ScannedCount acc + ScannedCount data)%Z in
  match o_reduce opts with
  | Some f =>
      mkAcc (a_Items acc) sc (a_Count acc)
        (fold_left f items (a_Accumulator acc)) (a_LastEvaluatedKey acc)
  | None =>
      let all := (a_Items acc ++ items)%list in
      mkAcc all sc (Some (Z.of_nat (length all)))
        (a_Accumulator acc) (a_LastEvaluatedKey acc)
  end.

(** Line 761: [if (params.Limit) { params.Limit -= data.Items.length; }] *)
Definition next_limit (limit : option Z) (items : list value) : option Z :=
  match limit with
  | Some l => if Z.eqb l 0 then Some l else Some (l - Z.of_nat (length items))%Z
  | None => None
  end.

(** Line 763: [params.Limit === undefined || params.Limit > 0] *)
Definition limit_open (limit : option Z) : bool :=
  match limit with
  | None => true
  | Some l => (0 <? l)%Z
  end.

Definition set_limit (params : QueryParams) (limit : option Z) : QueryParams :=
  mkQuery (q_TableName params) (q_IndexName params) (q_KeyConditionExpression params)
    (q_FilterExpression params) (q_ExpressionAttributeNames params)
    (q_ExpressionAttributeValues params) (q_ExclusiveStartKey params) limit.

Definition set_start (params : QueryParams) (k : obj) : QueryParams :=
  mkQuery (q_TableName params) (q_IndexName params) (q_KeyConditionExpression params)
    (q_FilterExpression params) (q_ExpressionAttributeNames params)
    (q_ExpressionAttributeValues params) (Some k) (q_Limit params).

Definition set_last_key (acc : Acc) (k : obj) : Acc :=
  mkAcc (a_Items acc) (a_ScannedCount acc) (a_Count acc) (a_Accumulator acc) (Some k).

(** Line 749. *)
Definition fetch (params : QueryParams) : M St QueryOutput :=
  if opt_str_truthy (q_KeyConditionExpression params)
  then call (c_query client) EvQuery params
  else call (c_scan client) EvScan params.

(** [find]: the accumulator and the caller's [params] as the call leaves
    them.  The source recurses for as long as the store hands out
    continuation tokens; [fuel] bounds the number of pages and [None]
    reports that it ran out. *)
Fixpoint find (fuel : nat) (params : QueryParams) (opts : FindOpts) (acc : Acc)
  : M St (option (Acc * QueryParams)) :=
  match fuel with
  | O => ret None
  | S fuel' =>
      acc0 <- lift (check_opts opts acc) ;;
      data <- fetch params ;;
      items <- lift (page_items opts data) ;;
      let acc1 := absorb opts acc0 data items in
      let params1 := set_limit params (next_limit (q_Limit params) items) in
      match LastEvaluatedKey data with
      | Some lek =>
          if limit_open (q_Limit params1)
          then find fuel' (set_start params1 lek) opts acc1
          else ret (Some (set_last_key acc1 lek, params1))
      | None => ret (Some (acc1, params1))
      end
  end.

End Lifecycle.

(* ================================================================= *)
(** ** A reference store

    A small in-memory client, enough of the store's expression language
    for the requests this library builds.  It is used to run the
    operations on concrete inputs; the general statements below hold for
    every client. *)

Module MemStore.

Inductive token : Type :=
| TName (s : string)       (* #name *)
| TValue (s : string)      (* :name *)
| TWord (s : string)
| TEq | TNe | TComma | TLParen | TRParen.

Definition is_name_char (c : ascii) : bool :=
  let n := nat_of_ascii c in
  ((48 <=? n) && (n <=? 57) || (65 <=? n) && (n <=? 90)
   || (97 <=? n) && (n <=? 122) || (n =? 95))%nat.

Fixpoint take_name (s : string) : string * string :=
  match s with
  | String c r =>
      if is_name_char c
      then let (a, b) := take_name r in (String c a, b)
      else (EmptyString, s)
  | EmptyString => (EmptyString, EmptyString)
  end.

Definition cons_tok (t : token) (r : option (list token)) : option (list token) :=
  match r with Some l => Some (t :: l) | None => None end.

Fixpoint tokens (fuel : nat) (s : string) : option (list token) :=
  match fuel with
  | O => None
  | S fuel' =>
      match s with
      | EmptyString => Some []
      | String c r =>
          if Ascii.eqb c " " then tokens fuel' r
          else if Ascii.eqb c "#" then
            let (n, r') := take_name r in cons_tok (TName n) (tokens fuel' r')
          else if Ascii.eqb c ":" then
            let (n, r') := take_name r in cons_tok (TValue n) (tokens fuel' r')
          else if Ascii.eqb c "=" then cons_tok TEq (tokens fuel' r)
          else if Ascii.eqb c "," then cons_tok TComma (tokens fuel' r)
          else if Ascii.eqb c "(" then cons_tok TLParen (tokens fuel' r)
          else if Ascii.eqb c ")" then cons_tok TRParen (tokens fuel' r)
          else if Ascii.eqb c "<" then
            match r with
            | String c' r' =>
                if Ascii.eqb c' ">" then cons_tok TNe (tokens fuel' r') else None
            | EmptyString => None
            end
          else if is_name_char c then
            let (n, r') := take_name s in cons_tok (TWord n) (tokens fuel' r')
          else None
      end
  end.

Definition tokenize (s : string) : option (list token) := tokens (S (String.length s)) s.

Inductive cond : Type :=
| CEq (n v : string)
| CNe (n v : string)
| CNotExists (n : string).

Definition and_more (c : cond) (rest : list token)
  (k : list token -> option (list cond)) : option (list cond) :=
  match rest with
  | [] => Some [c]
  | TWord w :: rest' =>
      if String.eqb w "AND"
      then match k rest' with Some l => Some (c :: l) | None => None end
      else None
  | _ => None
  end.

(** Conjunctions of [#n = :v], [#n <> :v] and [attribute_not_exists(#n)]. *)
Fixpoint parse_conds (fuel : nat) (ts : list token) : option (list cond) :=
  match fuel with
  | O => None
  | S fuel' =>
      match ts with
      | TName n :: TEq :: TValue v :: rest => and_more (CEq n v) rest (parse_conds fuel')
      | TName n :: TNe :: TValue v :: rest => and_more (CNe n v) rest (parse_conds fuel')
      | TWord w :: TLParen :: TName n :: TRParen :: rest =>
          if String.eqb w "attribute_not_exists"
          then and_more (CNotExists n) rest (parse_conds fuel')
          else None
      | _ => None
      end
  end.

Definition parse_condition (s : string) : option (list cond) :=
  match tokenize s with
  | Some ts => parse_conds (S (length ts)) ts
  | None => None
  end.

(** [SET #a = :a, #b = :b]; the other verbs take no equals sign and are
    refused in this form. *)
Fixpoint parse_assigns (fuel : nat) (ts : list token) : option (list (string * string)) :=
  match fuel with
  | O => None
  | S fuel' =>
      match ts with
      | TName n :: TEq :: TValue v :: rest =>
          match rest with
          | [] => Some [(n, v)]
          | TComma :: rest' =>
              match parse_assigns fuel' rest' with
              | Some l => Some ((n, v) :: l)
              | None => None
              end
          | _ => None
          end
      | _ => None
      end
  end.

Definition parse_update (s : string) : option (list (string * string)) :=
  match tokenize s with
  | Some (TWord w :: ts) =>
      if String.eqb w "SET" then parse_assigns (S (length ts)) ts else None
  | _ => None
  end.

(** Equality of the scalar attribute values the store compares. *)
Definition value_eqb (a b : value) : bool :=
  match a, b with
  | VNum x, VNum y => Z.eqb x y
  | VStr x, VStr y => String.eqb x y
  | VBool x, VBool y => Bool.eqb x y
  | VNull, VNull => true
  | _, _ => false
  end.

Definition attr_of (names : obj) (n : string) : option string :=
  match obj_get names ("#" ++ n) with
  | VStr a => Some a
  | _ => None
  end.

Definition eval_cond (names vals : obj) (item : obj) (c : cond) : option bool :=
  match c with
  | CEq n v =>
      option_map (fun a => value_eqb (obj_get item a) (obj_get vals (":" ++ v)))
        (attr_of names n)
  | CNe n v =>
      option_map (fun a => negb (value_eqb (obj_get item a) (obj_get vals (":" ++ v))))
        (attr_of names n)
  | CNotExists n =>
      option_map (fun a => match assoc a item with None => true | Some _ => false end)
        (attr_of names n)
  end.

Fixpoint eval_conds (names vals : obj) (item : obj) (cs : list cond) : option bool :=
  match cs with
  | [] => Some true
  | c :: t =>
      match eval_cond names vals item c, eval_conds names vals item t with
      | Some b, Some b' => Some (b && b')
      | _, _ => None
      end
  end.

(** An optional condition on an item: [None] when it is malformed. *)
Definition holds (expr : option string) (names vals : obj) (item : obj) : option bool :=
  match expr with
  | None => Some true
  | Some s =>
      match parse_condition s with
      | Some cs => eval_conds names vals item cs
      | None => None
      end
  end.

Record Table : Type := mkTable {
  t_name : string;
  t_hash : string;
  t_range : option string;
  t_items : list obj
}.

Definition Store : Type := list Table.

Definition key_attrs (t : Table) : list string :=
  t_hash t :: match t_range t with Some r => [r] | None => [] end.

Definition same_on (attrs : list string) (a b : obj) : bool :=
  forallb (fun k => value_eqb (obj_get a k) (obj_get b k)) attrs.

Fixpoint find_table (name : string) (s : Store) : option Table :=
  match s with
  | [] => None
  | t :: r => if String.eqb (t_name t) name then Some t else find_table name r
  end.

Fixpoint set_table (t : Table) (s : Store) : Store :=
  match s with
  | [] => []
  | t' :: r => if String.eqb (t_name t') (t_name t) then t :: r else t' :: set_table t r
  end.

Definition with_items (t : Table) (items : list obj) : Table :=
  mkTable (t_name t) (t_hash t) (t_range t) items.

Definition lookup_item (t : Table) (key : obj) : option obj :=
  List.find (same_on (key_attrs t) key) (t_items t).

Definition store_item (t : Table) (item : obj) : Table :=
  with_items t
    (filter (fun i => negb (same_on (key_attrs t) item i)) (t_items t) ++ [item])%list.

Definition invalid {A : Type} : outcome A := Throw (StoreError "ValidationException").
Definition refused {A : Type} : outcome A :=
  Throw (StoreError "ConditionalCheckFailedException").
Definition no_table {A : Type} : outcome A :=
  Throw (StoreError "ResourceNotFoundException").

Definition serve_get (p : GetParams) (s : Store) : outcome GetOutput * Store :=
  match find_table (get_TableName p) s with
  | None => (no_table, s)
  | Some t => (Return (mkGetOut (lookup_item t (get_Key p))), s)
  end.

Definition serve_put (p : PutParams) (s : Store) : outcome unit * Store :=
  match find_table (put_TableName p) s with
  | None => (no_table, s)
  | Some t =>
      let old := match lookup_item t (put_Item p) with Some i => i | None => [] end in
      match holds (put_ConditionExpression p)
              (or_empty (put_ExpressionAttributeNames p))
              (or_empty (put_ExpressionAttributeValues p)) old with
      | None => (invalid, s)
      | Some false => (refused, s)
      | Some true => (Return tt, set_table (store_item t (put_Item p)) s)
      end
  end.

Definition select (p : QueryParams) (t : Table) : option (list obj * list obj) :=
  let names := q_ExpressionAttributeNames p in
  let vals := q_ExpressionAttributeValues p in
  let pick (e : option string) (items : list obj) : option (list obj) :=
    fold_right (fun i r =>
                  match holds e names vals i, r with
                  | Some true, Some l => Some (i :: l)
                  | Some false, Some l => Some l
                  | _, _ => None
                  end) (Some []) items in
  match pick (q_KeyConditionExpression p) (t_items t) with
  | None => None
  | Some scanned =>
      match pick (q_FilterExpression p) scanned with
      | None => None
      | Some kept => Some (scanned, kept)
      end
  end.

(** One page, never a continuation token. *)
Definition serve_query (p : QueryParams) (s : Store) : outcome QueryOutput * Store :=
  match find_table (q_TableName p) s with
  | None => (no_table, s)
  | Some t =>
      match select p t with
      | None => (invalid, s)
      | Some (scanned, kept) =>
          (Return (mkQueryOut (map VObj kept) (Z.of_nat (length kept))
                     (Z.of_nat (length scanned)) None), s)
      end
  end.

Definition apply_assigns (vals : obj) (names : obj) (item : obj)
  (l : list (string * string)) : option obj :=
  fold_left (fun r nv =>
               match r, attr_of names (fst nv) with
               | Some i, Some a => Some (obj_set i a (obj_get vals (":" ++ snd nv)))
               | _, _ => None
               end) l (Some item).

Definition serve_update (p : UpdateParams) (s : Store) : outcome UpdateOutput * Store :=
  match find_table (u_TableName p) s with
  | None => (no_table, s)
  | Some t =>
      let old := lookup_item t (u_Key p) in
      match holds (u_ConditionExpression p) (u_ExpressionAttributeNames p)
              (u_ExpressionAttributeValues p)
              (match old with Some i => i | None => [] end) with
      | None => (invalid, s)
      | Some false => (refused, s)
      | Some true =>
          match parse_update (u_UpdateExpression p) with
          | None => (invalid, s)
          | Some l =>
              match apply_assigns (u_ExpressionAttributeValues p)
                      (u_ExpressionAttributeNames p)
                      (match old with Some i => i | None => u_Key p end) l with
              | None => (invalid, s)
              | Some item =>
                  (Return (mkUpdateOut (VObj item)), set_table (store_item t item) s)
              end
          end
      end
  end.

(** Every key is processed at once. *)
Definition serve_batchGet (p : RequestItems) (s : Store) : outcome BatchGetOutput * Store :=
  (Return
     (mkBatchGetOut
        (map (fun tk =>
                (fst tk,
                 flat_map (fun k =>
                             match find_table (fst tk) s, k with
                             | Some t, VObj key =>
                                 match lookup_item t key with
                                 | Some i => [VObj i]
                                 | None => []
                                 end
                             | _, _ => []
                             end) (snd tk))) p)
        []), s).

Definition client : Client Store :=
  mkClient serve_get serve_put serve_query serve_query serve_update serve_batchGet.

End MemStore.

(* ================================================================= *)
(** ** How the runs of the bulk engine are described *)

(** [r[t]], or nothing when the collection has no entry for [t]. *)
Definition items_of (t : string) (r : TableItems) : list value :=
  match assoc t r with Some l => l | None => [] end.



(** The calls made for one request: the request itself, then one call for
    whatever the store left unprocessed, until nothing is left. *)
Inductive served : RequestItems -> list event -> Prop :=
| served_done : forall req out,
    UnprocessedKeys out = [] ->
    served req [EvBatchGet req (Return out)]
| served_retry : forall req out evs,
    UnprocessedKeys out <> [] ->
    served (UnprocessedKeys out) evs ->
    served req (EvBatchGet req (Return out) :: evs).

(** The calls made for a list of requests, one after the other. *)
Inductive served_all : list RequestItems -> list event -> Prop :=
| served_nil : served_all [] []
| served_cons : forall req reqs evs evs',
    served req evs ->
    served_all reqs evs' ->
    served_all (req :: reqs) (evs ++ evs')%list.



(** The slices of the key list, one per turn of the loop. *)
Definition slices (ks : list (string * value)) : list (list (string * value)) :=
  map (fun x => slice100 (100 * x) ks) (seq 0 ((length ks + 99) / 100)).

(** The events an operation added to the trace. *)
Definition new_events {St : Type} (w w' : World St) : list event :=
  skipn (length (w_trace w)) (w_trace w').

(* ================================================================= *)
(** ** Vocabulary of the statements about traces *)

Definition is_get (ev : event) : Prop :=
  match ev with EvGet _ _ => True | _ => False end.

Definition is_query (ev : event) : Prop :=
  match ev with EvQuery _ _ => True | _ => False end.

Definition no_event (ev : event) : Prop := False.

(** A put whose request went through the guard of lines 459-470, for an
    entity with the given [_isNew]. *)
Definition is_guarded_put (schema : Schema) (isNew : bool) (ev : event) : Prop :=
  exists e2 params ro, ev = EvPut (guard_new schema e2 params) ro /\ _isNew e2 = isNew.

(** A computation only adds events of kind [P] to the trace, and leaves
    what was there. *)
Definition emits {St A : Type} (P : event -> Prop) (m : M St A) : Prop :=
  forall w r w', m w = (r, w') ->
    exists evs, w_trace w' = (w_trace w ++ evs)%list /\ Forall P evs.

(** [p] is the key-conditioned query that [save] builds for the unique
    index [k] of an entity: both components of the index are computed
    from the data of the entity and are not empty. *)
Definition asks (schema : Schema) (e : Entity) (k : string) (ix : IndexDesc)
  (p : QueryParams) : Prop :=
  exists hKey hashVal rKey rangeVal,
    index_component schema (_data e) (i_hashKey ix) = Return (hKey, hashVal) /\
    truthy hashVal = true /\
    (if opt_str_truthy (i_rangeKey ix)
     then index_component schema (_data e) (name_of (i_rangeKey ix))
            = Return (rKey, rangeVal) /\ truthy rangeVal = true
     else rKey = None /\ rangeVal = VNull) /\
    p = unique_query schema e k hKey hashVal rKey rangeVal.

(** The outcome of the check of one unique index, given the answer of the
    store. *)
Definition unique_verdict (k : string) (ro : outcome QueryOutput) : outcome unit :=
  match ro with
  | Return out =>
      if Z.eqb (Count out) 0 then Return tt
      else Throw (DynormError (unique_message k))
  | Throw err => Throw err
  end.

(* ================================================================= *)
(** ** Vocabulary of the statements about pagination *)

(** The pages the store returned to the queries and scans of a run. *)
Definition pages_of (evs : list event) : list QueryOutput :=
  flat_map (fun ev =>
              match ev with
              | EvQuery _ (Return data) | EvScan _ (Return data) => [data]
              | _ => []
              end) evs.

(** The items of a page that pass [opts.filter]. *)
Definition page_kept (opts : FindOpts) (data : QueryOutput) : list value :=
  match o_filter opts with
  | Some f => filter f (Items data)
  | None => Items data
  end.

(** The items of a page as the store returned them. *)
Definition page_fetched (data : QueryOutput) : list value := Items data.

(** How many items the pages keep in all. *)
Definition kept_total (opts : FindOpts) (pages : list QueryOutput) : Z :=
  fold_right (fun d n => (Z.of_nat (length (page_kept opts d)) + n)%Z) 0%Z pages.

(** [paginates opts limit pages limit' token]: starting with [limit], the
    pages [pages] are fetched one after the other, [limit'] is the limit
    left and [token] the continuation token retained.  A page is followed
    by another one exactly when it carries a token and the limit left
    after it is absent or positive. *)
Inductive paginates (opts : FindOpts)
  : option Z -> list QueryOutput -> option Z -> option obj -> Prop :=
| pg_exhausted : forall limit d,
    LastEvaluatedKey d = None ->
    paginates opts limit [d] (next_limit limit (page_kept opts d)) None
| pg_limit_reached : forall limit d lek,
    LastEvaluatedKey d = Some lek ->
    limit_open (next_limit limit (page_kept opts d)) = false ->
    paginates opts limit [d] (next_limit limit (page_kept opts d)) (Some lek)
| pg_continue : forall limit d lek ds limit' token,
    LastEvaluatedKey d = Some lek ->
    limit_open (next_limit limit (page_kept opts d)) = true ->
    paginates opts (next_limit limit (page_kept opts d)) ds limit' token ->
    paginates opts limit (d :: ds) limit' token.

(* ================================================================= *)
(** ** Vocabulary of the round trip of records *)

(** A value a record may hold under a property that is not a relation, so
    that it comes back: epoch milliseconds within the range of dates under
    a date property, anything but a Date and [undefined] elsewhere. *)
Definition supported_value (prop : PropertyDesc) (v : value) : Prop :=
  v <> VUndef /\
  if is_date_format prop
  then exists n, v = VNum n /\ TimeClip n = Some n
  else forall t, v <> VDate t.

(** The records of the round trip: property names are distinct; a relation
    has a join of exactly one pair and no attribute under its own name;
    every attribute is a property that is not a relation, with a supported
    value, or the join key of a relation, with a truthy value. *)
Record supported_record (schema : Schema) (r : obj) : Prop := mkSupported {
  sup_names : NoDup (keys (properties schema));
  sup_relations :
    forall k prop, In (k, prop) (properties schema) -> has_ref prop = true ->
      assoc k r = None /\ exists a fk, p_join prop = Some [(a, fk)];
  sup_scalars :
    forall k prop v, In (k, prop) (properties schema) -> has_ref prop = false ->
      assoc k r = Some v -> supported_value prop v;
  sup_covered :
    forall a v, assoc a r = Some v ->
      (exists prop, In (a, prop) (properties schema) /\ has_ref prop = false) \/
      (exists k prop fk, In (k, prop) (properties schema) /\ has_ref prop = true /\
                         p_join prop = Some [(a, fk)] /\ truthy v = true)
}.

(** What [parseDynamo] leaves under a property, starting from the empty
    model. *)
Definition parsed_attr (Date_parse : string -> option Z) (r : obj) (k : string)
  (prop : PropertyDesc) : value :=
  if has_ref prop then
    match p_join prop with
    | Some [(a, fk)] =>
        if truthy (obj_get r a) then VObj [(fk, obj_get r a)] else VUndef
    | _ => VUndef
    end
  else if is_undefined (obj_get r k) then VUndef
  else if is_date_format prop then new_Date Date_parse (obj_get r k)
  else obj_get r k.

(* ================================================================= *)
(** ** Vocabulary of the statements about the constructor *)

(** The condition of line 300: the supplied value is falsy and the
    property declares a default. *)
Definition default_applies (prop : PropertyDesc) (data : obj) (k : string) : bool :=
  negb (truthy (obj_get data k)) && negb (is_undefined (p_default prop)).

(** What the constructor leaves under a property whose default applies,
    in a call that started in [w] and ended in [w']. *)
Definition default_written (Date_parse : string -> option Z) (clock : nat -> Z)
  {St : Type} (prop : PropertyDesc) (w w' : World St) (v : value) : Prop :=
  if is_date_time prop then
    if is_now (p_default prop) then
      exists i, (w_tick w <= i < w_tick w')%nat /\ v = VDate (Some (clock i))
    else v = new_Date Date_parse (p_default prop)
  else v = p_default prop.

(* ================================================================= *)
(** ** Concrete inputs *)

Module Examples.

Definition no_parse : string -> option Z := fun _ => None.
Definition nan_of_string : string -> value := fun _ => VNaN.
Definition clock0 : nat -> Z := fun n => (1700000000000 + Z.of_nat n)%Z.
Definition always_valid : validator := fun _ => None.
Definition ajv0 : SchemaDoc -> string -> validator := fun _ _ => always_valid.

Definition plain (t : string) (f : option string) : PropertyDesc :=
  mkProp (Some t) f VUndef false false false false None None None.

Definition hash_prop : PropertyDesc :=
  mkProp (Some "string") None VUndef true false false false None None None.

Definition range_prop : PropertyDesc :=
  mkProp (Some "string") None VUndef false true false false None None None.

Definition version_prop : PropertyDesc :=
  mkProp (Some "integer") None VUndef false false true false None None None.

Definition relation (target : string) (join : list (string * string)) : PropertyDesc :=
  mkProp None None VUndef false false false false (Some target) (Some join) None.

Definition with_default (t : string) (f : option string) (d : value) : PropertyDesc :=
  mkProp (Some t) f d false false false false None None None.

(** [User]: hash key [id], unique index on [email], integer version,
    timestamps. *)
Definition user_def : SchemaDef :=
  mkDef (Some "User")
    [("id", hash_prop);
     ("email", plain "string" None);
     ("version", version_prop);
     ("createdAt", plain "string" (Some "date-time"));
     ("updatedAt", plain "string" (Some "date-time"))]
    "users" true
    [("emailIndex", mkIndex "email" None true)]
    None.

Definition user_schema : Schema :=
  mkSchema "User" "User" user_def (mkKey (Some "id") None) always_valid.

(** [Order]: hash key [id] and range key [sk]. *)
Definition order_def : SchemaDef :=
  mkDef (Some "Order")
    [("id", hash_prop); ("sk", range_prop); ("total", plain "integer" None)]
    "orders" false [] None.

Definition order_schema : Schema :=
  mkSchema "Order" "Order" order_def (mkKey (Some "id") (Some "sk")) always_valid.

(** [Post]: a date and a relation to [User] joined on [authorId]. *)
Definition post_def : SchemaDef :=
  mkDef (Some "Post")
    [("id", hash_prop);
     ("title", plain "string" None);
     ("at", plain "string" (Some "date-time"));
     ("author", relation "User" [("authorId", "id")])]
    "posts" false [] None.

Definition post_schema : Schema :=
  mkSchema "Post" "Post" post_def (mkKey (Some "id") None) always_valid.

(** A relation joined on two attributes. *)
Definition pair_def : SchemaDef :=
  mkDef (Some "Pair")
    [("id", hash_prop);
     ("owner", relation "User" [("ownerId", "id"); ("ownerOrg", "org")])]
    "pairs" false [] None.

Definition pair_schema : Schema :=
  mkSchema "Pair" "Pair" pair_def (mkKey (Some "id") None) always_valid.

(** Defaults of several types. *)
Definition task_def : SchemaDef :=
  mkDef (Some "Task")
    [("id", hash_prop);
     ("retries", with_default "integer" None (VNum 3));
     ("label", with_default "string" None (VStr "none"));
     ("done", with_default "boolean" None (VBool true));
     ("due", with_default "string" (Some "date-time") (VStr "now"))]
    "tasks" false [] None.

Definition task_schema : Schema :=
  mkSchema "Task" "Task" task_def (mkKey (Some "id") None) always_valid.

Definition doc0 : SchemaDoc :=
  [("User", user_def); ("Order", order_def); ("Post", post_def)].

Definition empty_users : MemStore.Store := [MemStore.mkTable "users" "id" None []].

Definition stored_u1 : obj :=
  [("id", VStr "u1"); ("email", VStr "a@x.com"); ("version", VNum 1)].

Definition users_with_u1 : MemStore.Store :=
  [MemStore.mkTable "users" "id" None [stored_u1]].

Definition world {St : Type} (s : St) : World St := mkWorld s 0 [].

Definition new_entity (data : obj) : Entity := mkEntity true data data.

Definition u1 : Entity := new_entity [("id", VStr "u1"); ("email", VStr "a@x.com")].

Definition order1 : Entity :=
  new_entity [("id", VStr "o1"); ("sk", VStr "2020"); ("total", VNum 5)].

Definition empty_orders : MemStore.Store :=
  [MemStore.mkTable "orders" "id" (Some "sk") []].

(** A client that hands out prepared pages, one per query or scan. *)
Definition next_page (p : QueryParams) (s : list QueryOutput)
  : outcome QueryOutput * list QueryOutput :=
  match s with
  | [] => (Throw (StoreError "NoMorePages"), [])
  | page :: rest => (Return page, rest)
  end.

Definition unsupported {P R : Type} (p : P) (s : list QueryOutput)
  : outcome R * list QueryOutput :=
  (Throw (StoreError "Unsupported"), s).

Definition paged_client : Client (list QueryOutput) :=
  mkClient unsupported unsupported next_page next_page unsupported unsupported.

Definition item (n : Z) : value := VObj [("id", VNum n)].

Definition is_even (v : value) : bool :=
  match v with
  | VObj o => match obj_get o "id" with VNum n => Z.even n | _ => false end
  | _ => false
  end.

Definition only_even : FindOpts := mkOpts (Some is_even) None None VUndef.

Definition page1 : QueryOutput :=
  mkQueryOut [item 1; item 2; item 3] 3 3 (Some [("id", VNum 3)]).
Definition page2 : QueryOutput :=
  mkQueryOut [item 4; item 5] 2 2 None.

Definition post_record : obj :=
  [("id", VStr "p1"); ("title", VStr "hello"); ("at", VNum 1700000000000);
   ("authorId", VStr "u1")].

Definition iso_parse : string -> option Z := fun _ => Some 1577836800000%Z.

Definition with_limit (l : Z) : QueryParams :=
  mkQuery "users" None None None [] [] None (Some l).

Definition single_page : QueryOutput :=
  mkQueryOut [item 1; item 2; item 3] 3 3 None.




End Examples.

(* ================================================================= *)
(** ** The registry of models (lines 62-68) *)

(** [this.#models]: the models compiled so far, by name.  A model is told
    from another by the schema it was compiled with, [undefined] when
    [model] was called with a name alone; names are names of models, not
    members of arrays. *)
Definition Models : Type := list (string * option Schema).

(** [dynorm.model(name, schema)]: the model handed out and the registry
    as the call leaves it. *)
Definition Dynorm_model (name : string) (schema : option Schema) (models : Models)
  : option Schema * Models :=
  match assoc name models with
  | Some m => (m, models)
  | None => (schema, assoc_set name schema models)
  end.

(* ================================================================= *)
(** ** The static [find] of a compiled model (lines 606-612) *)

(** [params.TableName = schema.tableName] *)
Definition set_table (params : QueryParams) (t : string) : QueryParams :=
  mkQuery t (q_IndexName params) (q_KeyConditionExpression params)
    (q_FilterExpression params) (q_ExpressionAttributeNames params)
    (q_ExpressionAttributeValues params) (q_ExclusiveStartKey params) (q_Limit params).

(** What [parseDynamo] reads from an item of a page.  An object gives
    its attributes; a model instance those behind its accessors; reading
    an attribute of [undefined] or [null] throws, which happens as soon
    as the schema has a property; any other value has no attribute. *)
Definition attributes_of (schema : Schema) (item : value) : outcome obj :=
  match item with
  | VObj o => Return o
  | VModel props data =>
      Return (filter (fun kv => existsb (String.eqb (fst kv)) props) data)
  | VUndef | VNull =>
      match properties schema with
      | [] => Return []
      | _ :: _ => Throw TypeError
      end
  | _ => Return []
  end.

Section Finders.

Variable Date_parse : string -> option Z.
Variable clock : nat -> Z.
Variable St : Type.
Variable client : Client St.

Local Open Scope dyn_scope.

(** [new NewModel(schema.parseDynamo(item), false)] *)
Definition hydrate (schema : Schema) (item : value) : M St value :=
  o <- lift (attributes_of schema item) ;;
  parsed <- lift (parseDynamo Date_parse schema o) ;;
  e <- NewModel_constructor Date_parse clock schema parsed false ;;
  ret (VModel (keys (properties schema)) (_data e)).

(** [result.Items.map(item => ...)] *)
Fixpoint hydrate_all (schema : Schema) (items : list value) : M St (list value) :=
  match items with
  | [] => ret []
  | item :: rest =>
      m <- hydrate schema item ;;
      ms <- hydrate_all schema rest ;;
      ret (m :: ms)
  end.

(** [NewModel.find(params)] with the default [fields = []], for which
    [populate] returns at once: the result of [Model.find] with its items
    turned into instances, and the caller's [params] as the call leaves
    them. *)
Definition NewModel_find (fuel : nat) (schema : Schema) (params : QueryParams)
  : M St (option (Acc * QueryParams)) :=
  r <- find client fuel (set_table params (tableName schema))
         (mkOpts None None None VUndef) empty_acc ;;
  match r with
  | None => ret None
  | Some (result, params') =>
      items <- hydrate_all schema (a_Items result) ;;
      ret (Some (mkAcc items (a_ScannedCount result) (a_Count result)
                   (a_Accumulator result) (a_LastEvaluatedKey result),
                 params'))
  end.

End Finders.

(* ================================================================= *)
(** ** [populate(client, fields, items)] (lines 491-539)

    The items are the objects of a page or the item of a [get]: distinct
    objects, each changed in place; here they are handed back as the call
    leaves them. *)

(** [a === b].  Dates and objects are equal only to themselves, and an
    attribute of a fetched row is never the very object an item holds. *)
Definition strict_eq (a b : value) : bool :=
  match a, b with
  | VUndef, VUndef => true
  | VNull, VNull => true
  | VBool x, VBool y => Bool.eqb x y
  | VNum x, VNum y => Z.eqb x y
  | VStr x, VStr y => String.eqb x y
  | _, _ => false
  end.

(** [rows.find(i => i[fk] === v)]: the first row that matches,
    [undefined] when there is none. *)
Fixpoint find_row (fk : string) (v : value) (rows : list value) : outcome value :=
  match rows with
  | [] => Return VUndef
  | i :: rest =>
      obind (js_get i fk) (fun x =>
        if strict_eq x v then Return i else find_row fk v rest)
  end.

(** The names every object literal answers to through [Object.prototype]:
    each reads as a truthy value, and none as an array. *)
Definition inherited : list string :=
  ["constructor"; "__defineGetter__"; "__defineSetter__"; "hasOwnProperty";
   "__lookupGetter__"; "__lookupSetter__"; "isPrototypeOf"; "propertyIsEnumerable";
   "toString"; "valueOf"; "__proto__"; "toLocaleString"].

Definition is_inherited (k : string) : bool := existsb (String.eqb k) inherited.

Section Populate.

Variable Date_parse : string -> option Z.
Variable clock : nat -> Z.
Variable St : Type.
Variable client : Client St.

(** [String(n)] and [String(d)] of the host, for a number and a Date. *)
Variable Number_toString : Z -> string.
Variable Date_toString : option Z -> string.

Local Open Scope dyn_scope.

(** A value inside a template literal. *)
Definition ToString (v : value) : string :=
  match v with
  | VUndef => "undefined"
  | VNull => "null"
  | VBool true => "true"
  | VBool false => "false"
  | VNum n => Number_toString n
  | VNaN => "NaN"
  | VStr s => s
  | VDate t => Date_toString t
  | VObj _ | VModel _ _ => "[object Object]"
  end.

(** The index of line 512. *)
Definition key_tag (tn : string) (val : value) : string := tn ++ "_" ++ ToString val.

(** Lines 505-518 for one item: the keys to fetch so far, by table, and
    the tags of the keys already taken.  [tableKeys] and [keys] start as
    object literals, so a name of [inherited] reads as taken in both:
    under such a table name no list is made and the member found has no
    [push]; under such a tag no key is added. *)
Definition collect_item (orm : Registry) (prop : PropertyDesc)
  (st : RequestItems * list string) (item : obj)
  : outcome (RequestItems * list string) :=
  match p_join prop with
  | None => Throw TypeError                       (* [Object.keys(undefined)] *)
  | Some join =>
      let key := join_first join in
      let val := obj_get item (name_of key) in
      if negb (truthy val) then Return st
      else
        let fk := join_target join key in
        match assoc (name_of (p_ref prop)) orm with
        | None => Throw TypeError                 (* a model without schema *)
        | Some refSchema =>
            let tn := tableName refSchema in
            let taken := existsb (String.eqb (key_tag tn val)) (snd st)
                         || is_inherited (key_tag tn val) in
            match assoc tn (fst st) with
            | Some l =>
                if taken then Return st
                else Return (assoc_set tn (l ++ [VObj [(fk, val)]])%list (fst st),
                             (snd st ++ [key_tag tn val])%list)
            | None =>
                if is_inherited tn then
                  if taken then Return st else Throw TypeError
                else if taken then Return (assoc_set tn [] (fst st), snd st)
                else Return (assoc_set tn [VObj [(fk, val)]] (assoc_set tn [] (fst st)),
                             (snd st ++ [key_tag tn val])%list)
            end
        end
  end.

Fixpoint collect_items (orm : Registry) (prop : PropertyDesc)
  (st : RequestItems * list string) (items : list obj)
  : outcome (RequestItems * list string) :=
  match items with
  | [] => Return st
  | item :: rest =>
      obind (collect_item orm prop st item) (fun st' => collect_items orm prop st' rest)
  end.

(** Lines 501-519. *)
Fixpoint collect_fields (orm : Registry) (schema : Schema) (fields : list string)
  (items : list obj) (st : RequestItems * list string)
  : outcome (RequestItems * list string) :=
  match fields with
  | [] => Return st
  | field :: rest =>
      match assoc field (properties schema) with
      | None => collect_fields orm schema rest items st
      | Some prop =>
          obind (collect_items orm prop st items)
            (collect_fields orm schema rest items)
      end
  end.

(** Lines 526-536 for one item. *)
Definition attach_item (orm : Registry) (prop : PropertyDesc) (field : string)
  (tableItems : TableItems) (item : obj) : M St obj :=
  match p_join prop with
  | None => throw TypeError
  | Some join =>
      let key := join_first join in
      if negb (truthy (obj_get item (name_of key))) then ret item
      else
        let fk := join_target join key in
        match assoc (name_of (p_ref prop)) orm with
        | None => throw TypeError
        | Some refSchema =>
            match assoc (tableName refSchema) tableItems with
            | None => throw TypeError             (* [undefined.find] *)
            | Some rows =>
                tableItem <- lift (find_row fk (obj_get item (name_of key)) rows) ;;
                m <- hydrate Date_parse clock refSchema tableItem ;;
                ret (obj_set item field m)
            end
        end
  end.

Fixpoint attach_items (orm : Registry) (prop : PropertyDesc) (field : string)
  (tableItems : TableItems) (items : list obj) : M St (list obj) :=
  match items with
  | [] => ret []
  | item :: rest =>
      item' <- attach_item orm prop field tableItems item ;;
      rest' <- attach_items orm prop field tableItems rest ;;
      ret (item' :: rest')
  end.

(** Lines 523-537. *)
Fixpoint attach_fields (orm : Registry) (schema : Schema) (fields : list string)
  (tableItems : TableItems) (items : list obj) : M St (list obj) :=
  match fields with
  | [] => ret items
  | field :: rest =>
      match assoc field (properties schema) with
      | None => attach_fields orm schema rest tableItems items
      | Some prop =>
          items' <- attach_items orm prop field tableItems items ;;
          attach_fields orm schema rest tableItems items'
      end
  end.

(** [populate]: the items as the call leaves them; [None] when the bulk
    read ran out of fuel. *)
Definition populate (fuel : nat) (orm : Registry) (schema : Schema)
  (fields : list string) (items : list obj) : M St (option (list obj)) :=
  match fields, items with
  | [], _ => ret (Some items)
  | _, [] => ret (Some items)
  | _ :: _, _ :: _ =>
      st <- lift (collect_fields orm schema fields items ([], [])) ;;
      r <- batchGetKeys client fuel (fst st) ;;
      match r with
      | None => ret None
      | Some tableItems =>
          items' <- attach_fields orm schema fields tableItems items ;;
          ret (Some items')
      end
  end.

End Populate.

(* ================================================================= *)
(** ** [del()] (lines 479-483)

    [delete] is an operation of the store client of its own: a parameter
    here, and the request handed to it is returned with its answer. *)

Record DeleteParams : Type := mkDelete {
  del_TableName : string;
  del_Key : obj
}.

Section Deletion.

Variable St : Type.

(** [client.delete(params).promise()] *)
Variable c_delete : DeleteParams -> St -> outcome unit * St.

(** [del()]: [this[c]] reads a schema property through its accessor. *)
Definition del (schema : Schema) (e : Entity) (s : St)
  : option DeleteParams * (outcome unit * St) :=
  match project_key (s_key schema) (VModel (keys (properties schema)) (_data e)) with
  | Throw err => (None, (Throw err, s))
  | Return key =>
      let params := mkDelete (tableName schema) key in
      (Some params, c_delete params s)
  end.

End Deletion.

(* ================================================================= *)
(** ** Bulk writes (lines 649-695)

    [batchWrite] is an operation of the store client of its own: it is a
    parameter of this section, and the calls made to it are recorded
    beside the store. *)

Inductive WriteRequest : Type :=
| PutRequest (item : value)        (* [{ PutRequest: { Item: item } }] *)
| DeleteRequest (key : value).     (* [{ DeleteRequest: { Key: key } }] *)

(** [RequestItems] of a batch write: table name -> requests. *)
Definition WriteItems : Type := list (string * list WriteRequest).

Record BatchWriteOutput : Type := mkBatchWriteOut {
  UnprocessedItems : WriteItems
}.

Inductive write_event : Type :=
| EvBatchWrite (p : WriteItems) (r : outcome BatchWriteOutput).

(** The store and the batch writes made so far, in order. *)
Record Writes (S : Type) : Type := mkWrites {
  ws_store : S;
  ws_trace : list write_event
}.

(** Lines 667-670 and 687-690: the request of one slice, the items
    grouped by table, each wrapped by [wrap]. *)
Definition write_request (wrap : value -> WriteRequest) (slice : list (string * value))
  : WriteItems :=
  fold_left
    (fun ri ti =>
       let (tn, i) := ti : string * value in
       assoc_set tn (match assoc tn ri with
                     | Some l => (l ++ [wrap i])%list
                     | None => [wrap i]
                     end) ri)
    slice [].

(** [items.slice(i, i + 25)] *)
Definition slice25 (i : nat) (l : list (string * value)) : list (string * value) :=
  firstn 25 (skipn i l).

Section BulkWrites.

Variable St : Type.

(** [client.batchWrite(params).promise()] *)
Variable c_batchWrite : WriteItems -> St -> outcome BatchWriteOutput * St.

(** [batchWrite(client, params)]: what the store leaves unprocessed is
    written again, without bound in the source; [fuel] bounds the number
    of calls here and [None] reports that it ran out. *)
Fixpoint batchWrite (fuel : nat) (params : WriteItems) (w : Writes St)
  : outcome (option unit) * Writes St :=
  match fuel with
  | O => (Return None, w)
  | S fuel' =>
      let (r, s') := c_batchWrite params (ws_store w) in
      let w' := mkWrites s' (ws_trace w ++ [EvBatchWrite params r])%list in
      match r with
      | Throw e => (Throw e, w')
      | Return data =>
          match UnprocessedItems data with
          | [] => (Return (Some tt), w')
          | _ :: _ => batchWrite fuel' (UnprocessedItems data) w'
          end
      end
  end.

(** The loop of lines 666-673 and 686-693; [x < items.length / 25] is
    [25 * x < items.length].  [steps] only makes the recursion structural:
    the loop never takes more turns than there are items. *)
Fixpoint batchWrite_loop (wrap : value -> WriteRequest) (fuel steps x i : nat)
  (items : list (string * value)) (w : Writes St) : outcome (option unit) * Writes St :=
  match steps with
  | O => (Return (Some tt), w)
  | S steps' =>
      if (25 * x <? length items)%nat then
        match batchWrite fuel (write_request wrap (slice25 i items)) w with
        | (Return (Some _), w1) =>
            batchWrite_loop wrap fuel steps' (x + 1) (i + 25) items w1
        | (r, w1) => (r, w1)
        end
      else (Return (Some tt), w)
  end.

(** The body shared by [batchWritePuts] and [batchWriteDeletes]: an empty
    object for an empty collection, nothing once the loop is through. *)
Definition batchWrite_all (wrap : value -> WriteRequest) (fuel : nat)
  (tableItems : TableItems) (w : Writes St) : outcome (option value) * Writes St :=
  match tableItems with
  | [] => (Return (Some (VObj [])), w)
  | _ :: _ =>
      let items := flatten_keys tableItems in
      match batchWrite_loop wrap fuel (length items) 0 0 items w with
      | (Return (Some _), w') => (Return (Some VUndef), w')
      | (Return None, w') => (Return None, w')
      | (Throw e, w') => (Throw e, w')
      end
  end.

(** [batchWritePuts(client, tableItems)] *)
Definition batchWritePuts (fuel : nat) (tableItems : TableItems) (w : Writes St)
  : outcome (option value) * Writes St :=
  batchWrite_all PutRequest fuel tableItems w.

(** [batchWriteDeletes(client, tableKeys)] *)
Definition batchWriteDeletes (fuel : nat) (tableKeys : RequestItems) (w : Writes St)
  : outcome (option value) * Writes St :=
  batchWrite_all DeleteRequest fuel tableKeys w.

End BulkWrites.

(* ================================================================= *)
(** ** Vocabulary of the statements about the record transforms *)

(** No property of the schema is a relation. *)
Definition relation_free (schema : Schema) : Prop :=
  forall k prop, In (k, prop) (properties schema) -> has_ref prop = false.

(** [k] is the name of a property of the schema. *)
Definition declared (schema : Schema) (k : string) : bool :=
  existsb (String.eqb k) (keys (properties schema)).

(** What [toDynamo] stores for the value of a property that is not a
    relation: the time value of a Date, the value itself otherwise. *)
Definition record_value (v : value) : value :=
  match v with VDate t => Date_valueOf t | _ => v end.

(** A Date an engine can hold: invalid, or within the range of
    [TimeClip]. *)
Definition date_in_range (t : option Z) : Prop :=
  match t with Some n => TimeClip n = Some n | None => True end.

(** An attribute of an entity that survives the way to a record and back:
    a Date under a date property, anything but a Date elsewhere. *)
Definition storable (prop : PropertyDesc) (v : value) : Prop :=
  if is_date_format prop
  then exists t, v = VDate t /\ date_in_range t
  else v <> VUndef /\ forall t, v <> VDate t.

(* ================================================================= *)
(** ** Vocabulary of the statements about [update] *)

(** One assignment of the update expression. *)
Definition assignment (k : string) : string := "#" ++ k ++ " = :" ++ k.

(** The verb body once the version attribute and the attributes of [key]
    are deleted from it. *)
Definition stripped (schema : Schema) (key body : obj) : obj :=
  strip_keys key (match tested_version schema with
                  | Some k => assoc_del k body
                  | None => body
                  end).

(** The attributes the request assigns, in order: the version attribute
    when the schema has one, then what is left of the verb body. *)
Definition assigned (schema : Schema) (key body : obj) : list string :=
  (match tested_version schema with Some k => [k] | None => [] end
   ++ keys (stripped schema key body))%list.

(* ================================================================= *)
(** ** Vocabulary of the statements about the requests of [find] *)

(** The call [find] makes for a request: a query when the request carries
    a key condition, a scan otherwise. *)
Definition sent (p : QueryParams) (r : outcome QueryOutput) : event :=
  if opt_str_truthy (q_KeyConditionExpression p) then EvQuery p r else EvScan p r.

(** The request that follows a page [d] carrying the token [lek]: the
    limit is reduced by the items kept, the token becomes the start key,
    the rest is unchanged. *)
Definition next_request (opts : FindOpts) (p : QueryParams) (d : QueryOutput)
  (lek : obj) : QueryParams :=
  set_start (set_limit p (next_limit (q_Limit p) (page_kept opts d))) lek.

(** The calls of a run that starts with the request [p]: every call but
    the last was answered with a page carrying a token, and is followed
    by the call for the next request. *)
Inductive chained (opts : FindOpts) : QueryParams -> list event -> Prop :=
| chained_last : forall p r, chained opts p [sent p r]
| chained_next : forall p d lek evs,
    LastEvaluatedKey d = Some lek ->
    chained opts (next_request opts p d lek) evs ->
    chained opts p (sent p (Return d) :: evs).

(** The sum of the [ScannedCount] of the pages. *)
Definition scanned_total (pages : list QueryOutput) : Z :=
  fold_right (fun d n => (ScannedCount d + n)%Z) 0%Z pages.

(* ================================================================= *)
(** ** Vocabulary of the statements about the clock *)

(** A computation never sets the count of clock readings back. *)
Definition ticks_forward {St A : Type} (m : M St A) : Prop :=
  forall w r w', m w = (r, w') -> (w_tick w <= w_tick w')%nat.

(* ================================================================= *)
(** ** Vocabulary of the further statements about the bulk engine *)

(** The keys a list of requests asks of table [t], in order. *)
Definition asked (t : string) (reqs : list RequestItems) : list value :=
  flat_map (items_of t) reqs.

(** The keys of a slice that belong to table [t], in order. *)
Definition keys_of_table (t : string) (slice : list (string * value)) : list value :=
  map snd (filter (fun tk => String.eqb (fst tk) t) slice).

(* ================================================================= *)
(** ** Vocabulary of the statements about bulk writes *)

(** [r[t]], or nothing when the request has no entry for [t]. *)
Definition requests_of (t : string) (r : WriteItems) : list WriteRequest :=
  match assoc t r with Some l => l | None => [] end.

(** The number of put or delete requests of a request. *)
Definition write_size (r : WriteItems) : nat := length (flat_map snd r).

(** The calls made for one request: the request itself, then one call for
    whatever the store left unprocessed, until nothing is left. *)
Inductive written : WriteItems -> list write_event -> Prop :=
| written_done : forall req out,
    UnprocessedItems out = [] ->
    written req [EvBatchWrite req (Return out)]
| written_retry : forall req out evs,
    UnprocessedItems out <> [] ->
    written (UnprocessedItems out) evs ->
    written req (EvBatchWrite req (Return out) :: evs).

Inductive written_all : list WriteItems -> list write_event -> Prop :=
| written_nil : written_all [] []
| written_cons : forall req reqs evs evs',
    written req evs ->
    written_all reqs evs' ->
    written_all (req :: reqs) (evs ++ evs')%list.

(** The slices of the item list, one per turn of the loop. *)
Definition slices25 (items : list (string * value)) : list (list (string * value)) :=
  map (fun x => slice25 (25 * x) items) (seq 0 ((length items + 24) / 25)).

(** A store that processes every request it is given. *)
Definition accepts_all {St : Type}
  (c_batchWrite : WriteItems -> St -> outcome BatchWriteOutput * St) : Prop :=
  forall p s, exists out s',
    c_batchWrite p s = (Return out, s') /\ UnprocessedItems out = [].

(** The batch writes an operation added. *)
Definition new_writes {St : Type} (w w' : Writes St) : list write_event :=
  skipn (length (ws_trace w)) (ws_trace w').

(* ================================================================= *)
(** ** Vocabulary of the statements about the schema compiler *)

(** A property that carries both a reference and a list of required
    names: the ones the compiler hoists. *)
Definition hoisted (p : PropertyDesc) : bool :=
  has_ref p && match p_required p with Some _ => true | None => false end.

(** The name a reference points to. *)
Definition ref_name (p : PropertyDesc) : string :=
  match p_ref p with Some r => r | None => "" end.

(* ================================================================= *)
(** ** Vocabulary of the statements about the static [find] *)

(** The request of a query or scan. *)
Definition request_of (ev : event) : option QueryParams :=
  match ev with
  | EvQuery p _ | EvScan p _ => Some p
  | _ => None
  end.

(** An instance of the model compiled from [schema]. *)
Definition instance_of (schema : Schema) (v : value) : Prop :=
  exists data, v = VModel (keys (properties schema)) data.

(* ================================================================= *)
(** ** Vocabulary of the statements about [populate] and [del] *)

(** The attributes of the key of a schema are properties of it, as they
    are for a key the compiler derived. *)
Definition key_declared (schema : Schema) : Prop :=
  forall a, hashKey (s_key schema) = Some a \/ rangeKey (s_key schema) = Some a ->
    declared schema a = true.

(** [field] is a relation of [schema] to the model registered with
    [refSchema], joined from the attribute [key] of an item to the
    attribute [fk] of a row of the referenced table. *)
Definition relation_to (orm : Registry) (schema : Schema) (field : string)
  (refSchema : Schema) (key fk : string) : Prop :=
  exists prop join,
    assoc field (properties schema) = Some prop /\
    p_join prop = Some join /\
    key = name_of (join_first join) /\
    fk = join_target join (join_first join) /\
    assoc (name_of (p_ref prop)) orm = Some refSchema.

(** [row] is a row of the rows fetched for the table of [refSchema] whose
    attribute [fk] is strictly equal to [v]. *)
Definition matching_row (tableItems : TableItems) (refSchema : Schema) (fk : string)
  (v : value) (row : value) : Prop :=
  In row (items_of (tableName refSchema) tableItems) /\
  exists x, js_get row fk = Return x /\ strict_eq x v = true.

(** The keys collected so far are one per tag: the tags differ from each
    other, there are as many keys as tags, and each key is a single
    attribute with a truthy value whose tag is among them. *)
Definition one_per_tag (Number_toString : Z -> string) (Date_toString : option Z -> string)
  (st : RequestItems * list string) : Prop :=
  NoDup (snd st) /\
  length (flatten_keys (fst st)) = length (snd st) /\
  forall tn k, In k (items_of tn (fst st)) ->
    exists fk v, k = VObj [(fk, v)] /\ truthy v = true /\
      In (key_tag Number_toString Date_toString tn v) (snd st).

(** What [populate] does to one item for the relation [prop] named
    [field]: the other attributes stay; an item whose join attribute is
    falsy stays whole; otherwise [field] holds an instance of the
    referenced model, which for a model with properties was built from a
    matching row. *)
Definition attached (orm : Registry) (tableItems : TableItems) (prop : PropertyDesc)
  (field : string) (item item' : obj) : Prop :=
  (forall a, a <> field -> obj_get item' a = obj_get item a) /\
  exists join,
    p_join prop = Some join /\
    (truthy (obj_get item (name_of (join_first join))) = false -> item' = item) /\
    (truthy (obj_get item (name_of (join_first join))) = true ->
     exists refSchema,
       assoc (name_of (p_ref prop)) orm = Some refSchema /\
       instance_of refSchema (obj_get item' field) /\
       (properties refSchema <> [] ->
        exists row,
          matching_row tableItems refSchema (join_target join (join_first join))
            (obj_get item (name_of (join_first join))) row)).

(** What [populate] does to one item over [fields]: attributes that are
    no field stay, and each field that is a relation joined from a truthy
    attribute (itself no field) holds an instance of the referenced model,
    built from a matching row when that model has properties. *)
Definition populated (orm : Registry) (schema : Schema) (tableItems : TableItems)
  (fields : list string) (item item' : obj) : Prop :=
  (forall a, ~ In a fields -> obj_get item' a = obj_get item a) /\
  (forall f refSchema key fk,
     In f fields -> relation_to orm schema f refSchema key fk ->
     ~ In key fields -> truthy (obj_get item key) = true ->
     instance_of refSchema (obj_get item' f) /\
     (properties refSchema <> [] ->
      exists row, matching_row tableItems refSchema fk (obj_get item key) row)).

(* ================================================================= *)
(** ** Further concrete inputs *)

Module Cases.

(** [Note]: a relation declared without join. *)
Definition note_def : SchemaDef :=
  mkDef (Some "Note")
    [("id", Examples.hash_prop);
     ("author",
      mkProp None None VUndef false false false false (Some "User") None None)]
    "notes" false [] None.

Definition note_schema : Schema :=
  mkSchema "Note" "Note" note_def (mkKey (Some "id") None) Examples.always_valid.

Definition dated_user : obj :=
  [("id", VStr "u1"); ("email", VStr "a@x.com");
   ("createdAt", VDate (Some 1700000000000%Z))].

(** [User] with a validator that rejects everything. *)
Definition strict_schema : Schema :=
  mkSchema "User" "User" Examples.user_def (mkKey (Some "id") None)
    (fun _ => Some [VObj []; VObj []]).

(** The record of u1 as [get] hands it out: not new, the snapshot equal
    to the data. *)
Definition loaded : Entity := mkEntity false Examples.stored_u1 Examples.stored_u1.

(** A post whose author is not stored. *)
Definition orphan_post : Entity :=
  Examples.new_entity [("id", VStr "p1"); ("author", VObj [("id", VStr "u9")])].

Definition blog : MemStore.Store :=
  [MemStore.mkTable "users" "id" None [Examples.stored_u1];
   MemStore.mkTable "posts" "id" None []].

(** Keys of two tables, interleaved by table. *)
Definition mixed_keys : RequestItems :=
  [("users", [Examples.item 1; Examples.item 2]); ("posts", [Examples.item 7])].

(** A client whose batch get is rejected. *)
Definition failing_client : Client (list QueryOutput) :=
  mkClient Examples.unsupported Examples.unsupported Examples.next_page
    Examples.next_page Examples.unsupported Examples.unsupported.

(** A store of batch writes that keeps the requests and processes all
    of them. *)
Definition write_all (p : WriteItems) (s : list WriteItems)
  : outcome BatchWriteOutput * list WriteItems :=
  (Return (mkBatchWriteOut []), (s ++ [p])%list).

(** 60 items of one table. *)
Definition sixty : TableItems :=
  [("users", map (fun n => Examples.item (Z.of_nat n)) (seq 0 60))].

(** [Comment]: a relation that requires [id] of a definition the
    document does not have. *)
Definition comment_def : SchemaDef :=
  mkDef (Some "Comment")
    [("id", Examples.hash_prop);
     ("post",
      mkProp None None VUndef false false false false (Some "Article")
        (Some [("postId", "id")]) (Some ["id"]))]
    "comments" false [] None.

(** Two properties flagged as hash key, two as version. *)
Definition twice_def : SchemaDef :=
  mkDef (Some "Twice")
    [("a", mkProp (Some "integer") None VUndef true false true false None None None);
     ("b", mkProp (Some "integer") None VUndef true false true false None None None)]
    "twice" false [] None.

(** A request naming another table than the one of the schema. *)
Definition elsewhere : QueryParams :=
  mkQuery "elsewhere" None None None [] [] None None.

(** [Flag]: a version property that is neither an integer nor a
    date-time. *)
Definition flag_def : SchemaDef :=
  mkDef (Some "Flag")
    [("id", Examples.hash_prop);
     ("rev", mkProp (Some "number") None VUndef false false true false None None None)]
    "flags" false [] None.

Definition flag_schema : Schema :=
  mkSchema "Flag" "Flag" flag_def (mkKey (Some "id") None) Examples.always_valid.

Definition flagged : Entity :=
  mkEntity false [("id", VStr "f1"); ("rev", VNum 3)] [("id", VStr "f1"); ("rev", VNum 3)].

Definition flags : MemStore.Store := [MemStore.mkTable "flags" "id" None []].

(** A store of deletions that keeps the requests. *)
Definition delete_all (p : DeleteParams) (s : list DeleteParams)
  : outcome unit * list DeleteParams :=
  (Return tt, (s ++ [p])%list).

(** Two posts by the same author, and one by an author that is not
    stored. *)
Definition post_of (id author : string) : obj :=
  [("id", VStr id); ("title", VStr "t"); ("authorId", VStr author)].

(** The text of a number and of a date for a host run on items that hold
    neither. *)
Definition number_text : Z -> string := fun _ => "0".
Definition date_text : option Z -> string := fun _ => "Invalid Date".

(** Two posts by a stored author, and one without author. *)
Definition posts : list obj :=
  [post_of "p1" "u1"; post_of "p2" "u1"; [("id", VStr "p3")]].

(** The registry of the blog. *)
Definition blog_orm : Registry :=
  [("User", Examples.user_schema); ("Post", Examples.post_schema)].

Definition sum (a x : value) : value :=
  match a, x with
  | VNum m, VObj o => match obj_get o "id" with VNum n => VNum (m + n) | _ => a end
  | _, _ => a
  end.

End Cases.

(* ================================================================= *)
(** * Properties *)

Unset Implicit Arguments.

(** ** Property tables *)

Lemma assoc_set_same (A : Type) (k : string) (v : A) (l : list (string * A)) :
  assoc k (assoc_set k v l) = Some v.
Proof.
  induction l as [|[k' v'] t IH]; simpl.
  - now rewrite String.eqb_refl.
  - destruct (String.eqb k k') eqn:E; simpl; rewrite E; auto.
Qed.

Lemma assoc_set_other (A : Type) (k k' : string) (v : A) (l : list (string * A)) :
  k' <> k -> assoc k' (assoc_set k v l) = assoc k' l.
Proof.
  intros Hne. induction l as [|[k0 v0] t IH]; simpl.
  - destruct (String.eqb k' k) eqn:E; auto.
    apply String.eqb_eq in E. contradiction.
  - destruct (String.eqb k k0) eqn:E; simpl.
    + apply String.eqb_eq in E. subst k0.
      destruct (String.eqb k' k) eqn:E'; auto.
      apply String.eqb_eq in E'. contradiction.
    + destruct (String.eqb k' k0); auto.
Qed.

Lemma assoc_del_same (A : Type) (k : string) (l : list (string * A)) :
  assoc k (assoc_del k l) = None.
Proof.
  induction l as [|[k' v'] t IH]; simpl; auto.
  destruct (String.eqb k k') eqn:E; simpl; auto. now rewrite E.
Qed.

Lemma assoc_del_other (A : Type) (k k' : string) (l : list (string * A)) :
  k' <> k -> assoc k' (assoc_del k l) = assoc k' l.
Proof.
  intros Hne. induction l as [|[k0 v0] t IH]; simpl; auto.
  destruct (String.eqb k k0) eqn:E; simpl.
  - apply String.eqb_eq in E. subst k0.
    destruct (String.eqb k' k) eqn:E'; auto.
    apply String.eqb_eq in E'. contradiction.
  - destruct (String.eqb k' k0); auto.
Qed.

Lemma assoc_In (A : Type) (k : string) (v : A) (l : list (string * A)) :
  assoc k l = Some v -> In (k, v) l.
Proof.
  induction l as [|[k' v'] t IH]; simpl; [discriminate|].
  destruct (String.eqb k k') eqn:E.
  - apply String.eqb_eq in E. subst. intros [= ->]. now left.
  - intros H. right. auto.
Qed.

Lemma assoc_None_keys (A : Type) (k : string) (l : list (string * A)) :
  assoc k l = None <-> ~ In k (keys l).
Proof.
  induction l as [|[k' v'] t IH]; simpl.
  - split; auto.
  - destruct (String.eqb k k') eqn:E.
    + apply String.eqb_eq in E. subst. split; [discriminate|]. intros H. exfalso. auto.
    + apply String.eqb_neq in E. rewrite IH. split.
      * intros H [H1|H1]; [congruence|auto].
      * intros H H1. apply H. now right.
Qed.

Lemma obj_get_set_same (o : obj) (k : string) (v : value) :
  obj_get (obj_set o k v) k = v.
Proof. unfold obj_get, obj_set. now rewrite assoc_set_same. Qed.

Lemma obj_get_set_other (o : obj) (k k' : string) (v : value) :
  k' <> k -> obj_get (obj_set o k v) k' = obj_get o k'.
Proof. intros H. unfold obj_get, obj_set. now rewrite assoc_set_other. Qed.

(* ================================================================= *)
(** ** The schema compiler *)

Lemma find_definition_none (id : string) (doc : SchemaDoc) :
  (forall name d, In (name, d) doc -> d_id d <> Some id) ->
  find_definition id doc = None.
Proof.
  induction doc as [|[name d] t IH]; simpl; intros H; auto.
  destruct (d_id d) as [i|] eqn:E.
  - destruct (String.eqb i id) eqn:E'.
    + apply String.eqb_eq in E'. subst i. exfalso.
      apply (H name d); auto.
    + apply IH. intros n d' Hin. apply (H n d'). now right.
  - apply IH. intros n d' Hin. apply (H n d'). now right.
Qed.

(** C6.  When no definition of the shared document carries the requested
    identifier, the constructor of [Schema] does not raise an error of the
    library: [schema] is still [null] when its properties are read, the
    engine raises a [TypeError], and the document is left as it was. *)
Theorem Schema_constructor_unknown_id
  (ajv : SchemaDoc -> string -> validator) (doc : SchemaDoc) (id : string) :
  (forall name d, In (name, d) doc -> d_id d <> Some id) ->
  Schema_constructor ajv doc id = (Throw TypeError, doc) /\
  (forall msg, fst (Schema_constructor ajv doc id) <> Throw (DynormError msg)).
Proof.
  intros H. unfold Schema_constructor.
  rewrite (find_definition_none id doc H). split; [reflexivity|].
  intros msg. simpl. discriminate.
Qed.

Lemma Schema_constructor_unknown_id_witness :
  Schema_constructor Examples.ajv0 Examples.doc0 "Invoice"
    = (Throw TypeError, Examples.doc0) /\
  (forall msg, fst (Schema_constructor Examples.ajv0 Examples.doc0 "Invoice")
               <> Throw (DynormError msg)).
Proof.
  apply Schema_constructor_unknown_id.
  intros name d Hin. simpl in Hin.
  repeat (destruct Hin as [Hin|Hin]; [injection Hin as <- <-; discriminate|]).
  contradiction.
Defined.

(** The compiler on a known identifier: the example schema of [User]. *)
Example Schema_constructor_user :
  fst (Schema_constructor Examples.ajv0 Examples.doc0 "User")
  = Return Examples.user_schema.
Proof. reflexivity. Qed.

(* ================================================================= *)
(** ** [parseJSON] *)

(** C7.  [parseJSON] does not parse: it serialises.  On every text the
    result is a string, never an object, an array or a Date; a text that
    does not look like a date comes back quoted and escaped, as here the
    JSON text of the array of 1 and 2. *)
Theorem parseJSON_stringifies (Date_parse : string -> option Z) :
  (forall text, exists s, parseJSON Date_parse text = VStr s) /\
  (forall text, reISO_test text = false ->
                parseJSON Date_parse text = VStr (QuoteJSONString text)) /\
  parseJSON Date_parse "[1,2]"
    = VStr (String dquote ("[1,2]" ++ String dquote EmptyString)).
Proof.
  split; [|split].
  - intros text. unfold parseJSON, reviver.
    destruct (reISO_test text); simpl.
    + destruct (Date_parse text); eauto.
    + eauto.
  - intros text H. unfold parseJSON, reviver. now rewrite H.
  - reflexivity.
Qed.

Lemma parseJSON_stringifies_witness :
  parseJSON Examples.no_parse "{}" = VStr (QuoteJSONString "{}").
Proof.
  apply (proj1 (proj2 (parseJSON_stringifies Examples.no_parse))).
  reflexivity.
Defined.

(* ================================================================= *)
(** ** The constructor of an entity *)

Lemma is_undefined_true (v : value) : is_undefined v = true <-> v = VUndef.
Proof. destruct v; simpl; split; intros H; congruence. Qed.

Section Constructor.

Variable Date_parse : string -> option Z.
Variable clock : nat -> Z.
Variable St : Type.

Local Abbreviation defaulted := (default_written Date_parse clock (St:=St)).
Local Abbreviation applies := default_applies.

Lemma init_default_spec (data : obj) (k : string) (prop : PropertyDesc) (w : World St) :
  exists data' w',
    init_default Date_parse clock data (k, prop) w = (Return data', w') /\
    w_store w' = w_store w /\ w_trace w' = w_trace w /\
    (w_tick w <= w_tick w')%nat /\
    (forall k', k' <> k -> assoc k' data' = assoc k' data) /\
    (applies prop data k = true -> defaulted prop w w' (obj_get data' k)) /\
    (applies prop data k = false -> data' = data).
Proof.
  unfold init_default, default_applies, default_written.
  destruct (negb (truthy (obj_get data k)) && negb (is_undefined (p_default prop))) eqn:E.
  - destruct (is_date_time prop) eqn:Edt.
    + destruct (is_now (p_default prop)) eqn:Enow.
      * eexists; eexists. unfold bind, Date_now, ret; simpl.
        split; [reflexivity|]. simpl.
        repeat split; auto; try discriminate.
        -- intros k' Hk. apply assoc_set_other; auto.
        -- intros _. exists (w_tick w). split; [lia|].
           apply obj_get_set_same.
      * eexists; eexists. unfold ret. split; [reflexivity|].
        repeat split; auto; try discriminate.
        -- intros k' Hk. apply assoc_set_other; auto.
        -- intros _. apply obj_get_set_same.
    + eexists; eexists. unfold ret. split; [reflexivity|].
      repeat split; auto; try discriminate.
      * intros k' Hk. apply assoc_set_other; auto.
      * intros _. apply obj_get_set_same.
  - eexists; eexists. unfold ret. split; [reflexivity|].
    repeat split; auto; discriminate.
Qed.

Lemma defaulted_mono (prop : PropertyDesc) (w w1 w2 w3 : World St) (v : value) :
  (w_tick w <= w_tick w1)%nat -> (w_tick w2 <= w_tick w3)%nat ->
  defaulted prop w1 w2 v -> defaulted prop w w3 v.
Proof.
  unfold default_written. intros H1 H2.
  destruct (is_date_time prop); auto.
  destruct (is_now (p_default prop)); auto.
  intros [i [Hi Hv]]. exists i. split; [lia|auto].
Qed.

Lemma init_defaults_spec (ps : list (string * PropertyDesc)) :
  NoDup (keys ps) ->
  forall (data : obj) (w : World St),
  exists data' w',
    init_defaults Date_parse clock ps data w = (Return data', w') /\
    w_store w' = w_store w /\ w_trace w' = w_trace w /\
    (w_tick w <= w_tick w')%nat /\
    (forall k, ~ In k (keys ps) -> assoc k data' = assoc k data) /\
    (forall k prop, In (k, prop) ps ->
       (applies prop data k = true -> defaulted prop w w' (obj_get data' k)) /\
       (applies prop data k = false -> obj_get data' k = obj_get data k)).
Proof.
  induction ps as [|[k0 p0] t IH]; intros Hnd data w.
  - exists data, w. simpl. unfold ret. repeat split; auto; contradiction.
  - inversion Hnd as [|? ? Hnotin Hnd']; subst.
    destruct (init_default_spec data k0 p0 w)
      as (data1 & w1 & E1 & Hs1 & Ht1 & Hk1 & Hfr1 & Hap1 & Hna1).
    destruct (IH Hnd' data1 w1)
      as (data2 & w2 & E2 & Hs2 & Ht2 & Hk2 & Hfr2 & Hin2).
    exists data2, w2. cbn [init_defaults]. unfold bind. rewrite E1. rewrite E2.
    split; [reflexivity|].
    split; [congruence|]. split; [congruence|]. split; [lia|].
    split.
    + intros k Hk. rewrite Hfr2 by (intros H; apply Hk; now right).
      apply Hfr1. intros ->. apply Hk. now left.
    + intros k prop [Hin|Hin].
      * injection Hin as <- <-.
        assert (Hsame : obj_get data2 k0 = obj_get data1 k0).
        { unfold obj_get. now rewrite (Hfr2 k0 Hnotin). }
        rewrite Hsame. split.
        -- intros Ha. apply (defaulted_mono p0 w w w1 w2); auto.
        -- intros Ha. now rewrite (Hna1 Ha).
      * assert (Hne : k <> k0).
        { intros ->. apply Hnotin. change k0 with (fst (k0, prop)). now apply in_map. }
        assert (Hsame : obj_get data1 k = obj_get data k).
        { unfold obj_get. now rewrite (Hfr1 k Hne). }
        destruct (Hin2 k prop Hin) as [Ha Hb].
        unfold default_applies in *. rewrite Hsame in Ha, Hb. split.
        -- intros H. apply (defaulted_mono prop w w1 w2 w2); auto.
        -- auto.
Qed.

(** C10.  The constructor always returns; the snapshot is the data it was
    given; and for every property of the schema (property names are
    distinct, as the keys of an object are): when the supplied value is
    falsy and a default is declared, the attribute holds the default (for a
    date-time property, the Date of a clock reading taken during the call
    when the default is the word now, the Date made from the default
    otherwise); in every other case the attribute is left as supplied. *)
Theorem NewModel_constructor_defaults
  (schema : Schema) (data : obj) (isNew : bool) (w : World St) :
  NoDup (keys (properties schema)) ->
  exists e w',
    NewModel_constructor Date_parse clock schema data isNew w = (Return e, w') /\
    _isNew e = isNew /\ orig e = data /\
    w_store w' = w_store w /\ w_trace w' = w_trace w /\
    (forall k prop, In (k, prop) (properties schema) ->
       (truthy (obj_get data k) = false -> p_default prop <> VUndef ->
          if is_date_time prop then
            if is_now (p_default prop) then
              exists i, (w_tick w <= i < w_tick w')%nat /\
                        obj_get (_data e) k = VDate (Some (clock i))
            else obj_get (_data e) k = new_Date Date_parse (p_default prop)
          else obj_get (_data e) k = p_default prop) /\
       (truthy (obj_get data k) = true \/ p_default prop = VUndef ->
          obj_get (_data e) k = obj_get data k)).
Proof.
  intros Hnd.
  destruct (init_defaults_spec (properties schema) Hnd data w)
    as (data' & w' & E & Hs & Ht & Hk & Hfr & Hin).
  exists (mkEntity isNew data' data), w'.
  unfold NewModel_constructor, bind. rewrite E. unfold ret. simpl.
  repeat split; auto.
  - intros Hf Hd. apply (proj1 (Hin k prop H)).
    unfold default_applies. rewrite Hf. simpl.
    destruct (is_undefined (p_default prop)) eqn:Eu; auto.
    apply is_undefined_true in Eu. contradiction.
  - intros Hc. apply (proj2 (Hin k prop H)).
    unfold default_applies. destruct Hc as [Hc|Hc].
    + now rewrite Hc.
    + rewrite Hc. simpl. apply andb_false_r.
Qed.

End Constructor.

Lemma NewModel_constructor_defaults_witness :
  exists e w',
    NewModel_constructor Examples.no_parse Examples.clock0 Examples.task_schema
      [("id", VStr "t1"); ("retries", VNum 0); ("label", VStr ""); ("done", VBool false)]
      true (Examples.world Examples.empty_users) = (Return e, w') /\
    obj_get (_data e) "retries" = VNum 3 /\
    obj_get (_data e) "label" = VStr "none" /\
    obj_get (_data e) "done" = VBool true /\
    obj_get (_data e) "due" = VDate (Some 1700000000000%Z) /\
    obj_get (_data e) "id" = VStr "t1".
Proof.
  destruct (NewModel_constructor_defaults Examples.no_parse Examples.clock0
              MemStore.Store Examples.task_schema
              [("id", VStr "t1"); ("retries", VNum 0); ("label", VStr "");
               ("done", VBool false)]
              true (Examples.world Examples.empty_users))
    as (e & w' & E & _).
  - repeat constructor; simpl; intuition discriminate.
  - exists e, w'. split; [exact E|].
    vm_compute in E. injection E as <- <-. repeat split; reflexivity.
Defined.

(* ================================================================= *)
(** ** The static update *)

Lemma assoc_del_None (A : Type) (k k' : string) (l : list (string * A)) :
  assoc k l = None -> assoc k (assoc_del k' l) = None.
Proof.
  intros H. destruct (String.eqb k k') eqn:E.
  - apply String.eqb_eq in E. subst. apply assoc_del_same.
  - apply String.eqb_neq in E. now rewrite assoc_del_other.
Qed.

Lemma strip_keys_None (ks : list string) (k : string) (body : obj) :
  assoc k body = None ->
  assoc k (fold_left (fun b k0 => assoc_del k0 b) ks body) = None.
Proof.
  revert body. induction ks as [|a t IH]; simpl; intros body H; auto.
  apply IH. now apply assoc_del_None.
Qed.

Lemma strip_keys_in (key body : obj) (k : string) :
  In k (keys key) -> assoc k (strip_keys key body) = None.
Proof.
  unfold strip_keys. generalize (keys key) as ks. intros ks. revert body.
  induction ks as [|a t IH]; simpl; intros body H; [contradiction|].
  destruct H as [->|H].
  - apply strip_keys_None. apply assoc_del_same.
  - now apply IH.
Qed.

Lemma strip_keys_notin (key body : obj) (k : string) :
  ~ In k (keys key) -> assoc k (strip_keys key body) = assoc k body.
Proof.
  unfold strip_keys. generalize (keys key) as ks. intros ks. revert body.
  induction ks as [|a t IH]; simpl; intros body H; auto.
  rewrite IH by (intros Hin; apply H; now right).
  apply assoc_del_other. intros ->. apply H. now left.
Qed.

Lemma hash_inj (k k' : string) : "#" ++ k = "#" ++ k' -> k = k'.
Proof. simpl. now intros [= ->]. Qed.

Lemma update_assign_frame (body : obj) (ks : list string) (p : UpdateParams) :
  u_TableName (fold_left (update_assign body) ks p) = u_TableName p /\
  u_Key (fold_left (update_assign body) ks p) = u_Key p /\
  u_ConditionExpression (fold_left (update_assign body) ks p) = u_ConditionExpression p.
Proof.
  revert p. induction ks as [|a t IH]; simpl; intros p; auto.
  destruct (IH (update_assign body p a)) as (H1 & H2 & H3).
  rewrite H1, H2, H3. auto.
Qed.

Lemma update_assign_names (body : obj) (ks : list string) (p : UpdateParams) (k : string) :
  ~ In k ks ->
  assoc ("#" ++ k) (u_ExpressionAttributeNames (fold_left (update_assign body) ks p))
  = assoc ("#" ++ k) (u_ExpressionAttributeNames p).
Proof.
  revert p. induction ks as [|a t IH]; simpl; intros p H; auto.
  rewrite IH by (intros Hin; apply H; now right).
  unfold update_assign, obj_set. cbn [u_ExpressionAttributeNames].
  apply assoc_set_other. intros E. apply hash_inj in E. subst. apply H. now left.
Qed.

Lemma append_Old_neq (k : string) : k ++ "Old" <> k.
Proof.
  induction k as [|c k IH]; simpl; [discriminate|].
  intros [= H]. contradiction.
Qed.

Lemma colon_inj (k k' : string) : ":" ++ k = ":" ++ k' -> k = k'.
Proof. simpl. now intros [= ->]. Qed.

Lemma update_assign_values (body : obj) (ks : list string) (p : UpdateParams) (n : string) :
  (forall k, In k ks -> n <> ":" ++ k) ->
  assoc n (u_ExpressionAttributeValues (fold_left (update_assign body) ks p))
  = assoc n (u_ExpressionAttributeValues p).
Proof.
  revert p. induction ks as [|a t IH]; simpl; intros p H; auto.
  rewrite IH by (intros k Hin; apply H; now right).
  unfold update_assign, obj_set. cbn [u_ExpressionAttributeValues].
  apply assoc_set_other. apply H. now left.
Qed.

Lemma find_verb_body (upd : UpdateSpec) (t : verb) :
  find_verb upd = Some t -> exists body, verb_body upd t = Some body.
Proof.
  unfold find_verb, verb_body.
  destruct (upd_SET upd) eqn:E1; destruct (upd_ADD upd) eqn:E2;
    destruct (upd_DELETE upd) eqn:E3; intros [= <-]; eauto.
Qed.

Lemma set_verb_body_same (upd : UpdateSpec) (t : verb) (o : obj) :
  verb_body (set_verb_body upd t o) t = Some o.
Proof. destruct t; reflexivity. Qed.

Lemma set_verb_body_other (upd : UpdateSpec) (t t' : verb) (o : obj) :
  t' <> t -> verb_body (set_verb_body upd t o) t' = verb_body upd t'.
Proof. destruct t, t'; simpl; congruence. Qed.

Section Update.

Variable clock : nat -> Z.
Variable St : Type.
Variable client : Client St.

Lemma new_events_app (w w' : World St) (evs : list event) :
  w_trace w' = (w_trace w ++ evs)%list -> new_events w w' = evs.
Proof.
  intros H. unfold new_events. rewrite H.
  rewrite skipn_app, skipn_all, Nat.sub_diag. reflexivity.
Qed.

(** The request and the caller's object after lines 547-580, when a verb
    key is present. *)
Lemma update_build_spec (schema : Schema) (key : obj) (upd : UpdateSpec)
  (t : verb) (body : obj) (w : World St) :
  find_verb upd = Some t ->
  verb_body upd t = Some body ->
  exists params body' w1,
    update_build clock schema key upd w
      = (Return (params, set_verb_body upd t body'), w1) /\
    w_store w1 = w_store w /\ w_trace w1 = w_trace w /\
    u_Key params = key /\
    (forall k, tested_version schema = Some k -> assoc k body' = None) /\
    (forall k, In k (keys key) -> assoc k body' = None) /\
    (forall k, tested_version schema <> Some k -> ~ In k (keys key) ->
               assoc k body' = assoc k body) /\
    (forall k, In k (keys key) -> tested_version schema <> Some k ->
               assoc ("#" ++ k) (u_ExpressionAttributeNames params) = None).
Proof.
  intros Ht Hb. unfold update_build. rewrite Ht, Hb.
  destruct (tested_version schema) as [ver|] eqn:Ev.
  - unfold bind, Date_now, ret. cbn [fst snd].
    unfold update_version. cbn [u_UpdateExpression u_ExpressionAttributeNames
      u_ExpressionAttributeValues u_ConditionExpression u_TableName u_Key u_ReturnValues].
    set (body1 := assoc_del ver body).
    set (body' := strip_keys key body1).
    destruct (truthy (obj_get body ver)).
    + eexists; exists body'; eexists. split; [reflexivity|]. cbn [w_store w_trace].
      split; [reflexivity|]. split; [reflexivity|].
      split; [apply update_assign_frame|].
      split.
      { intros k [= <-]. unfold body'.
        destruct (in_dec string_dec ver (keys key)) as [Hin|Hin].
        - now apply strip_keys_in.
        - rewrite strip_keys_notin by auto. apply assoc_del_same. }
      split; [intros k Hin; now apply strip_keys_in|].
      split.
      { intros k Hv Hk. unfold body'. rewrite strip_keys_notin by auto.
        apply assoc_del_other. congruence. }
      intros k Hin Hv.
      rewrite update_assign_names.
      * cbn [u_ExpressionAttributeNames]. unfold obj_set.
        rewrite assoc_set_other; [reflexivity|].
        intros E. apply hash_inj in E. congruence.
      * apply assoc_None_keys. now apply strip_keys_in.
    + eexists; exists body'; eexists. split; [reflexivity|]. cbn [w_store w_trace].
      split; [reflexivity|]. split; [reflexivity|].
      split; [apply update_assign_frame|].
      split.
      { intros k [= <-]. unfold body'.
        destruct (in_dec string_dec ver (keys key)) as [Hin|Hin].
        - now apply strip_keys_in.
        - rewrite strip_keys_notin by auto. apply assoc_del_same. }
      split; [intros k Hin; now apply strip_keys_in|].
      split.
      { intros k Hv Hk. unfold body'. rewrite strip_keys_notin by auto.
        apply assoc_del_other. congruence. }
      intros k Hin Hv.
      rewrite update_assign_names.
      * cbn [u_ExpressionAttributeNames]. unfold obj_set.
        rewrite assoc_set_other; [reflexivity|].
        intros E. apply hash_inj in E. congruence.
      * apply assoc_None_keys. now apply strip_keys_in.
  - unfold bind, ret. cbn [fst snd].
    set (body' := strip_keys key body).
    eexists; exists body'; eexists. split; [reflexivity|].
    split; [reflexivity|]. split; [reflexivity|].
    split; [apply update_assign_frame|].
    split; [discriminate|].
    split; [intros k Hin; now apply strip_keys_in|].
    split; [intros k _ Hk; now apply strip_keys_notin|].
    intros k Hin _.
    rewrite update_assign_names; [reflexivity|].
    apply assoc_None_keys. now apply strip_keys_in.
Qed.

(** C9.  When the update object carries a verb key, [update] reaches the
    store with exactly one request, and the caller's object comes back
    changed: in the body of that verb the entry of the version attribute
    and the entry of every attribute named in [key] (the primary key of the
    record) are gone, every other entry and the other verb keys are as
    before; in particular no primary-key attribute named in [key] is left;
    the request assigns none of the stripped key attributes.  This holds
    whether the store accepts the request or rejects it. *)
Theorem update_strips_caller_body (schema : Schema) (key : obj) (upd : UpdateSpec)
  (t : verb) (w : World St) :
  find_verb upd = Some t ->
  exists body body' params res r w',
    update clock client schema key upd w = (r, set_verb_body upd t body', w') /\
    verb_body upd t = Some body /\
    verb_body (set_verb_body upd t body') t = Some body' /\
    (forall t', t' <> t -> verb_body (set_verb_body upd t body') t' = verb_body upd t') /\
    (forall k, tested_version schema = Some k -> assoc k body' = None) /\
    (forall k, In k (keys key) -> assoc k body' = None) /\
    (forall k, tested_version schema <> Some k -> ~ In k (keys key) ->
               assoc k body' = assoc k body) /\
    (forall k, hashKey (s_key schema) = Some k \/ rangeKey (s_key schema) = Some k ->
               In k (keys key) -> assoc k body' = None) /\
    new_events w w' = [EvUpdate params res] /\
    u_Key params = key /\
    (forall k, In k (keys key) -> tested_version schema <> Some k ->
               assoc ("#" ++ k) (u_ExpressionAttributeNames params) = None).
Proof.
  intros Ht.
  destruct (find_verb_body upd t Ht) as [body Hb].
  destruct (update_build_spec schema key upd t body w Ht Hb)
    as (params & body' & w1 & E & Hs & Htr & Hkey & Hver & Hin & Hother & Hnames).
  unfold update. rewrite E. unfold call.
  destruct (c_update client params (w_store w1)) as [res s'] eqn:Ec.
  exists body, body', params, res.
  destruct res as [data|e].
  - eexists; eexists. split; [reflexivity|].
    split; [exact Hb|]. split; [apply set_verb_body_same|].
    split; [intros t' Hne; now apply set_verb_body_other|].
    repeat (split; [assumption|]).
    split; [intros k _ Hk; now apply Hin|].
    split; [|split; assumption].
    apply new_events_app. cbn [w_trace]. now rewrite Htr.
  - eexists; eexists. split; [reflexivity|].
    split; [exact Hb|]. split; [apply set_verb_body_same|].
    split; [intros t' Hne; now apply set_verb_body_other|].
    repeat (split; [assumption|]).
    split; [intros k _ Hk; now apply Hin|].
    split; [|split; assumption].
    apply new_events_app. cbn [w_trace]. now rewrite Htr.
Qed.

(** What [update] asks of the store about the version attribute. *)
Lemma update_version_request (schema : Schema) (key : obj) (upd : UpdateSpec)
  (t : verb) (body : obj) (k : string) (w : World St) :
  tested_version schema = Some k ->
  find_verb upd = Some t ->
  verb_body upd t = Some body ->
  exists params res r upd' w',
    update clock client schema key upd w = (r, upd', w') /\
    new_events w w' = [EvUpdate params res] /\
    assoc ("#" ++ k) (u_ExpressionAttributeNames params) = Some (VStr k) /\
    assoc (":" ++ k) (u_ExpressionAttributeValues params)
    = Some (VNum (clock (w_tick w))) /\
    u_ConditionExpression params
    = (if truthy (obj_get body k) then Some ("#" ++ k ++ " = :" ++ k ++ "Old") else None) /\
    (truthy (obj_get body k) = true -> ~ In (k ++ "Old") (keys body) ->
     assoc (":" ++ k ++ "Old") (u_ExpressionAttributeValues params)
     = Some (obj_get body k)).
Proof.
  intros Hv Ht Hb.
  unfold update, update_build. rewrite Ht, Hb, Hv.
  unfold bind, Date_now, ret. cbn [fst snd].
  unfold update_version. cbn [u_UpdateExpression u_ExpressionAttributeNames
    u_ExpressionAttributeValues u_ConditionExpression u_TableName u_Key u_ReturnValues].
  set (body' := strip_keys key (assoc_del k body)).
  assert (Hk : ~ In k (keys body')).
  { apply assoc_None_keys. unfold body'.
    destruct (in_dec string_dec k (keys key)) as [Hin|Hin].
    - now apply strip_keys_in.
    - rewrite strip_keys_notin by auto. apply assoc_del_same. }
  assert (Hsub : forall a, In a (keys body') -> In a (keys body)).
  { intros a Ha. destruct (assoc a body) eqn:E.
    - apply assoc_In in E. change a with (fst (a, v)). now apply in_map.
    - exfalso. apply (proj1 (assoc_None_keys _ a body')); [|exact Ha].
      unfold body'. apply strip_keys_None. now apply assoc_del_None. }
  destruct (truthy (obj_get body k)) eqn:Etr.
  - unfold call.
    match goal with
    | |- context [c_update client ?p ?st] =>
        destruct (c_update client p st) as [res s'] eqn:Ec; exists p, res
    end.
    destruct res as [data|e]; eexists; eexists; eexists;
      (split; [reflexivity|]);
      (split; [apply new_events_app; reflexivity|]);
      (split; [rewrite update_assign_names by exact Hk;
               cbn [u_ExpressionAttributeNames]; unfold obj_set;
               apply assoc_set_same|]);
      (split; [rewrite update_assign_values
                 by (intros k0 Hin E; apply colon_inj in E; subst; contradiction);
               cbn [u_ExpressionAttributeValues]; unfold obj_set;
               rewrite assoc_set_other
                 by (intros E; apply colon_inj in E; symmetry in E;
                     now apply append_Old_neq in E);
               apply assoc_set_same|]);
      (split; [apply update_assign_frame|]);
      intros _ Hold;
      rewrite update_assign_values
        by (intros k0 Hin E; apply colon_inj in E; subst; apply Hold; now apply Hsub);
      cbn [u_ExpressionAttributeValues]; unfold obj_set; apply assoc_set_same.
  - unfold call.
    match goal with
    | |- context [c_update client ?p ?st] =>
        destruct (c_update client p st) as [res s'] eqn:Ec; exists p, res
    end.
    destruct res as [data|e]; eexists; eexists; eexists;
      (split; [reflexivity|]);
      (split; [apply new_events_app; reflexivity|]);
      (split; [rewrite update_assign_names by exact Hk;
               cbn [u_ExpressionAttributeNames]; unfold obj_set;
               apply assoc_set_same|]);
      (split; [rewrite update_assign_values
                 by (intros k0 Hin E; apply colon_inj in E; subst; contradiction);
               cbn [u_ExpressionAttributeValues]; unfold obj_set;
               apply assoc_set_same|]);
      (split; [apply update_assign_frame|]);
      discriminate.
Qed.

End Update.

Lemma update_strips_caller_body_witness :
  exists body body' params res r w',
    update Examples.clock0 MemStore.client Examples.user_schema [("id", VStr "u1")]
      (mkSpec (Some [("id", VStr "u1"); ("email", VStr "b@x.com"); ("version", VNum 1)])
         None None)
      (Examples.world Examples.users_with_u1)
    = (r, set_verb_body
            (mkSpec (Some [("id", VStr "u1"); ("email", VStr "b@x.com");
                           ("version", VNum 1)]) None None) SET body', w') /\
    verb_body (mkSpec (Some [("id", VStr "u1"); ("email", VStr "b@x.com");
                             ("version", VNum 1)]) None None) SET = Some body /\
    assoc "id" body' = None /\ assoc "version" body' = None /\
    assoc "email" body' = Some (VStr "b@x.com") /\
    new_events (Examples.world Examples.users_with_u1) w' = [EvUpdate params res].
Proof.
  destruct (update_strips_caller_body Examples.clock0 MemStore.Store MemStore.client
              Examples.user_schema [("id", VStr "u1")]
              (mkSpec (Some [("id", VStr "u1"); ("email", VStr "b@x.com");
                             ("version", VNum 1)]) None None)
              SET (Examples.world Examples.users_with_u1) eq_refl)
    as (body & body' & params & res & r & w' & E & Hb & _ & _ & Hv & Hk & Ho & _ & Hev & _).
  exists body, body', params, res, r, w'.
  split; [exact E|]. split; [exact Hb|].
  split; [apply Hk; simpl; auto|].
  split; [apply Hv; reflexivity|].
  split; [|exact Hev].
  rewrite Ho.
  - injection Hb as <-. reflexivity.
  - discriminate.
  - simpl. intros [H|[]]. discriminate.
Defined.

(** C1.  Whatever the declared type of the version attribute, [update]
    asks the store to write the reading of the clock into it, and adds the
    condition on the prior value when the caller supplied a truthy one.
    In the scenario of the specification, run on the reference store with
    the record of u1 stored at an integer version [n], the version that
    ends up stored is therefore the reading of the clock, not [n + 1]; the
    email is the new one. *)
Theorem update_integer_version_scenario (clock : nat -> Z) :
  (forall (St : Type) (client : Client St) (schema : Schema) (key : obj)
          (upd : UpdateSpec) (t : verb) (body : obj) (k : string) (w : World St),
     tested_version schema = Some k ->
     find_verb upd = Some t ->
     verb_body upd t = Some body ->
     exists params res r upd' w',
       update clock client schema key upd w = (r, upd', w') /\
       new_events w w' = [EvUpdate params res] /\
       assoc (":" ++ k) (u_ExpressionAttributeValues params)
       = Some (VNum (clock (w_tick w))) /\
       u_ConditionExpression params
       = (if truthy (obj_get body k)
          then Some ("#" ++ k ++ " = :" ++ k ++ "Old") else None)) /\
  (forall n : Z,
     let stored := [("id", VStr "u1"); ("email", VStr "a@x.com"); ("version", VNum n)] in
     let after := [("id", VStr "u1"); ("email", VStr "b@x.com");
                   ("version", VNum (clock 0%nat))] in
     let request :=
       mkUpdate "users" [("id", VStr "u1")]
         [("#version", VStr "version"); ("#email", VStr "email")]
         [(":version", VNum (clock 0%nat)); (":email", VStr "b@x.com")]
         "ALL_NEW" "SET #version = :version, #email = :email" None in
     is_integer Examples.version_prop = true /\
     update clock MemStore.client Examples.user_schema [("id", VStr "u1")]
       (mkSpec (Some [("email", VStr "b@x.com")]) None None)
       (Examples.world [MemStore.mkTable "users" "id" None [stored]])
     = (Return (VObj after),
        mkSpec (Some [("email", VStr "b@x.com")]) None None,
        mkWorld [MemStore.mkTable "users" "id" None [after]] 1
          [EvUpdate request (Return (mkUpdateOut (VObj after)))])).
Proof.
  split.
  - intros St client schema key upd t body k w Hv Ht Hb.
    destruct (update_version_request clock St client schema key upd t body k w Hv Ht Hb)
      as (params & res & r & upd' & w' & E & Hev & _ & Hval & Hcond & _).
    exists params, res, r, upd', w'. auto.
  - intros n. cbv zeta. split; reflexivity.
Qed.

(** With the clock of the examples, the stored version becomes
    1700000000000 where the specification expects 2. *)
Lemma update_integer_version_scenario_witness :
  fst (fst (update Examples.clock0 MemStore.client Examples.user_schema
              [("id", VStr "u1")]
              (mkSpec (Some [("email", VStr "b@x.com")]) None None)
              (Examples.world Examples.users_with_u1)))
  = Return (VObj [("id", VStr "u1"); ("email", VStr "b@x.com");
                  ("version", VNum 1700000000000)]).
Proof.
  exact (f_equal (fun x => fst (fst x))
           (proj2 (proj2 (update_integer_version_scenario Examples.clock0) 1%Z))).
Defined.

(* ================================================================= *)
(** ** Traces of computations *)

Section Traces.

Variable St : Type.

Lemma bind_inv (A B : Type) (m : M St A) (f : A -> M St B)
  (w : World St) (r : outcome B) (w' : World St) :
  bind m f w = (r, w') ->
  (exists e, m w = (Throw e, w') /\ r = Throw e) \/
  (exists a w1, m w = (Return a, w1) /\ f a w1 = (r, w')).
Proof.
  unfold bind. destruct (m w) as [[a|e] w1]; intros H.
  - right. eauto.
  - left. injection H as <- <-. eauto.
Qed.

Lemma emits_ret (A : Type) (P : event -> Prop) (a : A) : emits P (ret (S:=St) a).
Proof.
  intros w r w' [= <- <-]. exists []. split; [now rewrite app_nil_r|constructor].
Qed.

Lemma emits_throw (A : Type) (P : event -> Prop) (e : error) :
  emits P (throw (S:=St) (A:=A) e).
Proof.
  intros w r w' [= <- <-]. exists []. split; [now rewrite app_nil_r|constructor].
Qed.

Lemma emits_lift (A : Type) (P : event -> Prop) (x : outcome A) :
  emits P (lift (S:=St) x).
Proof.
  intros w r w' [= <- <-]. exists []. split; [now rewrite app_nil_r|constructor].
Qed.

Lemma emits_bind (A B : Type) (P : event -> Prop) (m : M St A) (f : A -> M St B) :
  emits P m -> (forall a, emits P (f a)) -> emits P (bind m f).
Proof.
  intros Hm Hf w r w' H.
  destruct (bind_inv _ _ m f w r w' H) as [(e & E & ->)|(a & w1 & E & E')].
  - exact (Hm w _ w' E).
  - destruct (Hm w _ w1 E) as (evs1 & T1 & F1).
    destruct (Hf a w1 _ w' E') as (evs2 & T2 & F2).
    exists (evs1 ++ evs2)%list. split.
    + rewrite T2, T1. now rewrite app_assoc.
    + apply Forall_app. auto.
Qed.

Lemma emits_call (P0 R : Type) (P : event -> Prop)
  (f : P0 -> St -> outcome R * St) (ev : P0 -> outcome R -> event) (p : P0) :
  (forall r, P (ev p r)) -> emits P (call f ev p).
Proof.
  intros HP w r w'. unfold call.
  destruct (f p (w_store w)) as [r0 s']. intros [= <- <-].
  exists [ev p r0]. split; [reflexivity|]. constructor; auto.
Qed.

Lemma emits_Date_now (P : event -> Prop) (clock : nat -> Z) :
  emits P (Date_now clock (St:=St)).
Proof.
  intros w r w' [= <- <-]. exists []. simpl. split; [now rewrite app_nil_r|constructor].
Qed.

End Traces.

(* ================================================================= *)
(** ** [save]: unique indexes *)

Lemma unique_query_index (schema : Schema) (e : Entity) (k : string)
  (hKey : option string) (hashVal : value) (rKey : option string) (rangeVal : value) :
  q_IndexName (unique_query schema e k hKey hashVal rKey rangeVal) = Some k /\
  q_TableName (unique_query schema e k hKey hashVal rKey rangeVal) = tableName schema.
Proof.
  unfold unique_query.
  destruct (opt_str_truthy rKey); destruct (negb (_isNew e));
    try destruct (opt_str_truthy (rangeKey (s_key schema))); split; reflexivity.
Qed.

Section Save.

Variable Date_parse : string -> option Z.
Variable ToNumber_string : string -> value.
Variable clock : nat -> Z.
Variable St : Type.
Variable client : Client St.

Lemma check_unique_index_spec (schema : Schema) (e : Entity) (k : string)
  (ix : IndexDesc) (w : World St) (r : outcome unit) (w' : World St) :
  check_unique_index client schema e (k, ix) w = (r, w') ->
  (i_unique ix = false /\ r = Return tt /\ w' = w) \/
  (i_unique ix = true /\ (exists err, r = Throw err) /\ w' = w) \/
  (i_unique ix = true /\
   exists p ro s',
     asks schema e k ix p /\
     c_query client p (w_store w) = (ro, s') /\
     w' = mkWorld s' (w_tick w) (w_trace w ++ [EvQuery p ro]) /\
     r = unique_verdict k ro).
Proof.
  unfold check_unique_index.
  destruct (i_unique ix) eqn:Eu; cbn [negb].
  2:{ intros [= <- <-]. left. auto. }
  intros H. right.
  apply bind_inv in H. destruct H as [(err & E & ->)|(hc & w1 & E & H)].
  { unfold lift in E. injection E as E <-. left. eauto. }
  unfold lift in E. injection E as Eh <-.
  destruct hc as [hKey hashVal].
  destruct (truthy hashVal) eqn:Ehv; cbn [negb] in H.
  2:{ injection H as <- <-. left. eauto. }
  apply bind_inv in H. destruct H as [(err & E & ->)|([rKey rangeVal] & w1 & E & H)].
  { left. split; auto. split; [eauto|].
    destruct (opt_str_truthy (i_rangeKey ix)).
    - apply bind_inv in E. destruct E as [(err' & E & _)|([rk rv] & w2 & E & E')].
      + unfold lift in E. now injection E as _ <-.
      + unfold lift in E. injection E as _ <-.
        destruct (truthy rv); cbn [negb] in E'; now injection E' as _ <-.
    - discriminate. }
  assert (Hr : w1 = w /\
               (if opt_str_truthy (i_rangeKey ix)
                then index_component schema (_data e) (name_of (i_rangeKey ix))
                       = Return (rKey, rangeVal) /\ truthy rangeVal = true
                else rKey = None /\ rangeVal = VNull)).
  { destruct (opt_str_truthy (i_rangeKey ix)).
    - apply bind_inv in E. destruct E as [(err' & E & Hx)|([rk rv] & w2 & E & E')].
      + discriminate.
      + unfold lift in E. injection E as Er <-.
        destruct (truthy rv) eqn:Erv; cbn [negb] in E'.
        * injection E' as <- <- <-. auto.
        * discriminate.
    - injection E as <- <- <-. auto. }
  destruct Hr as [-> Hr].
  apply bind_inv in H. unfold call in H.
  destruct (c_query client (unique_query schema e k hKey hashVal rKey rangeVal) (w_store w))
    as [ro s'] eqn:Eq.
  right. split; auto.
  exists (unique_query schema e k hKey hashVal rKey rangeVal), ro, s'.
  split; [exists hKey, hashVal, rKey, rangeVal; auto|].
  split; [exact Eq|].
  clear E.
  destruct H as [(err & E & ->)|(out & w2 & E & H)].
  - injection E as -> <-. auto.
  - injection E as -> <-. unfold unique_verdict.
    destruct (Z.eqb (Count out) 0); cbn [negb] in H; injection H as <- <-; auto.
Qed.

Lemma check_unique_indexes_spec (schema : Schema) (e : Entity)
  (ixs : list (string * IndexDesc)) :
  forall (w : World St) (r : outcome unit) (w' : World St),
  check_unique_indexes client schema e ixs w = (r, w') ->
  exists evs,
    w_trace w' = (w_trace w ++ evs)%list /\
    Forall is_query evs /\
    (forall p out, In (EvQuery p (Return out)) evs -> Count out <> 0%Z ->
       r = Throw (DynormError (unique_message (name_of (q_IndexName p))))) /\
    (r = Return tt ->
     forall k ix, In (k, ix) ixs -> i_unique ix = true ->
       exists p out, In (EvQuery p (Return out)) evs /\ Count out = 0%Z /\
                     asks schema e k ix p).
Proof.
  induction ixs as [|[k ix] t IH]; intros w r w' H.
  - injection H as <- <-. exists []. rewrite app_nil_r.
    repeat split; auto; try constructor; simpl; intros; contradiction.
  - cbn [check_unique_indexes] in H.
    apply bind_inv in H. destruct H as [(err & E & ->)|([] & w1 & E & H)].
    + apply check_unique_index_spec in E.
      destruct E as [(_ & Hx & _)|[(_ & _ & ->)|(Hu & p & ro & s' & Ha & Eq & -> & Hr)]].
      * discriminate.
      * exists []. rewrite app_nil_r.
        repeat split; auto; try constructor; simpl; intros; try contradiction.
        discriminate.
      * exists [EvQuery p ro]. cbn [w_trace]. split; [reflexivity|].
        split; [repeat constructor|]. split.
        -- intros p0 out [Hin|[]] Hc. injection Hin as -> ->.
           unfold unique_verdict in Hr.
           destruct (Z.eqb (Count out) 0) eqn:Ez.
           ++ discriminate.
           ++ rewrite Hr. destruct Ha as (hK & hV & rK & rV & _ & _ & _ & ->).
              now rewrite (proj1 (unique_query_index schema e k hK hV rK rV)).
        -- discriminate.
    + apply check_unique_index_spec in E.
      destruct (IH w1 r w' H) as (evs & T & F & HA & HB).
      destruct E as [(Hu & _ & ->)|[(_ & (err & Hx) & _)|(Hu & p & ro & s' & Ha & Eq & -> & Hr)]].
      * exists evs. repeat split; auto.
        intros Hret k0 ix0 [Hin|Hin] Hu0.
        -- injection Hin as <- <-. congruence.
        -- eauto.
      * discriminate.
      * exists (EvQuery p ro :: evs). cbn [w_trace] in T.
        split; [rewrite T; now rewrite <- app_assoc|].
        split; [constructor; [exact I|exact F]|].
        unfold unique_verdict in Hr.
        destruct ro as [out|err]; [|discriminate].
        destruct (Z.eqb (Count out) 0) eqn:Ez; [|discriminate].
        apply Z.eqb_eq in Ez.
        split.
        -- intros p0 out0 [Hin|Hin] Hc.
           ++ injection Hin as -> ->. contradiction.
           ++ eauto.
        -- intros Hret k0 ix0 [Hin|Hin] Hu0.
           ++ injection Hin as <- <-. exists p, out. split; [now left|auto].
           ++ destruct (HB Hret k0 ix0 Hin Hu0) as (p0 & out0 & Hin0 & Hc0 & Ha0).
              exists p0, out0. split; [now right|auto].
Qed.

Ltac emits_step :=
  first
    [ apply emits_ret | apply emits_throw | apply emits_lift
    | apply emits_Date_now
    | apply emits_bind; [|intros]
    | match goal with
      | |- emits _ (match ?x with _ => _ end) => destruct x
      | |- emits _ (let (_, _) := ?x in _) => destruct x
      end ].

Lemma init_defaults_emits (P : event -> Prop) (ps : list (string * PropertyDesc)) :
  forall data, emits P (init_defaults Date_parse clock (St:=St) ps data).
Proof.
  induction ps as [|[k prop] t IH]; intros data; cbn [init_defaults].
  - apply emits_ret.
  - apply emits_bind; [|intros; apply IH].
    unfold init_default. repeat emits_step.
Qed.

Lemma get_emits (schema : Schema) (key : value) :
  emits is_get (get Date_parse clock client schema key).
Proof.
  unfold get. apply emits_bind; [apply emits_lift|intros k].
  apply emits_bind; [apply emits_call; intros; exact I|intros out].
  destruct (Item out); [|apply emits_ret].
  apply emits_bind; [apply emits_lift|intros parsed].
  apply emits_bind; [|intros; apply emits_ret].
  unfold NewModel_constructor.
  apply emits_bind; [apply init_defaults_emits|intros; apply emits_ret].
Qed.

Lemma resolve_relation_emits (orm : Registry) (data : obj) (kp : string * PropertyDesc) :
  emits is_get (resolve_relation Date_parse clock client orm data kp).
Proof.
  unfold resolve_relation. destruct kp as [propName prop].
  destruct (negb (truthy (obj_get data propName))); [apply emits_ret|].
  destruct (negb (has_ref prop)); [apply emits_ret|].
  destruct (obj_get data propName); try apply emits_ret;
    (destruct (assoc (name_of (p_ref prop)) orm); [|apply emits_throw];
     apply emits_bind; [apply get_emits|intros r];
     destruct (negb (truthy r)); [apply emits_throw|apply emits_ret]).
Qed.

Lemma resolve_relations_emits (orm : Registry) (ps : list (string * PropertyDesc)) :
  forall data, emits is_get (resolve_relations Date_parse clock client orm ps data).
Proof.
  induction ps as [|kp t IH]; intros data; cbn [resolve_relations].
  - apply emits_ret.
  - apply emits_bind; [apply resolve_relation_emits|intros; apply IH].
Qed.

(** Relation resolution only writes under relation properties. *)
Lemma resolve_relation_frame (orm : Registry) (data : obj) (k : string)
  (prop : PropertyDesc) (w : World St) (data' : obj) (w' : World St) (a : string) :
  resolve_relation Date_parse clock client orm data (k, prop) w = (Return data', w') ->
  (a = k -> has_ref prop = false) ->
  obj_get data' a = obj_get data a.
Proof.
  unfold resolve_relation.
  destruct (negb (truthy (obj_get data k))); [now intros [= <- _]|].
  destruct (has_ref prop) eqn:Eref; cbn [negb]; [|now intros [= <- _]].
  intros H Ha.
  assert (Hne : a <> k) by (intros ->; specialize (Ha eq_refl); discriminate).
  destruct (obj_get data k); try (now injection H as <- _);
    (destruct (assoc (name_of (p_ref prop)) orm); [|discriminate];
     apply bind_inv in H; destruct H as [(err & _ & Hx)|(r & w1 & _ & H)];
     [discriminate|];
     destruct (negb (truthy r)); [discriminate|];
     injection H as <- _; now apply obj_get_set_other).
Qed.

Lemma resolve_relations_frame (orm : Registry) (ps : list (string * PropertyDesc)) (a : string) :
  (forall prop, In (a, prop) ps -> has_ref prop = false) ->
  forall data w data' w',
  resolve_relations Date_parse clock client orm ps data w = (Return data', w') ->
  obj_get data' a = obj_get data a.
Proof.
  induction ps as [|[k prop] t IH]; intros Ha data w data' w' H.
  - now injection H as <- _.
  - cbn [resolve_relations] in H. apply bind_inv in H.
    destruct H as [(err & _ & Hx)|(data1 & w1 & E & H)]; [discriminate|].
    rewrite (IH (fun prop0 Hin => Ha prop0 (or_intror Hin)) data1 w1 data' w' H).
    apply (resolve_relation_frame orm data k prop w data1 w1 a E).
    intros ->. apply Ha. now left.
Qed.

Lemma check_valid_emits (P : event -> Prop) (schema : Schema) (data : obj) :
  emits P (check_valid (St:=St) schema data).
Proof. unfold check_valid. repeat emits_step. Qed.

Lemma set_timestamps_emits (P : event -> Prop) (schema : Schema) (e : Entity) :
  emits P (set_timestamps clock (St:=St) schema e).
Proof. unfold set_timestamps. repeat emits_step. Qed.

Lemma apply_version_emits (P : event -> Prop) (schema : Schema) (e : Entity)
  (params : PutParams) :
  emits P (apply_version ToNumber_string clock (St:=St) schema e params).
Proof. unfold apply_version. repeat emits_step. Qed.

Lemma Forall_not_in (P : event -> Prop) (evs : list event) (ev : event) :
  Forall P evs -> ~ P ev -> ~ In ev evs.
Proof. intros F HP Hin. rewrite Forall_forall in F. auto. Qed.

(** The stages of a run of [save]: the events of relation resolution, of
    the unique-index loop and of the final write, with the entity as the
    loop saw it and the result of the loop. *)
Lemma save_stages (orm : Registry) (schema : Schema) (e : Entity)
  (w : World St) (r : outcome Entity) (w' : World St) :
  save Date_parse ToNumber_string clock client orm schema e w = (r, w') ->
  exists evs1 evs2 evs3,
    w_trace w' = (w_trace w ++ evs1 ++ evs2 ++ evs3)%list /\
    Forall is_get evs1 /\ Forall is_query evs2 /\
    Forall (is_guarded_put schema (_isNew e)) evs3 /\
    ((exists err, r = Throw err /\ evs2 = []) \/
     exists data1 w1 rl w2,
       resolve_relations Date_parse clock client orm (properties schema) (_data e) w
         = (Return data1, w1) /\
       check_unique_indexes client schema (mkEntity (_isNew e) data1 (orig e))
         (indexes schema) w1 = (rl, w2) /\
       w_trace w2 = (w_trace w1 ++ evs2)%list /\
       (forall err, rl = Throw err -> r = Throw err) /\
       (forall e', r = Return e' -> rl = Return tt)).
Proof.
  unfold save. intros H.
  apply bind_inv in H. destruct H as [(err & E & ->)|(data1 & w1 & E1 & H)].
  { destruct (resolve_relations_emits orm (properties schema) (_data e) w _ w' E)
      as (evs1 & T1 & F1).
    exists evs1, [], []. rewrite !app_nil_r.
    split; [exact T1|]. split; [exact F1|].
    split; [constructor|]. split; [constructor|]. left. eauto. }
  destruct (resolve_relations_emits orm (properties schema) (_data e) w _ w1 E1)
    as (evs1 & T1 & F1).
  apply bind_inv in H. destruct H as [(err & E & ->)|([] & w1' & E2 & H)].
  { destruct (check_valid_emits no_event schema data1 w1 _ w' E) as (evs & T & F).
    destruct evs as [|ev evs]; [|inversion F as [|? ? Hx]; destruct Hx].
    exists evs1, [], []. rewrite !app_nil_r. rewrite app_nil_r in T.
    split; [congruence|]. split; [exact F1|].
    split; [constructor|]. split; [constructor|]. left. eauto. }
  assert (w1' = w1) as ->.
  { unfold check_valid in E2. destruct (s_validate schema data1); [discriminate|].
    now injection E2. }
  apply bind_inv in H. destruct H as [(err & E & ->)|([] & w2 & E3 & H)].
  { destruct (check_unique_indexes_spec schema _ (indexes schema) w1 _ w' E)
      as (evs2 & T2 & F2 & _ & _).
    exists evs1, evs2, []. rewrite !app_nil_r.
    split; [rewrite T2, T1; now rewrite app_assoc|].
    split; [exact F1|]. split; [exact F2|]. split; [constructor|].
    right. exists data1, w1, (Throw err), w'.
    split; [exact E1|]. split; [exact E|]. split; [exact T2|].
    split; [congruence|discriminate]. }
  destruct (check_unique_indexes_spec schema _ (indexes schema) w1 _ w2 E3)
    as (evs2 & T2 & F2 & _ & _).
  assert (Hrest : exists evs3, w_trace w' = (w_trace w2 ++ evs3)%list /\
                               Forall (is_guarded_put schema (_isNew e)) evs3).
  { revert H. generalize w2 r w'. change (emits (is_guarded_put schema (_isNew e))
      (bind (set_timestamps clock schema (mkEntity (_isNew e) data1 (orig e)))
         (fun data2 =>
            bind (lift (toDynamo schema data2))
              (fun item =>
                 bind (apply_version ToNumber_string clock schema
                         (mkEntity (_isNew e) data2 (orig e))
                         (mkPut (tableName schema) item None None None))
                   (fun params =>
                      bind (call (c_put client) EvPut
                              (guard_new schema (mkEntity (_isNew e) data2 (orig e)) params))
                        (fun _ => ret (mkEntity (_isNew e) data2 (orig e)))))))).
    apply emits_bind; [apply set_timestamps_emits|intros data2].
    apply emits_bind; [apply emits_lift|intros item].
    apply emits_bind; [apply apply_version_emits|intros params].
    apply emits_bind; [apply emits_call|intros; apply emits_ret].
    intros ro. exists (mkEntity (_isNew e) data2 (orig e)), params, ro. auto. }
  destruct Hrest as (evs3 & T3 & F3).
  exists evs1, evs2, evs3.
  split; [rewrite T3, T2, T1; now rewrite !app_assoc|].
  split; [exact F1|]. split; [exact F2|]. split; [exact F3|].
  right. exists data1, w1, (Return tt), w2.
  split; [exact E1|]. split; [exact E3|]. split; [exact T2|].
  split; [discriminate|reflexivity].
Qed.


Lemma append_nonempty (a b : string) (c : ascii) :
  str_truthy (a ++ String c b) = true.
Proof. unfold str_truthy. destruct a; reflexivity. Qed.

Lemma guard_new_range (schema : Schema) (e : Entity) (params : PutParams) (rk : string) :
  _isNew e = true -> rangeKey (s_key schema) = Some rk -> rk <> "" ->
  put_ConditionExpression (guard_new schema e params)
  = Some (" AND attribute_not_exists(#" ++ rk ++ ")").
Proof.
  intros Hn Hr Hrk. unfold guard_new. rewrite Hn, Hr.
  assert (Ht : opt_str_truthy (Some rk) = true).
  { unfold opt_str_truthy, str_truthy. apply negb_true_iff.
    now apply String.eqb_neq. }
  rewrite Ht. cbn [put_ConditionExpression name_of].
  unfold restart_condition at 1. cbn [opt_str_truthy].
  change ("attribute_not_exists(#" ++ name_of (hashKey (s_key schema)) ++ ")")
    with (String "a" ("ttribute_not_exists(#" ++ name_of (hashKey (s_key schema)) ++ ")")).
  rewrite append_nonempty. reflexivity.
Qed.

(** C2.  For a schema with a range key, the put of a new entity does not
    carry the condition on the hash key: line 466 assigns where it should
    append, so the condition expression of every put that [save] issues is
    the separator followed by the clause of the range key alone. *)
Theorem save_new_guard_range_key (orm : Registry) (schema : Schema) (e : Entity)
  (rk : string) (w : World St) (r : outcome Entity) (w' : World St) :
  _isNew e = true -> rangeKey (s_key schema) = Some rk -> rk <> "" ->
  save Date_parse ToNumber_string clock client orm schema e w = (r, w') ->
  forall p ro, In (EvPut p ro) (new_events w w') ->
    put_ConditionExpression p = Some (" AND attribute_not_exists(#" ++ rk ++ ")").
Proof.
  intros Hn Hr Hrk H p ro Hin.
  destruct (save_stages orm schema e w r w' H)
    as (evs1 & evs2 & evs3 & T & F1 & F2 & F3 & _).
  rewrite (new_events_app St w w' _ T) in Hin.
  apply in_app_or in Hin. destruct Hin as [Hin|Hin].
  { exfalso. revert Hin. apply (Forall_not_in is_get); auto. }
  apply in_app_or in Hin. destruct Hin as [Hin|Hin].
  { exfalso. revert Hin. apply (Forall_not_in is_query); auto. }
  rewrite Forall_forall in F3.
  destruct (F3 _ Hin) as (e2 & params & ro' & Hev & Hnew).
  injection Hev as -> _.
  apply guard_new_range; auto. congruence.
Qed.

End Save.


Lemma save_new_guard_range_key_witness :
  let run := save Examples.no_parse Examples.nan_of_string Examples.clock0
               MemStore.client [] Examples.order_schema Examples.order1
               (Examples.world Examples.empty_orders) in
  fst run = Throw (StoreError "ValidationException") /\
  (exists p ro, new_events (Examples.world Examples.empty_orders) (snd run)
                = [EvPut p ro]) /\
  (forall p ro,
     In (EvPut p ro) (new_events (Examples.world Examples.empty_orders) (snd run)) ->
     put_ConditionExpression p = Some " AND attribute_not_exists(#sk)").
Proof.
  cbv zeta. split; [reflexivity|]. split; [eexists; eexists; reflexivity|].
  refine (save_new_guard_range_key Examples.no_parse Examples.nan_of_string
            Examples.clock0 MemStore.Store MemStore.client [] Examples.order_schema
            Examples.order1 "sk" (Examples.world Examples.empty_orders) _ _ _ _ _ _).
  - reflexivity.
  - reflexivity.
  - discriminate.
  - apply surjective_pairing.
Defined.

(* ================================================================= *)
(** ** Pagination *)

Lemma map_all_length (f : value -> outcome value) (l r : list value) :
  map_all f l = Return r -> length r = length l.
Proof.
  revert r. induction l as [|x t IH]; simpl; intros r H.
  - now injection H as <-.
  - destruct (f x) as [y|]; [|discriminate]. simpl in H.
    destruct (map_all f t) as [r'|]; [|discriminate]. simpl in H.
    injection H as <-. simpl. now rewrite (IH r').
Qed.

Lemma page_items_length (opts : FindOpts) (data : QueryOutput) (items : list value) :
  page_items opts data = Return items ->
  length items = length (page_kept opts data).
Proof.
  unfold page_items, page_kept. destruct (o_map opts) as [f|].
  - apply map_all_length.
  - now intros [= <-].
Qed.

Lemma next_limit_length (limit : option Z) (a b : list value) :
  length a = length b -> next_limit limit a = next_limit limit b.
Proof. intros H. unfold next_limit. now rewrite H. Qed.

Lemma check_opts_last_key (opts : FindOpts) (acc acc0 : Acc) :
  check_opts opts acc = Return acc0 ->
  a_LastEvaluatedKey acc0 = a_LastEvaluatedKey acc.
Proof.
  unfold check_opts.
  destruct (o_map opts); destruct (o_reduce opts); try discriminate;
    try (now intros [= <-]);
    destruct (negb (truthy (o_initialValue opts))); try discriminate;
    destruct (negb (truthy (a_Accumulator acc))); now intros [= <-].
Qed.

Lemma absorb_last_key (opts : FindOpts) (acc : Acc) (data : QueryOutput)
  (items : list value) :
  a_LastEvaluatedKey (absorb opts acc data items) = a_LastEvaluatedKey acc.
Proof. unfold absorb. destruct (o_reduce opts); reflexivity. Qed.

Lemma paginates_limit (opts : FindOpts) (limit : option Z) (pages : list QueryOutput)
  (limit' : option Z) (token : option obj) :
  paginates opts limit pages limit' token ->
  (forall l, limit = Some l -> l <> 0%Z ->
             limit' = Some (l - kept_total opts pages)%Z) /\
  (limit = None -> limit' = None).
Proof.
  induction 1 as [limit d Hk|limit d lek Hk Hc|limit d lek ds limit' token Hk Ho Hp IH].
  - split.
    + intros l -> Hl. unfold next_limit, kept_total. simpl.
      destruct (Z.eqb l 0) eqn:E; [apply Z.eqb_eq in E; contradiction|].
      f_equal. lia.
    + now intros ->.
  - split.
    + intros l -> Hl. unfold next_limit, kept_total. simpl.
      destruct (Z.eqb l 0) eqn:E; [apply Z.eqb_eq in E; contradiction|].
      f_equal. lia.
    + now intros ->.
  - destruct IH as [IH1 IH2]. split.
    + intros l -> Hl. unfold next_limit in *.
      destruct (Z.eqb l 0) eqn:E; [apply Z.eqb_eq in E; contradiction|].
      simpl in Ho. apply Z.ltb_lt in Ho.
      rewrite (IH1 _ eq_refl) by lia.
      f_equal. unfold kept_total. simpl. lia.
    + intros ->. now apply IH2.
Qed.

Section Pagination.

Variable St : Type.
Variable client : Client St.

Lemma fetch_spec (params : QueryParams) (w : World St) (r : outcome QueryOutput)
  (w' : World St) :
  fetch client params w = (r, w') ->
  exists ev, w_trace w' = (w_trace w ++ [ev])%list /\
             pages_of [ev] = match r with Return data => [data] | Throw _ => [] end.
Proof.
  unfold fetch, call.
  destruct (opt_str_truthy (q_KeyConditionExpression params)).
  - destruct (c_query client params (w_store w)) as [r0 s']. intros [= <- <-].
    eexists. split; [reflexivity|]. destruct r0; reflexivity.
  - destruct (c_scan client params (w_store w)) as [r0 s']. intros [= <- <-].
    eexists. split; [reflexivity|]. destruct r0; reflexivity.
Qed.

Lemma pages_of_app (a b : list event) :
  pages_of (a ++ b) = (pages_of a ++ pages_of b)%list.
Proof. unfold pages_of. apply flat_map_app. Qed.

Lemma find_run (fuel : nat) (opts : FindOpts) :
  forall params acc w acc' params' w',
  find client fuel params opts acc w = (Return (Some (acc', params')), w') ->
  exists evs token,
    w_trace w' = (w_trace w ++ evs)%list /\
    paginates opts (q_Limit params) (pages_of evs) (q_Limit params') token /\
    a_LastEvaluatedKey acc' = match token with
                              | Some k => Some k
                              | None => a_LastEvaluatedKey acc
                              end.
Proof.
  induction fuel as [|fuel IH]; intros params acc w acc' params' w' H.
  - discriminate.
  - cbn [find] in H.
    apply bind_inv in H. destruct H as [(? & _ & Hx)|(acc0 & w0 & E0 & H)]; [discriminate|].
    unfold lift in E0. injection E0 as E0 <-.
    apply bind_inv in H. destruct H as [(? & _ & Hx)|(data & w1 & E1 & H)]; [discriminate|].
    destruct (fetch_spec params w _ w1 E1) as (ev & T1 & P1).
    apply bind_inv in H. destruct H as [(? & _ & Hx)|(items & w2 & E2 & H)]; [discriminate|].
    unfold lift in E2. injection E2 as E2 <-.
    pose proof (page_items_length opts data items E2) as Hlen.
    pose proof (next_limit_length (q_Limit params) items (page_kept opts data) Hlen) as Hnl.
    pose proof (check_opts_last_key opts acc acc0 E0) as Hk0.
    destruct (LastEvaluatedKey data) as [lek|] eqn:Elek.
    + cbn [set_limit q_Limit] in H.
      destruct (limit_open (next_limit (q_Limit params) items)) eqn:Eopen.
      * destruct (IH _ _ _ _ _ _ H) as (evs & token & T & Hp & Hk).
        exists (ev :: evs), token. split.
        { rewrite T, T1. now rewrite <- app_assoc. }
        split.
        { change (ev :: evs) with ([ev] ++ evs)%list. rewrite pages_of_app, P1.
          cbn [app]. cbn [set_start set_limit q_Limit] in Hp.
          rewrite Hnl in Hp, Eopen. eapply pg_continue; eauto. }
        rewrite Hk. destruct token; auto.
        rewrite absorb_last_key. exact Hk0.
      * injection H as <- <- <-.
        exists [ev], (Some lek). split; [exact T1|]. split.
        { rewrite P1. cbn [set_limit q_Limit]. rewrite Hnl in *.
          now apply pg_limit_reached. }
        reflexivity.
    + injection H as <- <- <-.
      exists [ev], None. split; [exact T1|]. split.
      { rewrite P1. cbn [set_limit q_Limit]. rewrite Hnl.
        now apply pg_exhausted. }
      rewrite absorb_last_key. exact Hk0.
Qed.

(** A page that ends the iteration does so at once, whatever fuel is
    left. *)
Lemma find_stops (fuel : nat) (params : QueryParams) (opts : FindOpts) (acc acc0 : Acc)
  (w w1 : World St) (data : QueryOutput) (items : list value) :
  check_opts opts acc = Return acc0 ->
  fetch client params w = (Return data, w1) ->
  page_items opts data = Return items ->
  LastEvaluatedKey data = None \/
  limit_open (next_limit (q_Limit params) (page_kept opts data)) = false ->
  exists acc' params',
    find client (S fuel) params opts acc w = (Return (Some (acc', params')), w1).
Proof.
  intros E0 E1 E2 Hstop. cbn [find]. unfold bind, lift. rewrite E0, E1, E2.
  rewrite (next_limit_length (q_Limit params) items (page_kept opts data)
             (page_items_length opts data items E2)).
  destruct (LastEvaluatedKey data) as [lek|].
  - destruct Hstop as [Hx|Hc]; [discriminate|].
    cbn [set_limit q_Limit]. rewrite Hc. unfold ret. eauto.
  - unfold ret. eauto.
Qed.

Lemma find_run_facts (fuel : nat) (params : QueryParams) (opts : FindOpts)
  (acc : Acc) (w : World St) (acc' : Acc) (params' : QueryParams) (w' : World St) :
  find client fuel params opts acc w = (Return (Some (acc', params')), w') ->
  let pages := pages_of (new_events w w') in
  (exists token,
     paginates opts (q_Limit params) pages (q_Limit params') token /\
     a_LastEvaluatedKey acc' = match token with
                               | Some k => Some k
                               | None => a_LastEvaluatedKey acc
                               end) /\
  (forall l, q_Limit params = Some l -> l <> 0%Z ->
             q_Limit params' = Some (l - kept_total opts pages)%Z) /\
  (q_Limit params = None -> q_Limit params' = None) /\
  (o_filter opts = None ->
   kept_total opts pages
   = fold_right (fun d n => (Z.of_nat (length (page_fetched d)) + n)%Z) 0%Z pages).
Proof.
  intros H pages.
  destruct (find_run fuel opts params acc w acc' params' w' H)
    as (evs & token & T & Hp & Hk).
  assert (Hpages : pages = pages_of evs).
  { unfold pages. now rewrite (new_events_app St w w' evs T). }
  rewrite Hpages.
  split; [exists token; auto|].
  destruct (paginates_limit opts _ _ _ _ Hp) as [H1 H2].
  split; [exact H1|]. split; [exact H2|].
  intros Hf. unfold kept_total, page_kept, page_fetched. now rewrite Hf.
Qed.

(** C5, as the code has it.  In a run of [find] that returns, the pages
    fetched, the limit and the token obey [paginates]: every page takes
    from a nonzero [Limit] the number of its items that remain after
    [opts.filter] (the number fetched when there is no filter); another
    page follows exactly when the page carries a continuation token and
    the limit left is absent or positive; otherwise the run ends, and a
    token carried by the last page is retained as [LastEvaluatedKey] of the
    accumulator.  In all, a nonzero [Limit] ends as the initial one less
    the items kept, and an absent one stays absent.  And a page that
    carries no token, or leaves a limit that is not positive, makes [find]
    return at once. *)
Theorem find_pagination (params : QueryParams) (opts : FindOpts) (acc : Acc)
  (w : World St) :
  (forall fuel acc' params' w',
     find client fuel params opts acc w = (Return (Some (acc', params')), w') ->
     let pages := pages_of (new_events w w') in
     (exists token,
        paginates opts (q_Limit params) pages (q_Limit params') token /\
        a_LastEvaluatedKey acc' = match token with
                                  | Some k => Some k
                                  | None => a_LastEvaluatedKey acc
                                  end) /\
     (forall l, q_Limit params = Some l -> l <> 0%Z ->
                q_Limit params' = Some (l - kept_total opts pages)%Z) /\
     (q_Limit params = None -> q_Limit params' = None) /\
     (o_filter opts = None ->
      kept_total opts pages
      = fold_right (fun d n => (Z.of_nat (length (page_fetched d)) + n)%Z) 0%Z pages)) /\
  (forall fuel acc0 data w1 items,
     check_opts opts acc = Return acc0 ->
     fetch client params w = (Return data, w1) ->
     page_items opts data = Return items ->
     LastEvaluatedKey data = None \/
     limit_open (next_limit (q_Limit params) (page_kept opts data)) = false ->
     exists acc' params',
       find client (S fuel) params opts acc w = (Return (Some (acc', params')), w1)).
Proof.
  split.
  - intros fuel acc' params' w' H. exact (find_run_facts fuel params opts acc w _ _ _ H).
  - intros fuel acc0 data w1 items E0 E1 E2 Hstop.
    exact (find_stops fuel params opts acc acc0 w w1 data items E0 E1 E2 Hstop).
Qed.

End Pagination.

Lemma find_pagination_witness :
  exists acc' params' w',
    find Examples.paged_client 5 (Examples.with_limit 5) Examples.only_even
      empty_acc (Examples.world [Examples.page1; Examples.page2])
    = (Return (Some (acc', params')), w') /\
    a_Items acc' = [Examples.item 2; Examples.item 4] /\
    pages_of (new_events (Examples.world [Examples.page1; Examples.page2]) w')
    = [Examples.page1; Examples.page2] /\
    q_Limit params'
    = Some (5 - kept_total Examples.only_even
                  (pages_of (new_events
                               (Examples.world [Examples.page1; Examples.page2]) w')))%Z.
Proof.
  destruct (find Examples.paged_client 5 (Examples.with_limit 5) Examples.only_even
              empty_acc (Examples.world [Examples.page1; Examples.page2]))
    as [[[[acc' params']|]|err] w'] eqn:E;
    try (vm_compute in E; discriminate).
  exists acc', params', w'. split; [reflexivity|].
  pose proof (proj1 (find_pagination (list QueryOutput) Examples.paged_client
                       (Examples.with_limit 5) Examples.only_even empty_acc
                       (Examples.world [Examples.page1; Examples.page2]))
                5%nat acc' params' w' E) as H.
  cbv zeta in H. destruct H as (_ & Hlimit & _).
  specialize (Hlimit 5%Z eq_refl).
  assert (Hne : 5%Z <> 0%Z) by discriminate.
  specialize (Hlimit Hne).
  vm_compute in E. injection E as <- <- <-.
  split; [reflexivity|]. split; [reflexivity|]. exact Hlimit.
Defined.

(** The claim as stated fails under a filter: one page of three items,
    of which the filter keeps one, takes one from the limit, not three. *)
Lemma find_filter_limit_counterexample :
  exists acc' params' w',
    find Examples.paged_client 1 (Examples.with_limit 5) Examples.only_even
      empty_acc (Examples.world [Examples.single_page])
    = (Return (Some (acc', params')), w') /\
    length (page_fetched Examples.single_page) = 3%nat /\
    q_Limit params' = Some 4%Z /\
    q_Limit params' <> Some (5 - 3)%Z.
Proof.
  eexists; eexists; eexists. split; [reflexivity|].
  split; [reflexivity|]. split; [reflexivity|]. discriminate.
Defined.

(* ================================================================= *)
(** ** The round trip of records *)

Lemma obj_get_truthy (r : obj) (a : string) :
  truthy (obj_get r a) = true -> assoc a r = Some (obj_get r a).
Proof. unfold obj_get. destruct (assoc a r); [reflexivity|discriminate]. Qed.

Lemma obj_get_defined (r : obj) (a : string) :
  is_undefined (obj_get r a) = false -> assoc a r = Some (obj_get r a).
Proof. unfold obj_get. destruct (assoc a r); [reflexivity|discriminate]. Qed.

Lemma obj_get_assoc (r : obj) (a : string) (v : value) :
  assoc a r = Some v -> obj_get r a = v.
Proof. unfold obj_get. now intros ->. Qed.

Section RoundTrip.

Variable Date_parse : string -> option Z.

Lemma parseDynamo_prop_spec (r model : obj) (k : string) (prop : PropertyDesc) :
  (has_ref prop = true ->
   assoc k r = None /\ exists a fk, p_join prop = Some [(a, fk)]) ->
  obj_get model k = VUndef ->
  exists model',
    parseDynamo_prop Date_parse r model (k, prop) = Return model' /\
    (forall k', k' <> k -> assoc k' model' = assoc k' model) /\
    obj_get model' k = parsed_attr Date_parse r k prop.
Proof.
  intros Hrel Hk. unfold parseDynamo_prop, parsed_attr.
  destruct (has_ref prop) eqn:Eref.
  - destruct (Hrel eq_refl) as (Hnone & a & fk & Hj).
    rewrite Hj. unfold obj_get at 1. rewrite Hnone. cbn [truthy join_first name_of].
    destruct (truthy (obj_get r a)) eqn:Et; cbn [negb].
    + eexists. split; [reflexivity|]. split.
      * intros k' Hne. now apply assoc_set_other.
      * rewrite obj_get_set_same. unfold join_target. cbn [name_of assoc].
        now rewrite String.eqb_refl.
    + eexists. split; [reflexivity|]. auto.
  - destruct (is_undefined (obj_get r k)) eqn:Eu.
    + eexists. split; [reflexivity|]. auto.
    + destruct (is_date_format prop).
      * eexists. split; [reflexivity|]. split.
        -- intros k' Hne. now apply assoc_set_other.
        -- apply obj_get_set_same.
      * eexists. split; [reflexivity|]. split.
        -- intros k' Hne. now apply assoc_set_other.
        -- apply obj_get_set_same.
Qed.

Lemma parseDynamo_prop_frame (r model model' : obj) (k k1 : string)
  (p1 : PropertyDesc) :
  parseDynamo_prop Date_parse r model (k1, p1) = Return model' ->
  k <> k1 -> obj_get model' k = obj_get model k.
Proof.
  intros E Hne. unfold parseDynamo_prop in E.
  destruct (has_ref p1).
  - destruct (truthy (obj_get r k1)).
    + injection E as <-. now apply obj_get_set_other.
    + destruct (p_join p1) as [j|]; [|discriminate].
      destruct (negb (truthy (obj_get r (name_of (join_first j))))).
      * now injection E as <-.
      * injection E as <-. now apply obj_get_set_other.
  - destruct (is_undefined (obj_get r k1)).
    + now injection E as <-.
    + destruct (is_date_format p1); injection E as <-; now apply obj_get_set_other.
Qed.

Lemma parseDynamo_loop_frame (r : obj) (ps : list (string * PropertyDesc)) (k : string) :
  ~ In k (keys ps) ->
  forall model model',
  parseDynamo_loop Date_parse r ps model = Return model' ->
  obj_get model' k = obj_get model k.
Proof.
  induction ps as [|[k1 p1] t IH]; intros Hnotin model model' E.
  - now injection E as <-.
  - cbn [parseDynamo_loop] in E.
    destruct (parseDynamo_prop Date_parse r model (k1, p1)) as [m2|] eqn:E2;
      [|discriminate].
    cbn [obind] in E.
    rewrite (IH (fun H => Hnotin (or_intror H)) m2 model' E).
    apply (parseDynamo_prop_frame r model m2 k k1 p1 E2).
    intros ->. apply Hnotin. now left.
Qed.

Lemma parseDynamo_loop_spec (r : obj) (ps : list (string * PropertyDesc)) :
  NoDup (keys ps) ->
  (forall k prop, In (k, prop) ps -> has_ref prop = true ->
     assoc k r = None /\ exists a fk, p_join prop = Some [(a, fk)]) ->
  forall model,
  (forall k, In k (keys ps) -> obj_get model k = VUndef) ->
  exists model',
    parseDynamo_loop Date_parse r ps model = Return model' /\
    (forall k prop, In (k, prop) ps ->
       obj_get model' k = parsed_attr Date_parse r k prop).
Proof.
  induction ps as [|[k prop] t IH]; intros Hnd Hrel model Hfresh.
  - exists model. split; [reflexivity|]. intros k prop [].
  - inversion Hnd as [|? ? Hnotin Hnd']; subst.
    destruct (parseDynamo_prop_spec r model k prop) as (model1 & E1 & Hfr & Hk).
    { intros Href. apply (Hrel k prop); [now left|exact Href]. }
    { apply Hfresh. now left. }
    destruct (IH Hnd' (fun k0 p0 Hin => Hrel k0 p0 (or_intror Hin)) model1)
      as (model' & E & Hin).
    { intros k0 Hk0. unfold obj_get. rewrite Hfr.
      - apply Hfresh. now right.
      - intros ->. contradiction. }
    exists model'. cbn [parseDynamo_loop]. rewrite E1. cbn [obind].
    split; [exact E|].
    intros k0 p0 [Heq|Hin0].
    + injection Heq as <- <-. rewrite <- Hk.
      exact (parseDynamo_loop_frame r t k Hnotin model1 model' E).
    + now apply Hin.
Qed.

Lemma toDynamo_prop_spec (r model item0 : obj) (k : string) (prop : PropertyDesc) :
  obj_get model k = parsed_attr Date_parse r k prop ->
  (has_ref prop = true -> exists a fk, p_join prop = Some [(a, fk)]) ->
  (has_ref prop = false -> forall v, assoc k r = Some v -> supported_value prop v) ->
  (forall a v, assoc a item0 = Some v -> assoc a r = Some v) ->
  exists item1,
    toDynamo_prop model item0 (k, prop) = Return item1 /\
    (forall a v, assoc a item1 = Some v -> assoc a r = Some v) /\
    (forall a v, assoc a item0 = Some v -> assoc a item1 = Some v) /\
    (has_ref prop = false -> forall v, assoc k r = Some v -> assoc k item1 = Some v) /\
    (has_ref prop = true -> forall a fk v,
       p_join prop = Some [(a, fk)] -> assoc a r = Some v -> truthy v = true ->
       assoc a item1 = Some v).
Proof.
  intros Hm Hrel Hsc Hsub.
  assert (Hwrite : forall a x, assoc a r = Some x ->
            (forall a' v, assoc a' (obj_set item0 a x) = Some v -> assoc a' r = Some v) /\
            (forall a' v, assoc a' item0 = Some v -> assoc a' (obj_set item0 a x) = Some v)).
  { intros a x Hx. unfold obj_set. split; intros a' v H.
    - destruct (string_dec a' a) as [->|Hne].
      + rewrite assoc_set_same in H. congruence.
      + rewrite assoc_set_other in H by auto. auto.
    - destruct (string_dec a' a) as [->|Hne].
      + rewrite assoc_set_same. apply Hsub in H. congruence.
      + rewrite assoc_set_other by auto. auto. }
  unfold toDynamo_prop. rewrite Hm. unfold parsed_attr.
  destruct (has_ref prop) eqn:Eref.
  - destruct (Hrel eq_refl) as (a & fk & Hj). rewrite Hj.
    destruct (truthy (obj_get r a)) eqn:Et.
    + cbn [is_undefined toDynamo_join js_get obind]. unfold obj_get at 1.
      cbn [assoc]. rewrite String.eqb_refl.
      pose proof (obj_get_truthy r a Et) as Hx.
      destruct (Hwrite a _ Hx) as [H1 H2].
      eexists. split; [reflexivity|]. split; [exact H1|]. split; [exact H2|].
      split; [discriminate|].
      intros _ a0 fk0 v [= <- <-] Hv _. unfold obj_set. rewrite assoc_set_same.
      congruence.
    + cbn [is_undefined]. exists item0. split; [reflexivity|].
      split; [exact Hsub|]. split; [auto|]. split; [discriminate|].
      intros _ a0 fk0 v [= <- <-] Hv Htr.
      rewrite (obj_get_assoc r a v Hv) in Et. congruence.
  - destruct (is_undefined (obj_get r k)) eqn:Eu.
    + cbn [is_undefined]. exists item0. split; [reflexivity|].
      split; [exact Hsub|]. split; [auto|]. split; [|discriminate].
      intros _ v Hv. destruct (Hsc eq_refl v Hv) as [Hne _].
      rewrite (obj_get_assoc r k v Hv) in Eu. apply is_undefined_true in Eu. contradiction.
    + pose proof (obj_get_defined r k Eu) as Hx.
      destruct (Hsc eq_refl _ Hx) as [Hne Hshape].
      destruct (is_date_format prop).
      * destruct Hshape as (n & Hn & Hclip). rewrite Hn in *.
        cbn [new_Date]. rewrite Hclip. cbn [is_undefined Date_valueOf].
        destruct (Hwrite k _ Hx) as [H1 H2].
        eexists. split; [reflexivity|]. split; [exact H1|]. split; [exact H2|].
        split; [|discriminate].
        intros _ v Hv. unfold obj_set. rewrite assoc_set_same. congruence.
      * rewrite Eu.
        destruct (Hwrite k _ Hx) as [H1 H2].
        exists (obj_set item0 k (obj_get r k)).
        split.
        { destruct (obj_get r k) eqn:Ev; try reflexivity.
          exfalso. apply (Hshape t). reflexivity. }
        split; [exact H1|]. split; [exact H2|].
        split; [|discriminate].
        intros _ v Hv. unfold obj_set. rewrite assoc_set_same. congruence.
Qed.

Lemma toDynamo_loop_spec (r model : obj) (ps : list (string * PropertyDesc)) :
  (forall k prop, In (k, prop) ps ->
     obj_get model k = parsed_attr Date_parse r k prop) ->
  (forall k prop, In (k, prop) ps -> has_ref prop = true ->
     exists a fk, p_join prop = Some [(a, fk)]) ->
  (forall k prop v, In (k, prop) ps -> has_ref prop = false ->
     assoc k r = Some v -> supported_value prop v) ->
  forall item0,
  (forall a v, assoc a item0 = Some v -> assoc a r = Some v) ->
  exists item,
    toDynamo_loop model ps item0 = Return item /\
    (forall a v, assoc a item = Some v -> assoc a r = Some v) /\
    (forall a v, assoc a item0 = Some v -> assoc a item = Some v) /\
    (forall k prop v, In (k, prop) ps -> has_ref prop = false ->
       assoc k r = Some v -> assoc k item = Some v) /\
    (forall k prop a fk v, In (k, prop) ps -> has_ref prop = true ->
       p_join prop = Some [(a, fk)] -> assoc a r = Some v -> truthy v = true ->
       assoc a item = Some v).
Proof.
  induction ps as [|[k prop] t IH]; intros Hm Hrel Hsc item0 Hsub.
  - exists item0. split; [reflexivity|]. split; [exact Hsub|]. split; [auto|].
    split; intros; contradiction.
  - destruct (toDynamo_prop_spec r model item0 k prop) as (item1 & E1 & S1 & M1 & C1 & R1).
    { apply Hm. now left. }
    { intros H. apply (Hrel k prop); [now left|exact H]. }
    { intros H v Hv. apply (Hsc k prop v); [now left|exact H|exact Hv]. }
    { exact Hsub. }
    destruct (IH (fun k0 p0 Hin => Hm k0 p0 (or_intror Hin))
                 (fun k0 p0 Hin => Hrel k0 p0 (or_intror Hin))
                 (fun k0 p0 v Hin => Hsc k0 p0 v (or_intror Hin))
                 item1 S1) as (item & E & S & M & C & R).
    exists item. cbn [toDynamo_loop]. rewrite E1. cbn [obind].
    split; [exact E|]. split; [exact S|]. split; [auto|]. split.
    + intros k0 p0 v [Heq|Hin] Href Hv.
      * injection Heq as <- <-. apply M. now apply C1.
      * eapply C; eauto.
    + intros k0 p0 a fk v [Heq|Hin] Href Hj Hv Ht.
      * injection Heq as <- <-. apply M. eapply R1; eauto.
      * eapply R; eauto.
Qed.

(** C4, as the code has it.  For a supported record, [parseDynamo]
    followed by [toDynamo] succeeds and gives back a record with the same
    attributes and the same values; on the way, every property holds what
    [parsed_attr] says: a date under a date property, and under a relation
    the stub object made from its join key. *)
Theorem toDynamo_parseDynamo_roundtrip (schema : Schema) (r : obj) :
  supported_record schema r ->
  exists model item,
    parseDynamo Date_parse schema r = Return model /\
    toDynamo schema model = Return item /\
    (forall a, assoc a item = assoc a r) /\
    (forall k prop, In (k, prop) (properties schema) ->
       obj_get model k = parsed_attr Date_parse r k prop).
Proof.
  intros [Hnd Hrel Hsc Hcov].
  destruct (parseDynamo_loop_spec r (properties schema) Hnd Hrel [])
    as (model & Ep & Hm).
  { intros k _. reflexivity. }
  destruct (toDynamo_loop_spec r model (properties schema) Hm
              (fun k prop Hin Href => proj2 (Hrel k prop Hin Href)) Hsc [])
    as (item & Et & S & _ & C & R).
  { intros a v H. discriminate. }
  exists model, item. split; [exact Ep|]. split; [exact Et|]. split; [|exact Hm].
  intros a. destruct (assoc a r) as [v|] eqn:Ev.
  - destruct (Hcov a v Ev) as [(prop & Hin & Href)|(k & prop & fk & Hin & Href & Hj & Ht)].
    + eapply C; eauto.
    + eapply R; eauto.
  - destruct (assoc a item) as [v|] eqn:Ei; [|reflexivity].
    apply S in Ei. congruence.
Qed.

End RoundTrip.

Lemma post_record_supported : supported_record Examples.post_schema Examples.post_record.
Proof.
  constructor.
  - repeat constructor; simpl; intuition discriminate.
  - intros k prop Hin Href.
    destruct Hin as [Hin|[Hin|[Hin|[Hin|[]]]]]; injection Hin as <- <-;
      try (vm_compute in Href; discriminate).
    split; [reflexivity|]. eexists; eexists; reflexivity.
  - intros k prop v Hin Href Hv.
    destruct Hin as [Hin|[Hin|[Hin|[Hin|[]]]]]; injection Hin as <- <-;
      try (vm_compute in Href; discriminate);
      vm_compute in Hv; injection Hv as <-; (split; [discriminate|]).
    + intros t. discriminate.
    + intros t. discriminate.
    + exists 1700000000000%Z. split; reflexivity.
  - intros a v Hv. unfold Examples.post_record in Hv. cbn [assoc] in Hv.
    destruct (String.eqb a "id") eqn:E1.
    { apply String.eqb_eq in E1. subst. left. eexists. split; [simpl; eauto|reflexivity]. }
    destruct (String.eqb a "title") eqn:E2.
    { apply String.eqb_eq in E2. subst. left. eexists. split; [simpl; eauto|reflexivity]. }
    destruct (String.eqb a "at") eqn:E3.
    { apply String.eqb_eq in E3. subst. left. eexists. split; [simpl; eauto 6|reflexivity]. }
    destruct (String.eqb a "authorId") eqn:E4; [|discriminate].
    apply String.eqb_eq in E4. subst. injection Hv as <-. right.
    exists "author", (Examples.relation "User" [("authorId", "id")]), "id".
    split; [simpl; eauto 6|]. repeat split; reflexivity.
Defined.

Lemma toDynamo_parseDynamo_roundtrip_witness :
  exists model item,
    parseDynamo Examples.no_parse Examples.post_schema Examples.post_record
      = Return model /\
    toDynamo Examples.post_schema model = Return item /\
    (forall a, assoc a item = assoc a Examples.post_record) /\
    obj_get model "author" = VObj [("id", VStr "u1")] /\
    obj_get model "at" = VDate (Some 1700000000000%Z).
Proof.
  destruct (toDynamo_parseDynamo_roundtrip Examples.no_parse Examples.post_schema
              Examples.post_record post_record_supported)
    as (model & item & Ep & Et & Heq & Hm).
  exists model, item. split; [exact Ep|]. split; [exact Et|]. split; [exact Heq|].
  split.
  - rewrite (Hm "author" (Examples.relation "User" [("authorId", "id")])).
    + reflexivity.
    + simpl. auto 6.
  - rewrite (Hm "at" (Examples.plain "string" (Some "date-time"))).
    + reflexivity.
    + simpl. auto 6.
Defined.

(** The claim as stated fails on three supported shapes: a join key
    holding zero is dropped; a date held as an ISO string comes back as a
    number; of a join of two pairs only the first key comes back. *)
Lemma roundtrip_counterexample :
  (exists model item,
     parseDynamo Examples.no_parse Examples.post_schema
       [("id", VStr "p1"); ("authorId", VNum 0)] = Return model /\
     toDynamo Examples.post_schema model = Return item /\
     assoc "authorId" item = None /\
     assoc "authorId" [("id", VStr "p1"); ("authorId", VNum 0)] = Some (VNum 0)) /\
  (exists model item,
     parseDynamo Examples.iso_parse Examples.post_schema
       [("id", VStr "p1"); ("at", VStr "2020-01-01T00:00:00.000Z")] = Return model /\
     toDynamo Examples.post_schema model = Return item /\
     assoc "at" item = Some (VNum 1577836800000) /\
     assoc "at" [("id", VStr "p1"); ("at", VStr "2020-01-01T00:00:00.000Z")]
     = Some (VStr "2020-01-01T00:00:00.000Z")) /\
  (exists model item,
     parseDynamo Examples.no_parse Examples.pair_schema
       [("id", VStr "x"); ("ownerId", VStr "u1"); ("ownerOrg", VStr "acme")]
     = Return model /\
     toDynamo Examples.pair_schema model = Return item /\
     assoc "ownerOrg" item = Some VUndef /\
     assoc "ownerOrg"
       [("id", VStr "x"); ("ownerId", VStr "u1"); ("ownerOrg", VStr "acme")]
     = Some (VStr "acme")).
Proof.
  split; [|split]; eexists; eexists;
    (split; [reflexivity|]); (split; [reflexivity|]); split; reflexivity.
Defined.

(* ================================================================= *)
(** ** The bulk engine *)

Lemma ceil_lt (n x : nat) : (100 * x < n <-> x < (n + 99) / 100)%nat.
Proof.
  split; intros H.
  - apply (Nat.lt_le_trans _ (x + 1)); [lia|].
    apply Nat.div_le_lower_bound; lia.
  - destruct (Nat.lt_ge_cases (100 * x) n) as [Hlt|Hge]; [exact Hlt|].
    exfalso.
    assert (Hb : ((n + 99) / 100 < x + 1)%nat)
      by (apply Nat.Div0.div_lt_upper_bound; lia).
    lia.
Qed.


Lemma slices_from (m : nat) :
  forall ks : list (string * value),
  (length ks <= 100 * m)%nat ->
  concat (map (fun x => slice100 (100 * x) ks) (seq 0 m)) = ks.
Proof.
  induction m as [|m IH]; intros ks Hlen.
  - destruct ks; [reflexivity|simpl in Hlen; lia].
  - cbn [seq map concat]. rewrite <- seq_shift, map_map.
    unfold slice100 at 1. change (100 * 0)%nat with 0%nat. cbn [skipn].
    etransitivity; [|apply (firstn_skipn 100 ks)]. f_equal.
    etransitivity; [|apply (IH (skipn 100 ks)); rewrite length_skipn; lia].
    f_equal. apply map_ext. intros x. unfold slice100.
    rewrite skipn_skipn. f_equal. f_equal. lia.
Qed.

Lemma slices_cover (ks : list (string * value)) : concat (slices ks) = ks.
Proof.
  unfold slices. apply slices_from.
  pose proof (proj2 (ceil_lt (length ks) ((length ks + 99) / 100))) as H.
  destruct (Nat.le_gt_cases (length ks) (100 * ((length ks + 99) / 100))) as [Hle|Hgt];
    [exact Hle|].
  apply ceil_lt in Hgt. lia.
Qed.



Lemma flatten_keys_set (t : string) (l : list value) (ri : RequestItems) :
  length (flatten_keys (assoc_set t l ri))
  = (length (flatten_keys ri) + length l - length (items_of t ri))%nat.
Proof.
  unfold items_of. induction ri as [|[t' l'] r IH]; cbn [assoc_set assoc flatten_keys flat_map].
  - cbn [fst snd]. rewrite app_nil_r, length_map. simpl. lia.
  - destruct (String.eqb t t') eqn:E;
      cbn [flatten_keys flat_map fst snd]; rewrite !length_app, !length_map.
    + fold (flatten_keys r). lia.
    + fold (flatten_keys r) (flatten_keys (assoc_set t l r)). rewrite IH.
      pose proof (length_app (map (pair t') l') (flatten_keys r)) as Hx.
      assert (Hb : (length (match assoc t r with Some l0 => l0 | None => [] end)
                    <= length (flatten_keys r))%nat).
      { clear. induction r as [|[t0 l0] r IHr]; cbn [assoc flatten_keys flat_map].
        - simpl. lia.
        - cbn [fst snd]. fold (flatten_keys r). rewrite length_app, length_map.
          destruct (String.eqb t t0); lia. }
      lia.
Qed.


Lemma assoc_set_keys_in (A : Type) (c x : string) (v : A) (a : list (string * A)) :
  In x (keys (assoc_set c v a)) -> x = c \/ In x (keys a).
Proof.
  induction a as [|[k' v'] t IH]; cbn [assoc_set keys map fst].
  - intros [H|[]]. now left.
  - destruct (String.eqb c k') eqn:E; cbn [keys map fst].
    + intros H. now right.
    + intros [H|H]; [right; now left|].
      destruct (IH H) as [H'|H']; [now left|right; now right].
Qed.

Lemma assoc_set_keys_NoDup (A : Type) (c : string) (v : A) (a : list (string * A)) :
  NoDup (keys a) -> NoDup (keys (assoc_set c v a)).
Proof.
  induction a as [|[k' v'] t IH]; cbn [assoc_set keys map fst]; intros Hnd.
  - repeat constructor. intros [].
  - inversion Hnd as [|? ? Hnotin Hnd']; subst.
    destruct (String.eqb c k') eqn:E; cbn [keys map fst].
    + constructor; assumption.
    + constructor; [|now apply IH].
      intros Hin. apply assoc_set_keys_in in Hin. destruct Hin as [->|Hin].
      * rewrite String.eqb_refl in E. discriminate.
      * contradiction.
Qed.






Lemma served_all_app (reqs : list RequestItems) (evs : list event) :
  served_all reqs evs ->
  forall req evs', served req evs' -> served_all (reqs ++ [req]) (evs ++ evs').
Proof.
  induction 1 as [|req0 reqs evs0 evs1 Hs Hall IH]; intros req evs' Hs'.
  - cbn [app]. rewrite <- (app_nil_r evs'). now repeat constructor.
  - cbn [app]. rewrite <- app_assoc. constructor; auto.
Qed.

Section Bulk.

Variable St : Type.
Variable client : Client St.










End Bulk.



(* ================================================================= *)
(** ** More on the ISO date pattern *)

Lemma digits_exact_inv (n : nat) :
  forall s r, digits_exact n s = Some r ->
  exists p, s = p ++ r /\ String.length p = n.
Proof.
  induction n as [|n IH]; intros s r H; cbn [digits_exact] in H.
  - injection H as <-. exists "". split; reflexivity.
  - destruct s as [|c s']; [discriminate|].
    destruct (is_digit c); [|discriminate].
    destruct (IH s' r H) as (p & -> & Hl).
    exists (String c p). split; [reflexivity|]. cbn [String.length]. now rewrite Hl.
Qed.

Lemma lit_inv (c : ascii) (s r : string) : lit c s = Some r -> s = String c r.
Proof.
  destruct s as [|c' s']; cbn [lit]; [discriminate|].
  destruct (Ascii.eqb c c') eqn:E; [|discriminate].
  apply Ascii.eqb_eq in E. subst. now intros [= ->].
Qed.

Lemma string_length_app (a b : string) :
  String.length (a ++ b) = (String.length a + String.length b)%nat.
Proof. induction a as [|c a IH]; cbn; [reflexivity|now rewrite IH]. Qed.

Lemma string_app_assoc (a b c : string) : (a ++ b) ++ c = a ++ (b ++ c).
Proof. induction a as [|x a IH]; cbn; [reflexivity|now rewrite IH]. Qed.

(** X1.  A text the date pattern accepts has a dot as its twentieth
    character: the fraction of the seconds is mandatory, so a timestamp
    written without it is never revived as a date. *)
Theorem reISO_test_fraction_dot (s : string) :
  reISO_test s = true ->
  exists p rest, s = p ++ String "." rest /\ String.length p = 19.
Proof.
  unfold reISO_test. intros H.
  repeat match type of H with
  | context [andThen (digits_exact ?n ?x) _] =>
      let r := fresh "r" in let E := fresh "E" in
      destruct (digits_exact n x) as [r|] eqn:E; cbn [andThen] in H; [|discriminate];
      apply digits_exact_inv in E; destruct E as (? & -> & ?)
  | context [andThen (lit ?c ?x) _] =>
      let r := fresh "r" in let E := fresh "E" in
      destruct (lit c x) as [r|] eqn:E; cbn [andThen] in H; [|discriminate];
      apply lit_inv in E; subst x
  end.
  match goal with
  | |- exists p rest, ?a ++ String "-" (?b ++ String "-" (?c ++ String "T"
         (?d ++ String ":" (?e ++ String ":" (?f ++ String "." ?g))))) = _ /\ _ =>
      exists (a ++ String "-" (b ++ String "-" (c ++ String "T"
                (d ++ String ":" (e ++ String ":" f))))), g
  end.
  split.
  - repeat (rewrite ?string_app_assoc; cbn [append]). reflexivity.
  - repeat (rewrite string_length_app; cbn [String.length]). lia.
Qed.

Lemma reISO_test_fraction_dot_witness :
  reISO_test "2020-01-01T00:00:00.000Z" = true /\
  exists p rest, "2020-01-01T00:00:00.000Z" = p ++ String "." rest /\
                 String.length p = 19.
Proof.
  split; [reflexivity|].
  apply (reISO_test_fraction_dot "2020-01-01T00:00:00.000Z"). reflexivity.
Defined.

(* ================================================================= *)
(** ** More on the record transforms *)

Lemma assoc_obj_set (o : obj) (k a : string) (v : value) :
  assoc a (obj_set o k v) = if String.eqb a k then Some v else assoc a o.
Proof.
  unfold obj_set. destruct (String.eqb a k) eqn:E.
  - apply String.eqb_eq in E. subst. apply assoc_set_same.
  - apply String.eqb_neq in E. now apply assoc_set_other.
Qed.

Lemma toDynamo_prop_scalar (model item : obj) (k : string) (prop : PropertyDesc) :
  has_ref prop = false ->
  toDynamo_prop model item (k, prop)
  = Return (if is_undefined (obj_get model k) then item
            else obj_set item k (record_value (obj_get model k))).
Proof.
  intros H. unfold toDynamo_prop. rewrite H.
  destruct (obj_get model k); reflexivity.
Qed.

Lemma toDynamo_loop_scalar (model : obj) (ps : list (string * PropertyDesc)) :
  (forall k prop, In (k, prop) ps -> has_ref prop = false) ->
  forall item0, exists item,
    toDynamo_loop model ps item0 = Return item /\
    forall a, assoc a item =
              if existsb (String.eqb a) (keys ps) && negb (is_undefined (obj_get model a))
              then Some (record_value (obj_get model a))
              else assoc a item0.
Proof.
  induction ps as [|[k prop] t IH]; intros Hfree item0.
  - exists item0. split; [reflexivity|]. intros a. reflexivity.
  - cbn [toDynamo_loop]. rewrite toDynamo_prop_scalar by (apply (Hfree k); now left).
    cbn [obind].
    destruct (IH (fun k0 p0 Hin => Hfree k0 p0 (or_intror Hin))
                 (if is_undefined (obj_get model k) then item0
                  else obj_set item0 k (record_value (obj_get model k))))
      as (item & E & Hitem).
    exists item. split; [exact E|]. intros a. rewrite Hitem.
    cbn [keys map existsb fst].
    fold (keys t).
    destruct (existsb (String.eqb a) (keys t) && negb (is_undefined (obj_get model a))) eqn:Et.
    + apply andb_prop in Et. destruct Et as [-> ->]. now rewrite orb_true_r.
    + destruct (String.eqb a k) eqn:Ek.
      * apply String.eqb_eq in Ek. subst a. cbn [orb].
        destruct (is_undefined (obj_get model k)) eqn:Eu; cbn [negb andb].
        -- reflexivity.
        -- now rewrite assoc_obj_set, String.eqb_refl.
      * cbn [orb]. rewrite Et.
        destruct (is_undefined (obj_get model k)); [reflexivity|].
        now rewrite assoc_obj_set, Ek.
Qed.

Lemma toDynamo_free (schema : Schema) (model : obj) :
  relation_free schema ->
  exists item,
    toDynamo schema model = Return item /\
    forall a, assoc a item =
              if declared schema a && negb (is_undefined (obj_get model a))
              then Some (record_value (obj_get model a))
              else None.
Proof.
  intros Hfree.
  destruct (toDynamo_loop_scalar model (properties schema) Hfree []) as (item & E & H).
  exists item. split; [exact E|]. intros a. rewrite H. reflexivity.
Qed.

Lemma order_relation_free : relation_free Examples.order_schema.
Proof.
  intros k prop Hin.
  destruct Hin as [Hin|[Hin|[Hin|[]]]]; injection Hin as <- <-; reflexivity.
Defined.

Lemma toDynamo_join_null (join : list (string * string)) (item : obj) :
  join <> [] -> toDynamo_join VNull join item = Throw TypeError.
Proof. destruct join as [|[key v] t]; [congruence|reflexivity]. Qed.

Lemma toDynamo_join_defined (mk : value) (join : list (string * string)) :
  mk <> VUndef -> mk <> VNull ->
  forall item, exists item', toDynamo_join mk join item = Return item'.
Proof.
  intros Hu Hn. induction join as [|[key v] t IH]; intros item.
  - exists item. reflexivity.
  - cbn [toDynamo_join].
    assert (exists x, js_get mk v = Return x) as [x ->].
    { destruct mk; try contradiction; cbn [js_get]; eauto.
      destruct (existsb (String.eqb v) props); eauto. }
    cbn [obind]. apply IH.
Qed.

Lemma toDynamo_prop_throws (model item : obj) (k : string) (prop : PropertyDesc)
  (e : error) :
  toDynamo_prop model item (k, prop) = Throw e <->
  e = TypeError /\ has_ref prop = true /\
  (exists join, p_join prop = Some join /\ join <> []) /\ obj_get model k = VNull.
Proof.
  unfold toDynamo_prop. split.
  - intros H. destruct (is_undefined (obj_get model k)) eqn:Eu; [discriminate|].
    destruct (has_ref prop) eqn:Er.
    + destruct (obj_get model k) eqn:Ev; try discriminate Eu;
        try (destruct (toDynamo_join_defined (obj_get model k)
                         (match p_join prop with Some j => j | None => [] end))
               with (item := item) as [item' E];
             [rewrite Ev; discriminate|rewrite Ev; discriminate|
              rewrite Ev in E; rewrite E in H; discriminate]).
      destruct (p_join prop) as [[|[key v] t]|]; try discriminate.
      cbn in H. injection H as <-.
      split; [reflexivity|]. split; [reflexivity|]. split; [|reflexivity].
      eexists. split; [reflexivity|discriminate].
    + destruct (obj_get model k); discriminate.
  - intros (-> & Er & (join & Ej & Hne) & Ev).
    rewrite Ev, Er, Ej. cbn [is_undefined]. now apply toDynamo_join_null.
Qed.

Lemma toDynamo_loop_throws (model : obj) (ps : list (string * PropertyDesc)) (e : error) :
  forall item,
  toDynamo_loop model ps item = Throw e <->
  e = TypeError /\
  exists k prop join, In (k, prop) ps /\ has_ref prop = true /\
    p_join prop = Some join /\ join <> [] /\ obj_get model k = VNull.
Proof.
  induction ps as [|[k prop] t IH]; intros item; cbn [toDynamo_loop].
  - split; [discriminate|]. intros (_ & k & prop & join & [] & _).
  - destruct (toDynamo_prop model item (k, prop)) as [item1|e0] eqn:E1; cbn [obind].
    + rewrite IH. split.
      * intros (-> & k0 & p0 & j0 & Hin & H). split; [reflexivity|].
        exists k0, p0, j0. split; [now right|exact H].
      * intros (-> & k0 & p0 & j0 & [Heq|Hin] & Hr & Hj & Hne & Hv).
        -- injection Heq as <- <-.
           assert (toDynamo_prop model item (k, prop) = Throw TypeError) as E2.
           { apply toDynamo_prop_throws. split; [reflexivity|]. split; [exact Hr|].
             split; [|exact Hv]. exists j0. now split. }
           congruence.
        -- split; [reflexivity|]. exists k0, p0, j0. now repeat split.
    + apply toDynamo_prop_throws in E1.
      destruct E1 as (-> & Hr & (join & Hj & Hne) & Hv). split.
      * intros [= <-]. split; [reflexivity|].
        exists k, prop, join. split; [now left|now repeat split].
      * now intros (-> & _).
Qed.

(** X2.  The outcome of [toDynamo].  It fails in one way only: with a
    TypeError, exactly when some relation with a join that is not empty
    holds [null] in the entity; an absent relation is skipped, a [null]
    one is dereferenced.  For a schema without relations it always
    succeeds, and the record is the projection of the entity onto the
    declared properties: an attribute is written exactly when it is
    declared and defined; a Date is written as its time value, anything
    else as it is.  Attributes that are not declared are dropped, and the
    record never holds a Date or [undefined]. *)
Theorem toDynamo_outcome (schema : Schema) (model : obj) :
  (forall e,
     toDynamo schema model = Throw e <->
     e = TypeError /\
     exists k prop join, In (k, prop) (properties schema) /\ has_ref prop = true /\
       p_join prop = Some join /\ join <> [] /\ obj_get model k = VNull) /\
  (relation_free schema ->
   exists item,
     toDynamo schema model = Return item /\
     (forall a, assoc a item =
                if declared schema a && negb (is_undefined (obj_get model a))
                then Some (record_value (obj_get model a))
                else None) /\
     (forall a v, assoc a item = Some v -> v <> VUndef /\ forall t, v <> VDate t)).
Proof.
  split; [intros e; apply toDynamo_loop_throws|].
  intros Hfree. destruct (toDynamo_free schema model Hfree) as (item & E & H).
  exists item. split; [exact E|]. split; [exact H|].
  intros a v Ha. rewrite H in Ha.
  destruct (declared schema a && negb (is_undefined (obj_get model a))) eqn:Ed;
    [|discriminate].
  apply andb_prop in Ed. destruct Ed as [_ Eu]. injection Ha as <-.
  destruct (obj_get model a) as [| | | | | |[n|]| |]; cbn [record_value Date_valueOf];
    try discriminate Eu; split; try discriminate; intros t; discriminate.
Qed.

Lemma toDynamo_outcome_witness :
  toDynamo Examples.post_schema [("id", VStr "p1"); ("author", VNull)]
  = Throw TypeError /\
  exists item,
    toDynamo Examples.order_schema
      [("id", VStr "o1"); ("sk", VDate (Some 5%Z)); ("note", VStr "x")] = Return item /\
    assoc "sk" item = Some (VNum 5) /\ assoc "note" item = None.
Proof.
  split.
  - apply (proj2 (proj1 (toDynamo_outcome Examples.post_schema
                           [("id", VStr "p1"); ("author", VNull)]) TypeError)).
    split; [reflexivity|].
    exists "author", (Examples.relation "User" [("authorId", "id")]), [("authorId", "id")].
    split; [simpl; auto 6|]. repeat split; discriminate.
  - destruct (proj2 (toDynamo_outcome Examples.order_schema
                       [("id", VStr "o1"); ("sk", VDate (Some 5%Z)); ("note", VStr "x")])
                order_relation_free) as (item & E & H & _).
    exists item. split; [exact E|]. split; rewrite H; reflexivity.
Defined.

Section MoreTransforms.

Variable Date_parse : string -> option Z.

Lemma parseDynamo_prop_writes (item model model' : obj) (k : string)
  (prop : PropertyDesc) :
  parseDynamo_prop Date_parse item model (k, prop) = Return model' ->
  forall a v, assoc a model' = Some v ->
    assoc a model = Some v \/ (a = k /\ v <> VUndef).
Proof.
  intros E a v Ha. unfold parseDynamo_prop in E.
  assert (Hset : forall x, x <> VUndef -> assoc a (obj_set model k x) = Some v ->
                 assoc a model = Some v \/ (a = k /\ v <> VUndef)).
  { intros x Hx H. rewrite assoc_obj_set in H.
    destruct (String.eqb a k) eqn:Ek.
    - apply String.eqb_eq in Ek. injection H as <-. now right.
    - now left. }
  destruct (has_ref prop).
  - destruct (truthy (obj_get item k)) eqn:Et.
    + injection E as <-. apply (Hset (obj_get item k)); [|exact Ha].
      intros Hu. rewrite Hu in Et. discriminate.
    + destruct (p_join prop) as [join|]; [|discriminate].
      destruct (negb (truthy (obj_get item (name_of (join_first join))))).
      * injection E as <-. now left.
      * injection E as <-. eapply Hset; [|exact Ha]. discriminate.
  - destruct (is_undefined (obj_get item k)) eqn:Eu.
    + injection E as <-. now left.
    + destruct (is_date_format prop); injection E as <-.
      * eapply Hset; [|exact Ha]. destruct (obj_get item k); discriminate.
      * eapply Hset; [|exact Ha]. intros Hu. rewrite Hu in Eu. discriminate.
Qed.

Lemma parseDynamo_loop_writes (item : obj) (ps : list (string * PropertyDesc)) :
  forall model model',
  parseDynamo_loop Date_parse item ps model = Return model' ->
  forall a v, assoc a model' = Some v ->
    assoc a model = Some v \/ (In a (keys ps) /\ v <> VUndef).
Proof.
  induction ps as [|[k prop] t IH]; intros model model' E a v Ha.
  - injection E as <-. now left.
  - cbn [parseDynamo_loop] in E.
    destruct (parseDynamo_prop Date_parse item model (k, prop)) as [m1|] eqn:E1;
      [|discriminate].
    cbn [obind] in E.
    destruct (IH m1 model' E a v Ha) as [H|[Hin Hv]].
    + destruct (parseDynamo_prop_writes item model m1 k prop E1 a v H) as [H'|[-> Hv]].
      * now left.
      * right. split; [now left|exact Hv].
    + right. split; [now right|exact Hv].
Qed.

Lemma declared_In (schema : Schema) (k : string) :
  declared schema k = true <-> In k (keys (properties schema)).
Proof.
  unfold declared. rewrite existsb_exists. split.
  - intros (x & Hin & E). apply String.eqb_eq in E. now subst.
  - intros Hin. exists k. split; [exact Hin|apply String.eqb_refl].
Qed.

Lemma parseDynamo_writes_declared (schema : Schema) (item model : obj) :
  parseDynamo Date_parse schema item = Return model ->
  forall k v, assoc k model = Some v -> declared schema k = true /\ v <> VUndef.
Proof.
  intros E k v Hk.
  destruct (parseDynamo_loop_writes item (properties schema) [] model E k v Hk)
    as [H|[Hin Hv]]; [discriminate|].
  split; [now apply declared_In|exact Hv].
Qed.

Lemma parseDynamo_prop_throws (item model : obj) (k : string) (prop : PropertyDesc)
  (e : error) :
  parseDynamo_prop Date_parse item model (k, prop) = Throw e <->
  e = TypeError /\ has_ref prop = true /\ p_join prop = None /\
  truthy (obj_get item k) = false.
Proof.
  unfold parseDynamo_prop. split.
  - intros H. destruct (has_ref prop).
    + destruct (truthy (obj_get item k)); [discriminate|].
      destruct (p_join prop) as [join|].
      * destruct (negb (truthy (obj_get item (name_of (join_first join)))));
          discriminate.
      * injection H as <-. now repeat split.
    + destruct (is_undefined (obj_get item k)); [discriminate|].
      destruct (is_date_format prop); discriminate.
  - intros (-> & -> & -> & ->). reflexivity.
Qed.

Lemma parseDynamo_throws (schema : Schema) (item : obj) (e : error) :
  parseDynamo Date_parse schema item = Throw e <->
  e = TypeError /\
  exists k prop, In (k, prop) (properties schema) /\ has_ref prop = true /\
    p_join prop = None /\ truthy (obj_get item k) = false.
Proof.
  unfold parseDynamo. generalize (@nil (string * value)).
  induction (properties schema) as [|[k prop] t IH]; intros model;
    cbn [parseDynamo_loop].
  - split; [discriminate|]. intros (_ & k & prop & [] & _).
  - destruct (parseDynamo_prop Date_parse item model (k, prop)) as [m1|e0] eqn:E1;
      cbn [obind].
    + rewrite IH. split.
      * intros (-> & k0 & p0 & Hin & H). split; [reflexivity|].
        exists k0, p0. split; [now right|exact H].
      * intros (-> & k0 & p0 & [Heq|Hin] & Hr & Hj & Hv).
        -- injection Heq as <- <-.
           assert (parseDynamo_prop Date_parse item model (k, prop) = Throw TypeError)
             as E2 by (apply parseDynamo_prop_throws; now repeat split).
           congruence.
        -- split; [reflexivity|]. exists k0, p0. now repeat split.
    + apply parseDynamo_prop_throws in E1. destruct E1 as (-> & Hr & Hj & Hv). split.
      * intros [= <-]. split; [reflexivity|]. exists k, prop. split; [now left|].
        now repeat split.
      * now intros (-> & _).
Qed.

(** X3.  The outcome of [parseDynamo].  The entity data it builds hold
    declared properties only, none of them [undefined]: an attribute of
    the record that the schema does not declare never reaches the entity.
    It fails in one way only: with a TypeError, exactly when the schema
    has a relation without join whose attribute is absent or falsy in the
    record. *)
Theorem parseDynamo_outcome (schema : Schema) (item : obj) :
  (forall model,
     parseDynamo Date_parse schema item = Return model ->
     forall k v, assoc k model = Some v -> declared schema k = true /\ v <> VUndef) /\
  (forall e,
     parseDynamo Date_parse schema item = Throw e <->
     e = TypeError /\
     exists k prop, In (k, prop) (properties schema) /\ has_ref prop = true /\
       p_join prop = None /\ truthy (obj_get item k) = false).
Proof.
  split.
  - intros model E k v Hk. exact (parseDynamo_writes_declared schema item model E k v Hk).
  - intros e. apply parseDynamo_throws.
Qed.

(** X4.  The way of an entity to a record and back.  For a schema without
    relations whose property names are distinct, an entity whose
    attributes are all declared, with a Date in range exactly under the
    date properties, is given back by [toDynamo] followed by
    [parseDynamo], attribute by attribute. *)
Theorem parseDynamo_toDynamo_roundtrip (schema : Schema) (model : obj) :
  relation_free schema ->
  NoDup (keys (properties schema)) ->
  (forall k v, assoc k model = Some v ->
     exists prop, In (k, prop) (properties schema) /\ storable prop v) ->
  exists item model',
    toDynamo schema model = Return item /\
    parseDynamo Date_parse schema item = Return model' /\
    forall k, assoc k model' = assoc k model.
Proof.
  intros Hfree Hnd Hty.
  destruct (toDynamo_free schema model Hfree) as (item & Et & Hitem).
  destruct (parseDynamo_loop_spec Date_parse item (properties schema) Hnd) with (model := @nil (string * value))
    as (model' & Ep & Hm).
  { intros k prop Hin Href. rewrite (Hfree k prop Hin) in Href. discriminate. }
  { reflexivity. }
  exists item, model'. split; [exact Et|]. split; [exact Ep|]. intros k.
  assert (Hattr : forall prop, In (k, prop) (properties schema) ->
            obj_get model' k =
            if is_undefined (obj_get model k) then VUndef
            else if is_date_format prop
                 then new_Date Date_parse (record_value (obj_get model k))
                 else record_value (obj_get model k)).
  { intros prop Hin. rewrite (Hm k prop Hin). unfold parsed_attr.
    rewrite (Hfree k prop Hin).
    assert (declared schema k = true) as Hd.
    { apply declared_In. now apply (in_map fst) in Hin. }
    assert (obj_get item k = if is_undefined (obj_get model k) then VUndef
                             else record_value (obj_get model k)) as Hi.
    { unfold obj_get at 1. rewrite Hitem, Hd. cbn [andb].
      destruct (is_undefined (obj_get model k)); reflexivity. }
    rewrite Hi.
    destruct (is_undefined (obj_get model k)) eqn:Eu; cbn [is_undefined].
    - reflexivity.
    - assert (is_undefined (record_value (obj_get model k)) = false) as ->.
      { destruct (obj_get model k) as [| | | | | |[n|]| |]; try reflexivity.
        discriminate. }
      reflexivity. }
  destruct (assoc k model) as [v|] eqn:Ek.
  - destruct (Hty k v Ek) as (prop & Hin & Hst).
    pose proof (Hattr prop Hin) as H. rewrite (obj_get_assoc model k v Ek) in H.
    unfold storable in Hst.
    assert (obj_get model' k = v /\ v <> VUndef) as [Hv Hne].
    { destruct (is_date_format prop).
      - destruct Hst as (t & -> & Hr). cbn [is_undefined record_value] in H.
        split; [|discriminate]. rewrite H.
        destruct t as [n|]; cbn [Date_valueOf new_Date]; [|reflexivity].
        cbn [date_in_range] in Hr. now rewrite Hr.
      - destruct Hst as [Hne Hnd']. split; [|exact Hne]. rewrite H.
        destruct v; try reflexivity.
        exfalso. now apply (Hnd' t). }
    unfold obj_get in Hv. destruct (assoc k model'); congruence.
  - destruct (assoc k model') as [v'|] eqn:Ek'; [|reflexivity].
    destruct (parseDynamo_writes_declared schema item model' Ep k v' Ek') as [Hd Hv].
    apply declared_In in Hd. apply in_map_iff in Hd.
    destruct Hd as ([k0 prop] & Hk0 & Hin). cbn [fst] in Hk0. subst k0.
    pose proof (Hattr prop Hin) as H.
    unfold obj_get in H at 2. rewrite Ek in H. cbn [is_undefined] in H.
    rewrite (obj_get_assoc model' k v' Ek') in H. contradiction.
Qed.

End MoreTransforms.

Lemma parseDynamo_outcome_witness :
  (exists model,
     parseDynamo Examples.no_parse Examples.order_schema
       [("id", VStr "o1"); ("sk", VStr "a"); ("ttl", VNum 9)] = Return model /\
     assoc "ttl" model = None /\ assoc "sk" model = Some (VStr "a")) /\
  parseDynamo Examples.no_parse Cases.note_schema [("id", VStr "n1")] = Throw TypeError.
Proof.
  split.
  - eexists. split; [reflexivity|].
    pose proof (proj1 (parseDynamo_outcome Examples.no_parse Examples.order_schema
                         [("id", VStr "o1"); ("sk", VStr "a"); ("ttl", VNum 9)])
                  _ eq_refl) as H.
    split; [|reflexivity].
    destruct (assoc "ttl" _) as [v|] eqn:E; [|reflexivity].
    destruct (H "ttl" v E) as [Hd _]. discriminate Hd.
  - apply (proj2 (proj2 (parseDynamo_outcome Examples.no_parse Cases.note_schema
                           [("id", VStr "n1")]) TypeError)).
    split; [reflexivity|].
    eexists "author", _. split; [simpl; right; left; reflexivity|].
    repeat split; reflexivity.
Defined.

Lemma user_relation_free : relation_free Examples.user_schema.
Proof.
  intros k prop Hin.
  destruct Hin as [Hin|[Hin|[Hin|[Hin|[Hin|[]]]]]]; injection Hin as <- <-; reflexivity.
Defined.

Lemma parseDynamo_toDynamo_roundtrip_witness :
  exists item model',
    toDynamo Examples.user_schema Cases.dated_user = Return item /\
    parseDynamo Examples.no_parse Examples.user_schema item = Return model' /\
    forall k, assoc k model' = assoc k Cases.dated_user.
Proof.
  apply (parseDynamo_toDynamo_roundtrip Examples.no_parse Examples.user_schema
           Cases.dated_user user_relation_free).
  - repeat constructor; simpl; intuition discriminate.
  - intros k v Hv. unfold Cases.dated_user in Hv. cbn [assoc] in Hv.
    destruct (String.eqb k "id") eqn:E1.
    { apply String.eqb_eq in E1. subst. injection Hv as <-.
      eexists. split; [simpl; eauto|]. split; discriminate. }
    destruct (String.eqb k "email") eqn:E2.
    { apply String.eqb_eq in E2. subst. injection Hv as <-.
      eexists. split; [simpl; eauto|]. split; discriminate. }
    destruct (String.eqb k "createdAt") eqn:E3; [|discriminate].
    apply String.eqb_eq in E3. subst. injection Hv as <-.
    eexists. split; [simpl; eauto 6|]. eexists. split; reflexivity.
Defined.

(* ================================================================= *)
(** ** More on [update] *)

Lemma string_app_nil_r (a : string) : a ++ "" = a.
Proof. induction a as [|c a IH]; cbn; [reflexivity|now rewrite IH]. Qed.

Lemma concat_cons (sep x : string) (l : list string) :
  String.concat sep (x :: l)
  = x ++ String.concat "" (map (fun y => sep ++ y) l).
Proof.
  revert x. induction l as [|y t IH]; intros x.
  - cbn. now rewrite string_app_nil_r.
  - change (String.concat sep (x :: y :: t)) with (x ++ sep ++ String.concat sep (y :: t)).
    rewrite IH. cbn [map]. cbn [String.concat].
    destruct (map (fun y0 => sep ++ y0) t) eqn:E.
    + cbn. now rewrite !string_app_nil_r.
    + cbn [append]. now rewrite string_app_assoc.
Qed.

Lemma concat_empty_app (x : string) (l : list string) :
  String.concat "" (x :: l) = x ++ String.concat "" l.
Proof.
  destruct l as [|y t]; cbn [String.concat].
  - now rewrite string_app_nil_r.
  - reflexivity.
Qed.

Lemma assoc_set_nonempty (A : Type) (k : string) (v : A) (l : list (string * A)) :
  assoc_set k v l <> [].
Proof. destruct l as [|[k' v'] t]; cbn; [discriminate|]. destruct (String.eqb k k'); discriminate. Qed.

Ltac string_norm :=
  repeat (progress (rewrite ?string_app_assoc; cbn [append])).

(** Once a name is registered, every further assignment is preceded by a
    comma. *)
Lemma update_assign_expr (body : obj) (ks : list string) :
  forall p, u_ExpressionAttributeNames p <> [] ->
  u_UpdateExpression (fold_left (update_assign body) ks p)
  = u_UpdateExpression p
    ++ String.concat "" (map (fun k => ", " ++ assignment k) ks).
Proof.
  induction ks as [|k t IH]; intros p Hne; cbn [fold_left map].
  - cbn. now rewrite string_app_nil_r.
  - rewrite IH.
    + rewrite concat_empty_app. unfold update_assign. cbn [u_UpdateExpression].
      destruct (u_ExpressionAttributeNames p) as [|x l]; [contradiction|].
      unfold assignment. string_norm. reflexivity.
    + unfold update_assign. cbn [u_ExpressionAttributeNames]. apply assoc_set_nonempty.
Qed.

Lemma update_assign_expr_first (body : obj) (ks : list string) (p : UpdateParams) :
  u_ExpressionAttributeNames p = [] ->
  u_UpdateExpression (fold_left (update_assign body) ks p)
  = u_UpdateExpression p ++ String.concat ", " (map assignment ks).
Proof.
  intros Hnil. destruct ks as [|k t]; cbn [fold_left map].
  - cbn. now rewrite string_app_nil_r.
  - rewrite update_assign_expr.
    + unfold update_assign at 1. cbn [u_UpdateExpression]. rewrite Hnil.
      rewrite concat_cons, map_map. unfold assignment.
      string_norm. reflexivity.
    + unfold update_assign. cbn [u_ExpressionAttributeNames]. apply assoc_set_nonempty.
Qed.

Lemma update_assign_returns (body : obj) (ks : list string) (p : UpdateParams) :
  u_ReturnValues (fold_left (update_assign body) ks p) = u_ReturnValues p.
Proof.
  revert p. induction ks as [|a l IH]; intros p; [reflexivity|].
  cbn [fold_left]. now rewrite IH.
Qed.

Lemma update_assign_sent (body : obj) (ks : list string) (k : string) :
  In k ks ->
  forall p,
  assoc ("#" ++ k) (u_ExpressionAttributeNames (fold_left (update_assign body) ks p))
  = Some (VStr k) /\
  assoc (":" ++ k) (u_ExpressionAttributeValues (fold_left (update_assign body) ks p))
  = Some (obj_get body k).
Proof.
  induction ks as [|a t IH]; intros Hin p; [contradiction|]. cbn [fold_left].
  destruct (in_dec string_dec k t) as [Ht|Ht]; [now apply IH|].
  destruct Hin as [->|Hin]; [|contradiction].
  rewrite update_assign_names by exact Ht.
  rewrite update_assign_values
    by (intros k0 Hk0 E; apply colon_inj in E; subst; contradiction).
  unfold update_assign, obj_set.
  cbn [u_ExpressionAttributeNames u_ExpressionAttributeValues].
  now rewrite !assoc_set_same.
Qed.

Lemma stripped_sub (schema : Schema) (key body : obj) (k : string) :
  In k (keys (stripped schema key body)) ->
  obj_get (stripped schema key body) k = obj_get body k /\
  ~ In k (keys key) /\ tested_version schema <> Some k.
Proof.
  unfold stripped. intros Hin.
  assert (Hk : ~ In k (keys key)).
  { intros Hx. revert Hin. apply assoc_None_keys. now apply strip_keys_in. }
  assert (Hv : tested_version schema <> Some k).
  { intros Hv. rewrite Hv in Hin. revert Hin. apply assoc_None_keys.
    rewrite strip_keys_notin by exact Hk. apply assoc_del_same. }
  split; [|split; assumption].
  unfold obj_get. rewrite strip_keys_notin by exact Hk.
  destruct (tested_version schema) as [ver|]; [|reflexivity].
  rewrite assoc_del_other; [reflexivity|]. congruence.
Qed.

Section MoreUpdate.

Variable clock : nat -> Z.
Variable St : Type.
Variable client : Client St.

(** X5.  The request [update] sends.  With a verb key present, exactly
    one request reaches the store, for the table of the schema, asking for
    the new image; its expression is the word of the verb followed by one
    assignment per attribute, separated by commas: the version attribute
    first when the schema has one, then every attribute left in the verb
    body, in the order of the body.  Each of these attributes is sent under
    its own name with the value the body gives it.  The assignments are
    written with an equals sign whatever the verb. *)
Theorem update_request_shape (schema : Schema) (key : obj) (upd : UpdateSpec)
  (t : verb) (body : obj) (w : World St) :
  find_verb upd = Some t ->
  verb_body upd t = Some body ->
  exists params res r upd' w',
    update clock client schema key upd w = (r, upd', w') /\
    new_events w w' = [EvUpdate params res] /\
    u_TableName params = tableName schema /\
    u_ReturnValues params = "ALL_NEW" /\
    u_UpdateExpression params
    = verb_prefix (Some t)
      ++ String.concat ", " (map assignment (assigned schema key body)) /\
    (forall k, In k (keys (stripped schema key body)) ->
       assoc ("#" ++ k) (u_ExpressionAttributeNames params) = Some (VStr k) /\
       assoc (":" ++ k) (u_ExpressionAttributeValues params) = Some (obj_get body k)).
Proof.
  intros Ht Hb.
  assert (Hbuild : exists params w1,
    update_build clock schema key upd w
      = (Return (params, set_verb_body upd t (stripped schema key body)), w1) /\
    w_store w1 = w_store w /\ w_trace w1 = w_trace w /\
    u_TableName params = tableName schema /\
    u_ReturnValues params = "ALL_NEW" /\
    u_UpdateExpression params
    = verb_prefix (Some t)
      ++ String.concat ", " (map assignment (assigned schema key body)) /\
    (forall k, In k (keys (stripped schema key body)) ->
       assoc ("#" ++ k) (u_ExpressionAttributeNames params) = Some (VStr k) /\
       assoc (":" ++ k) (u_ExpressionAttributeValues params)
       = Some (obj_get (stripped schema key body) k))).
  { unfold update_build, assigned, stripped. rewrite Ht, Hb.
    destruct (tested_version schema) as [ver|] eqn:Ev.
    - unfold bind, Date_now, ret. cbn [fst snd].
      unfold update_version.
      cbn [u_UpdateExpression u_ExpressionAttributeNames
        u_ExpressionAttributeValues u_ConditionExpression u_TableName u_Key u_ReturnValues].
      set (body' := strip_keys key (assoc_del ver body)).
      destruct (truthy (obj_get body ver));
        (eexists; eexists; split; [reflexivity|]; cbn [w_store w_trace];
         split; [reflexivity|]; split; [reflexivity|];
         split; [apply update_assign_frame|];
         split; [now rewrite update_assign_returns|];
         split; [rewrite update_assign_expr
                   by (cbn [u_ExpressionAttributeNames]; apply assoc_set_nonempty);
                 cbn [u_UpdateExpression app map]; rewrite concat_cons, map_map;
                 unfold assignment; string_norm; reflexivity|];
         intros k Hin; now apply update_assign_sent).
    - unfold bind, ret. cbn [fst snd].
      set (body' := strip_keys key body).
      eexists; eexists. split; [reflexivity|].
      split; [reflexivity|]. split; [reflexivity|].
      split; [apply update_assign_frame|].
      split; [now rewrite update_assign_returns|].
      split; [now rewrite update_assign_expr_first|].
      intros k Hin. now apply update_assign_sent. }
  destruct Hbuild as (params & w1 & E & Hs & Htr & Htab & Hret & Hexpr & Hsent).
  unfold update. rewrite E. unfold call.
  destruct (c_update client params (w_store w1)) as [res s'] eqn:Ec.
  exists params, res.
  assert (Hev : forall r0 : outcome value,
            new_events w (mkWorld s' (w_tick w1) (w_trace w1 ++ [EvUpdate params res]))
            = [EvUpdate params res]).
  { intros _. apply new_events_app. cbn [w_trace]. now rewrite Htr. }
  assert (Hvals : forall k, In k (keys (stripped schema key body)) ->
       assoc ("#" ++ k) (u_ExpressionAttributeNames params) = Some (VStr k) /\
       assoc (":" ++ k) (u_ExpressionAttributeValues params) = Some (obj_get body k)).
  { intros k Hin. destruct (Hsent k Hin) as [H1 H2]. split; [exact H1|].
    rewrite H2. f_equal. now apply stripped_sub. }
  destruct res as [data|e]; eexists; eexists; eexists;
    (split; [reflexivity|]); (split; [apply Hev; exact (Return VUndef)|]); auto.
Qed.

(** X6.  Without any verb key [update] fails with a TypeError before the
    store is called, and the caller's object is left as it was. *)
Theorem update_requires_verb (schema : Schema) (key : obj) (upd : UpdateSpec)
  (w : World St) :
  find_verb upd = None ->
  exists w',
    update clock client schema key upd w = (Throw TypeError, upd, w') /\
    w_store w' = w_store w /\ new_events w w' = [].
Proof.
  intros Hv. unfold update, update_build. rewrite Hv.
  destruct (tested_version schema); unfold bind, Date_now, ret, throw; cbn [fst snd];
    eexists; (split; [reflexivity|]); (split; [reflexivity|]);
    apply new_events_app; cbn [w_trace]; now rewrite app_nil_r.
Qed.

End MoreUpdate.

Lemma update_request_shape_witness :
  exists params res r upd' w',
    update Examples.clock0 MemStore.client Examples.user_schema [("id", VStr "u1")]
      (mkSpec (Some [("id", VStr "u1"); ("email", VStr "b@x.com"); ("name", VStr "B")])
         None None)
      (Examples.world Examples.users_with_u1) = (r, upd', w') /\
    new_events (Examples.world Examples.users_with_u1) w' = [EvUpdate params res] /\
    u_UpdateExpression params = "SET #version = :version, #email = :email, #name = :name" /\
    assoc ":email" (u_ExpressionAttributeValues params) = Some (VStr "b@x.com").
Proof.
  destruct (update_request_shape Examples.clock0 MemStore.Store MemStore.client
              Examples.user_schema [("id", VStr "u1")]
              (mkSpec (Some [("id", VStr "u1"); ("email", VStr "b@x.com");
                             ("name", VStr "B")]) None None)
              SET [("id", VStr "u1"); ("email", VStr "b@x.com"); ("name", VStr "B")]
              (Examples.world Examples.users_with_u1) eq_refl eq_refl)
    as (params & res & r & upd' & w' & E & Hev & _ & _ & Hexpr & Hsent).
  exists params, res, r, upd', w'.
  split; [exact E|]. split; [exact Hev|]. split; [exact Hexpr|].
  apply (Hsent "email"). simpl. auto.
Defined.

Lemma update_requires_verb_witness :
  exists w',
    update Examples.clock0 MemStore.client Examples.user_schema [("id", VStr "u1")]
      (mkSpec None None None) (Examples.world Examples.users_with_u1)
    = (Throw TypeError, mkSpec None None None, w') /\
    w_store w' = Examples.users_with_u1 /\
    new_events (Examples.world Examples.users_with_u1) w' = [].
Proof.
  exact (update_requires_verb Examples.clock0 MemStore.Store MemStore.client
           Examples.user_schema [("id", VStr "u1")] (mkSpec None None None)
           (Examples.world Examples.users_with_u1) eq_refl).
Defined.

(* ================================================================= *)
(** ** More on [find] *)

Section MoreFind.

Variable St : Type.
Variable client : Client St.

Lemma fetch_sent (params : QueryParams) (w : World St) (r : outcome QueryOutput)
  (w' : World St) :
  fetch client params w = (r, w') ->
  w_trace w' = (w_trace w ++ [sent params r])%list.
Proof.
  unfold fetch, sent, call.
  destruct (opt_str_truthy (q_KeyConditionExpression params)).
  - destruct (c_query client params (w_store w)) as [r0 s']. now intros [= <- <-].
  - destruct (c_scan client params (w_store w)) as [r0 s']. now intros [= <- <-].
Qed.

Lemma pages_of_sent (p : QueryParams) (r : outcome QueryOutput) :
  pages_of [sent p r] = match r with Return d => [d] | Throw _ => [] end.
Proof.
  unfold sent. destruct (opt_str_truthy (q_KeyConditionExpression p)); destruct r;
    reflexivity.
Qed.

Lemma find_chain (fuel : nat) (opts : FindOpts) :
  forall params acc w acc' params' w',
  find client fuel params opts acc w = (Return (Some (acc', params')), w') ->
  exists evs chunks,
    w_trace w' = (w_trace w ++ evs)%list /\
    chained opts params evs /\
    Forall2 (fun d items => page_items opts d = Return items) (pages_of evs) chunks /\
    a_ScannedCount acc' = (a_ScannedCount acc + scanned_total (pages_of evs))%Z /\
    match o_reduce opts with
    | None =>
        a_Items acc' = (a_Items acc ++ concat chunks)%list /\
        a_Count acc' = Some (Z.of_nat (length (a_Items acc'))) /\
        a_Accumulator acc' = a_Accumulator acc
    | Some _ => a_Items acc' = a_Items acc /\ a_Count acc' = a_Count acc
    end.
Proof.
  induction fuel as [|fuel IH]; intros params acc w acc' params' w' H.
  - discriminate.
  - cbn [find] in H.
    apply bind_inv in H. destruct H as [(? & _ & Hx)|(acc0 & w0 & E0 & H)]; [discriminate|].
    unfold lift in E0. injection E0 as E0 <-.
    apply bind_inv in H. destruct H as [(? & _ & Hx)|(data & w1 & E1 & H)]; [discriminate|].
    pose proof (fetch_sent params w _ w1 E1) as T1.
    apply bind_inv in H. destruct H as [(? & _ & Hx)|(items & w2 & E2 & H)]; [discriminate|].
    unfold lift in E2. injection E2 as E2 <-.
    pose proof (page_items_length opts data items E2) as Hlen.
    pose proof (next_limit_length (q_Limit params) items (page_kept opts data) Hlen) as Hnl.
    assert (Hacc0 : a_Items acc0 = a_Items acc /\ a_ScannedCount acc0 = a_ScannedCount acc /\
                    a_Count acc0 = a_Count acc /\
                    (o_reduce opts = None -> a_Accumulator acc0 = a_Accumulator acc)).
    { unfold check_opts in E0.
      destruct (o_map opts); destruct (o_reduce opts); try discriminate;
        try (injection E0 as <-; now auto);
        destruct (negb (truthy (o_initialValue opts))); try discriminate;
        destruct (negb (truthy (a_Accumulator acc))); injection E0 as <-;
        cbn; repeat split; intros; discriminate. }
    destruct Hacc0 as (HI & HS & HC & HA).
    assert (Hone :
      let acc1 := absorb opts acc0 data items in
      a_ScannedCount acc1 = (a_ScannedCount acc + scanned_total [data])%Z /\
      match o_reduce opts with
      | None =>
          a_Items acc1 = (a_Items acc ++ concat [items])%list /\
          a_Count acc1 = Some (Z.of_nat (length (a_Items acc1))) /\
          a_Accumulator acc1 = a_Accumulator acc
      | Some _ => a_Items acc1 = a_Items acc /\ a_Count acc1 = a_Count acc
      end).
    { cbv zeta. unfold absorb, scanned_total. cbn [fold_right concat].
      rewrite app_nil_r, Z.add_0_r.
      destruct (o_reduce opts);
        cbn [a_Items a_ScannedCount a_Count a_Accumulator]; rewrite ?HI, ?HS, ?HC;
        repeat split; auto. }
    cbv zeta in Hone. destruct Hone as [Hsc Hone].
    assert (Hstop :
      exists evs chunks,
        w_trace w1 = (w_trace w ++ evs)%list /\ chained opts params evs /\
        Forall2 (fun d its => page_items opts d = Return its) (pages_of evs) chunks /\
        a_ScannedCount (absorb opts acc0 data items)
        = (a_ScannedCount acc + scanned_total (pages_of evs))%Z /\
        match o_reduce opts with
        | None =>
            a_Items (absorb opts acc0 data items) = (a_Items acc ++ concat chunks)%list /\
            a_Count (absorb opts acc0 data items)
            = Some (Z.of_nat (length (a_Items (absorb opts acc0 data items)))) /\
            a_Accumulator (absorb opts acc0 data items) = a_Accumulator acc
        | Some _ => a_Items (absorb opts acc0 data items) = a_Items acc /\
                    a_Count (absorb opts acc0 data items) = a_Count acc
        end).
    { exists [sent params (Return data)], [items].
      split; [exact T1|]. split; [constructor|].
      rewrite pages_of_sent. split; [repeat constructor; exact E2|].
      split; [exact Hsc|exact Hone]. }
    destruct (LastEvaluatedKey data) as [lek|] eqn:Elek.
    + cbn [set_limit q_Limit] in H.
      destruct (limit_open (next_limit (q_Limit params) items)) eqn:Eopen.
      * destruct (IH _ _ _ _ _ _ H) as (evs & chunks & T & Hch & Hf & Hs & Hr).
        exists (sent params (Return data) :: evs), (items :: chunks).
        split; [rewrite T, T1; now rewrite <- app_assoc|].
        split.
        { apply chained_next with (lek := lek); [exact Elek|].
          unfold next_request. now rewrite <- Hnl. }
        change (sent params (Return data) :: evs)
          with ([sent params (Return data)] ++ evs)%list.
        rewrite pages_of_app, pages_of_sent. cbn [app].
        split; [constructor; [exact E2|exact Hf]|].
        split.
        { rewrite Hs, Hsc. unfold scanned_total. cbn [fold_right]. lia. }
        destruct (o_reduce opts).
        -- destruct Hr as [Hr1 Hr2]. destruct Hone as [Ho1 Ho2]. split; congruence.
        -- destruct Hr as (Hr1 & Hr2 & Hr3). destruct Hone as (Ho1 & Ho2 & Ho3).
           split; [|split; [exact Hr2|congruence]].
           rewrite Hr1, Ho1. cbn [concat]. now rewrite app_nil_r, <- app_assoc.
      * injection H as <- <- <-.
        destruct Hstop as (evs & chunks & T & Hch & Hf & Hs & Hr).
        exists evs, chunks. split; [exact T|]. split; [exact Hch|]. split; [exact Hf|].
        unfold set_last_key. cbn [a_ScannedCount a_Items a_Count a_Accumulator].
        split; [exact Hs|exact Hr].
    + injection H as <- <- <-.
      destruct Hstop as (evs & chunks & T & Hch & Hf & Hs & Hr).
      exists evs, chunks. auto.
Qed.

(** X7.  A run of [find] that returns.  The first call carries the
    request as given; every call but the last was answered with a page
    holding a continuation token, and the next call carries the same
    request with that token as its start key and the limit reduced by the
    items the page kept; every call is a query when the request has a key
    condition and a scan otherwise.  [ScannedCount] grows by the sum over
    all the pages fetched, whatever the options.  Without [reduce],
    [Items] grows by the items of every page, in order, as they come out
    of [filter] and [map], [Count] is the length of [Items] and the
    accumulator value is untouched; with [reduce], [Items] and [Count] are
    left as they were. *)
Theorem find_chains_and_accumulates (fuel : nat) (params : QueryParams) (opts : FindOpts)
  (acc : Acc) (w : World St) (acc' : Acc) (params' : QueryParams) (w' : World St) :
  find client fuel params opts acc w = (Return (Some (acc', params')), w') ->
  chained opts params (new_events w w') /\
  let pages := pages_of (new_events w w') in
  a_ScannedCount acc' = (a_ScannedCount acc + scanned_total pages)%Z /\
  (o_reduce opts = None ->
   (exists chunks,
      Forall2 (fun d items => page_items opts d = Return items) pages chunks /\
      a_Items acc' = (a_Items acc ++ concat chunks)%list) /\
   (o_map opts = None ->
    a_Items acc' = (a_Items acc ++ flat_map (page_kept opts) pages)%list) /\
   a_Count acc' = Some (Z.of_nat (length (a_Items acc'))) /\
   a_Accumulator acc' = a_Accumulator acc) /\
  (o_reduce opts <> None ->
   a_Items acc' = a_Items acc /\ a_Count acc' = a_Count acc).
Proof.
  intros H.
  destruct (find_chain fuel opts params acc w acc' params' w' H)
    as (evs & chunks & T & Hch & Hf & Hs & Hr).
  rewrite (new_events_app St w w' evs T). split; [exact Hch|].
  intros pages. subst pages. split; [exact Hs|]. split.
  - intros Hnone. rewrite Hnone in Hr. destruct Hr as (H1 & H2 & H3).
    split; [exists chunks; auto|]. split; [|auto].
    intros Hmap. rewrite H1. f_equal.
    clear - Hf Hmap. induction Hf as [|d items ds cs Hd _ IH]; [reflexivity|].
    cbn [concat flat_map]. rewrite IH. f_equal.
    unfold page_items in Hd. rewrite Hmap in Hd. unfold page_kept. congruence.
  - intros Hsome. destruct (o_reduce opts); [exact Hr|contradiction].
Qed.

(** X8.  The options are checked before anything is asked of the store:
    with both [map] and [reduce], and with [reduce] and an initial value
    that is falsy (zero, the empty text, [undefined]), [find] fails with
    the error of lines 745-746 and the store is not called. *)
Theorem find_rejects_options (fuel : nat) (params : QueryParams) (opts : FindOpts)
  (acc : Acc) (w : World St) :
  o_reduce opts <> None ->
  o_map opts <> None \/ truthy (o_initialValue opts) = false ->
  find client (S fuel) params opts acc w
  = (Throw (PlainError (match o_map opts with
                        | Some _ => "Only map or reduce is required"
                        | None => "Reduce initialValue is required"
                        end)), w).
Proof.
  intros Hr Hbad. cbn [find]. unfold bind, lift, check_opts.
  destruct (o_reduce opts); [|contradiction].
  destruct (o_map opts); [reflexivity|].
  destruct Hbad as [Hx|Hinit]; [contradiction|]. now rewrite Hinit.
Qed.

End MoreFind.

Lemma find_chains_and_accumulates_witness :
  exists acc' params' w',
    find Examples.paged_client 5 (Examples.with_limit 5) Examples.only_even
      empty_acc (Examples.world [Examples.page1; Examples.page2])
    = (Return (Some (acc', params')), w') /\
    chained Examples.only_even (Examples.with_limit 5)
      (new_events (Examples.world [Examples.page1; Examples.page2]) w') /\
    length (new_events (Examples.world [Examples.page1; Examples.page2]) w') = 2%nat /\
    a_ScannedCount acc' = 5%Z /\
    a_Items acc' = [Examples.item 2; Examples.item 4] /\
    a_Count acc' = Some 2%Z.
Proof.
  destruct (find Examples.paged_client 5 (Examples.with_limit 5) Examples.only_even
              empty_acc (Examples.world [Examples.page1; Examples.page2]))
    as [[[[acc' params']|]|err] w'] eqn:E;
    try (vm_compute in E; discriminate).
  exists acc', params', w'. split; [reflexivity|].
  pose proof (find_chains_and_accumulates (list QueryOutput) Examples.paged_client 5
                (Examples.with_limit 5) Examples.only_even empty_acc
                (Examples.world [Examples.page1; Examples.page2]) acc' params' w' E) as H.
  cbv zeta in H. destruct H as (Hch & Hs & Hn & _).
  split; [exact Hch|].
  destruct (Hn eq_refl) as (_ & Hitems & Hcount & _).
  specialize (Hitems eq_refl).
  assert (Hev : length (new_events (Examples.world [Examples.page1; Examples.page2]) w')
                = 2%nat /\
                pages_of (new_events (Examples.world [Examples.page1; Examples.page2]) w')
                = [Examples.page1; Examples.page2]).
  { vm_compute in E. injection E as <- <- <-. split; reflexivity. }
  destruct Hev as [Hlen Hp]. split; [exact Hlen|].
  rewrite Hp in Hs, Hitems. rewrite Hcount, Hitems.
  split; [exact Hs|]. split; reflexivity.
Defined.

Lemma find_rejects_options_witness :
  find Examples.paged_client 1 (Examples.with_limit 5)
    (mkOpts None None (Some Cases.sum) (VNum 0)) empty_acc
    (Examples.world [Examples.page1])
  = (Throw (PlainError "Reduce initialValue is required"),
     Examples.world [Examples.page1]).
Proof.
  apply (find_rejects_options (list QueryOutput) Examples.paged_client 0
           (Examples.with_limit 5) (mkOpts None None (Some Cases.sum) (VNum 0))
           empty_acc (Examples.world [Examples.page1])).
  - discriminate.
  - right. reflexivity.
Defined.

(* ================================================================= *)
(** ** More on [get] and [save] *)

Lemma emits_nothing (St A : Type) (m : M St A) (w : World St) (r : outcome A)
  (w' : World St) :
  emits no_event m -> m w = (r, w') -> w_trace w' = w_trace w.
Proof.
  intros Hm E. destruct (Hm w r w' E) as (evs & T & F).
  destruct evs as [|ev evs]; [now rewrite app_nil_r in T|].
  inversion F as [|? ? Hx]. destruct Hx.
Qed.

Lemma project_key_keys (k : Key) (key : value) (o : obj) :
  project_key k key = Return o ->
  forall a, In a (keys o) -> hashKey k = Some a \/ rangeKey k = Some a.
Proof.
  unfold project_key. intros H a Ha.
  destruct (hashKey k) as [h|]; destruct (rangeKey k) as [rg|];
    cbn [obind] in H.
  - destruct (js_get key h) as [v|]; [|discriminate]. cbn [obind] in H.
    destruct (js_get key rg) as [v'|]; [|discriminate]. cbn [obind] in H.
    injection H as <-. unfold obj_set in Ha. cbn [assoc_set] in Ha.
    destruct (String.eqb rg h) eqn:E; cbn in Ha.
    + destruct Ha as [<-|[]]. now left.
    + destruct Ha as [<-|[<-|[]]]; auto.
  - destruct (js_get key h) as [v|]; [|discriminate]. cbn [obind] in H.
    injection H as <-. cbn in Ha. destruct Ha as [<-|[]]. now left.
  - destruct (js_get key rg) as [v'|]; [|discriminate]. cbn [obind] in H.
    injection H as <-. cbn in Ha. destruct Ha as [<-|[]]. now right.
  - injection H as <-. destruct Ha.
Qed.

Lemma project_key_values (k : Key) (key : value) (o : obj) :
  project_key k key = Return o ->
  forall a v, assoc a o = Some v -> js_get key a = Return v.
Proof.
  unfold project_key. intros H a v Ha.
  destruct (hashKey k) as [h|]; destruct (rangeKey k) as [rg|];
    cbn [obind] in H.
  - destruct (js_get key h) as [x|] eqn:Eh; [|discriminate]. cbn [obind] in H.
    destruct (js_get key rg) as [y|] eqn:Er; [|discriminate]. cbn [obind] in H.
    injection H as <-. rewrite assoc_obj_set in Ha.
    destruct (String.eqb a rg) eqn:E1.
    + apply String.eqb_eq in E1. subst. congruence.
    + rewrite assoc_obj_set in Ha. destruct (String.eqb a h) eqn:E2; [|discriminate].
      apply String.eqb_eq in E2. subst. congruence.
  - destruct (js_get key h) as [x|] eqn:Eh; [|discriminate]. cbn [obind] in H.
    injection H as <-. rewrite assoc_obj_set in Ha.
    destruct (String.eqb a h) eqn:E2; [|discriminate].
    apply String.eqb_eq in E2. subst. congruence.
  - destruct (js_get key rg) as [y|] eqn:Er; [|discriminate]. cbn [obind] in H.
    injection H as <-. rewrite assoc_obj_set in Ha.
    destruct (String.eqb a rg) eqn:E2; [|discriminate].
    apply String.eqb_eq in E2. subst. congruence.
  - injection H as <-. discriminate.
Qed.

Section Ticks.

Variable St : Type.

Lemma forward_ret (A : Type) (a : A) : ticks_forward (ret (S:=St) a).
Proof. intros w r w' [= <- <-]. apply Nat.le_refl. Qed.

Lemma forward_throw (A : Type) (e : error) : ticks_forward (throw (S:=St) (A:=A) e).
Proof. intros w r w' [= <- <-]. apply Nat.le_refl. Qed.

Lemma forward_lift (A : Type) (x : outcome A) : ticks_forward (lift (S:=St) x).
Proof. intros w r w' [= <- <-]. apply Nat.le_refl. Qed.

Lemma forward_bind (A B : Type) (m : M St A) (f : A -> M St B) :
  ticks_forward m -> (forall a, ticks_forward (f a)) -> ticks_forward (bind m f).
Proof.
  intros Hm Hf w r w' H.
  destruct (bind_inv _ _ _ m f w r w' H) as [(e & E & ->)|(a & w1 & E & E')].
  - exact (Hm w _ w' E).
  - exact (Nat.le_trans _ _ _ (Hm w _ w1 E) (Hf a w1 _ w' E')).
Qed.

Lemma forward_call (P0 R : Type) (f : P0 -> St -> outcome R * St)
  (ev : P0 -> outcome R -> event) (p : P0) : ticks_forward (call f ev p).
Proof.
  intros w r w'. unfold call. destruct (f p (w_store w)) as [r0 s'].
  intros [= <- <-]. apply Nat.le_refl.
Qed.

Lemma forward_Date_now (clock : nat -> Z) : ticks_forward (Date_now clock (St:=St)).
Proof. intros w r w' [= <- <-]. cbn [w_tick]. apply Nat.le_succ_diag_r. Qed.

End Ticks.

Ltac forward_step :=
  first
    [ apply forward_ret | apply forward_throw | apply forward_lift
    | apply forward_Date_now | apply forward_call
    | apply forward_bind; [|intros]
    | match goal with
      | |- ticks_forward (match ?x with _ => _ end) => destruct x
      | |- ticks_forward (let (_, _) := ?x in _) => destruct x
      end ].

Section MoreSave.

Variable Date_parse : string -> option Z.
Variable ToNumber_string : string -> value.
Variable clock : nat -> Z.
Variable St : Type.
Variable client : Client St.

Lemma get_run (schema : Schema) (key : value) (k : obj)
  (w : World St) (r : outcome value) (w' : World St) :
  project_key (s_key schema) key = Return k ->
  get Date_parse clock client schema key w = (r, w') ->
  exists ro,
    new_events w w' = [EvGet (mkGet (tableName schema) k) ro] /\
    (forall a, In a (keys k) ->
       hashKey (s_key schema) = Some a \/ rangeKey (s_key schema) = Some a) /\
    (forall a v, assoc a k = Some v -> js_get key a = Return v) /\
    (forall out, ro = Return out -> Item out = None ->
       r = Return VNull /\ w_tick w' = w_tick w) /\
    (forall err, ro = Throw err -> r = Throw err).
Proof.
  intros Hk H. unfold get in H. rewrite Hk in H.
  unfold bind at 1, lift in H.
  unfold bind at 1, call in H.
  destruct (c_get client (mkGet (tableName schema) k) (w_store w)) as [ro s'] eqn:Ec.
  exists ro.
  assert (Hev : w_trace w' = (w_trace w ++ [EvGet (mkGet (tableName schema) k) ro])%list).
  { destruct ro as [out|err].
    - destruct (Item out) as [item|].
      + match type of H with
        | ?m ?w0 = _ => assert (Hm : emits no_event m)
        end.
        { apply emits_bind; [apply emits_lift|intros parsed].
          apply emits_bind; [|intros; apply emits_ret].
          unfold NewModel_constructor.
          apply emits_bind; [apply init_defaults_emits|intros; apply emits_ret]. }
        now rewrite (emits_nothing _ _ _ _ _ _ Hm H).
      + now injection H as _ <-.
    - now injection H as _ <-. }
  split; [now apply new_events_app|].
  split; [exact (project_key_keys _ key k Hk)|].
  split; [exact (project_key_values _ key k Hk)|].
  split.
  - intros out -> Hnone. rewrite Hnone in H. now injection H as <- <-.
  - intros err ->. now injection H as <- _.
Qed.

(** X9.  [get] and the store.  When the key attributes can be read from
    [key], [get] calls the store once, with a request on the table of the
    schema whose key holds attributes of the primary key only, each with
    the value [key] has for it; whatever else [key] holds is not sent.
    When the store has no item, the result is [null] and the clock is not
    read; when the store rejects the call, so does [get]. *)
Theorem get_asks_primary_key (schema : Schema) (key : value) (k : obj)
  (w : World St) (r : outcome value) (w' : World St) :
  project_key (s_key schema) key = Return k ->
  get Date_parse clock client schema key w = (r, w') ->
  exists ro,
    new_events w w' = [EvGet (mkGet (tableName schema) k) ro] /\
    (forall a, In a (keys k) ->
       hashKey (s_key schema) = Some a \/ rangeKey (s_key schema) = Some a) /\
    (forall a v, assoc a k = Some v -> js_get key a = Return v) /\
    (forall out, ro = Return out -> Item out = None ->
       r = Return VNull /\ w_tick w' = w_tick w) /\
    (forall err, ro = Throw err -> r = Throw err).
Proof. intros Hk H. exact (get_run schema key k w r w' Hk H). Qed.

Lemma resolve_relations_free (orm : Registry) (ps : list (string * PropertyDesc)) :
  (forall k prop, In (k, prop) ps -> has_ref prop = false) ->
  forall data w,
  resolve_relations Date_parse clock client orm ps data w = (Return data, w).
Proof.
  induction ps as [|[k prop] t IH]; intros Hfree data w; [reflexivity|].
  cbn [resolve_relations]. unfold bind.
  assert (resolve_relation Date_parse clock client orm data (k, prop) w = (Return data, w))
    as ->.
  { unfold resolve_relation. rewrite (Hfree k prop) by now left.
    destruct (negb (truthy (obj_get data k))); reflexivity. }
  apply IH. intros k0 p0 Hin. apply (Hfree k0 p0). now right.
Qed.

(** X10.  An entity the validator rejects never reaches the store.  For
    a schema without relations, when the validator reports errors on the
    data of the entity, [save] fails with a [DynormError] made from the
    errors; no query and no put is sent and the clock is not read. *)
Theorem save_rejects_invalid (orm : Registry) (schema : Schema) (e : Entity)
  (errs : list value) (w : World St) :
  relation_free schema ->
  s_validate schema (_data e) = Some errs ->
  save Date_parse ToNumber_string clock client orm schema e w
  = (Throw (DynormError (errors_message errs)), w).
Proof.
  intros Hfree Hv. unfold save. unfold bind at 1.
  rewrite (resolve_relations_free orm (properties schema) Hfree).
  unfold bind at 1. unfold check_valid. now rewrite Hv.
Qed.

(** The stages of a run of [save], one after the other. *)
Lemma save_inv (orm : Registry) (schema : Schema) (e : Entity)
  (w : World St) (r : outcome Entity) (w' : World St) :
  save Date_parse ToNumber_string clock client orm schema e w = (r, w') ->
  (exists err,
     resolve_relations Date_parse clock client orm (properties schema) (_data e) w
     = (Throw err, w') /\ r = Throw err) \/
  exists data1 w1,
    resolve_relations Date_parse clock client orm (properties schema) (_data e) w
    = (Return data1, w1) /\
    ((exists err, r = Throw err /\ w' = w1) \/
     s_validate schema data1 = None /\
     ((exists err,
         check_unique_indexes client schema (mkEntity (_isNew e) data1 (orig e))
           (indexes schema) w1 = (Throw err, w') /\ r = Throw err) \/
      exists w2 data2 w3,
        check_unique_indexes client schema (mkEntity (_isNew e) data1 (orig e))
          (indexes schema) w1 = (Return tt, w2) /\
        set_timestamps clock schema (mkEntity (_isNew e) data1 (orig e)) w2
        = (Return data2, w3) /\
        w_trace w3 = w_trace w2 /\
        ((exists err, r = Throw err /\ w_trace w' = w_trace w3) \/
         exists item params w4 ro s',
           toDynamo schema data2 = Return item /\
           apply_version ToNumber_string clock schema (mkEntity (_isNew e) data2 (orig e))
             (mkPut (tableName schema) item None None None) w3 = (Return params, w4) /\
           w_trace w4 = w_trace w3 /\
           c_put client (guard_new schema (mkEntity (_isNew e) data2 (orig e)) params)
             (w_store w4) = (ro, s') /\
           w' = mkWorld s' (w_tick w4)
                  (w_trace w4 ++
                   [EvPut (guard_new schema (mkEntity (_isNew e) data2 (orig e)) params) ro]) /\
           r = match ro with
               | Return _ => Return (mkEntity (_isNew e) data2 (orig e))
               | Throw err => Throw err
               end))).
Proof.
  unfold save. intros H.
  apply bind_inv in H. destruct H as [(err & E & ->)|(data1 & w1 & E1 & H)].
  { left. eauto. }
  right. exists data1, w1. split; [exact E1|].
  apply bind_inv in H. destruct H as [(err & E & ->)|([] & w1' & E2 & H)].
  { left. exists err. split; [reflexivity|].
    unfold check_valid in E. destruct (s_validate schema data1); now injection E. }
  right. unfold check_valid in E2.
  destruct (s_validate schema data1) eqn:Ev; [discriminate|]. injection E2 as <-.
  split; [reflexivity|].
  apply bind_inv in H. destruct H as [(err & E & ->)|([] & w2 & E3 & H)].
  { left. eauto. }
  right.
  apply bind_inv in H. destruct H as [(err & E & ->)|(data2 & w3 & E4 & H)].
  { exfalso. unfold set_timestamps in E.
    destruct (timestamps schema); [|discriminate].
    cbn [_isNew] in E. destruct (_isNew e); discriminate. }
  exists w2, data2, w3. split; [exact E3|]. split; [exact E4|].
  split; [exact (emits_nothing _ _ _ _ _ _ (set_timestamps_emits clock St no_event schema _) E4)|].
  apply bind_inv in H. destruct H as [(err & E & ->)|(item & w3' & E5 & H)].
  { left. exists err. split; [reflexivity|]. now injection E as _ <-. }
  injection E5 as E5 <-.
  apply bind_inv in H. destruct H as [(err & E & ->)|(params & w4 & E6 & H)].
  { left. exists err. split; [reflexivity|].
    exact (emits_nothing _ _ _ _ _ _
             (apply_version_emits ToNumber_string clock St no_event schema _ _) E). }
  right.
  pose proof (emits_nothing _ _ _ _ _ _
                (apply_version_emits ToNumber_string clock St no_event schema _ _) E6) as T4.
  unfold bind, call in H.
  destruct (c_put client _ (w_store w4)) as [ro s'] eqn:Ec.
  exists item, params, w4, ro, s'.
  split; [exact E5|]. split; [exact E6|]. split; [exact T4|]. split; [exact Ec|].
  destruct ro as [[]|err]; unfold ret in H; injection H as <- <-; auto.
Qed.

Lemma init_defaults_forward (ps : list (string * PropertyDesc)) :
  forall data, ticks_forward (init_defaults Date_parse clock (St:=St) ps data).
Proof.
  induction ps as [|[k prop] t IH]; intros data; cbn [init_defaults].
  - apply forward_ret.
  - apply forward_bind; [|intros; apply IH].
    unfold init_default. repeat forward_step.
Qed.

Lemma get_forward (schema : Schema) (key : value) :
  ticks_forward (get Date_parse clock client schema key).
Proof.
  unfold get. apply forward_bind; [apply forward_lift|intros k].
  apply forward_bind; [apply forward_call|intros out].
  destruct (Item out); [|apply forward_ret].
  apply forward_bind; [apply forward_lift|intros parsed].
  apply forward_bind; [|intros; apply forward_ret].
  unfold NewModel_constructor.
  apply forward_bind; [apply init_defaults_forward|intros; apply forward_ret].
Qed.

Lemma resolve_relations_forward (orm : Registry) (ps : list (string * PropertyDesc)) :
  forall data, ticks_forward (resolve_relations Date_parse clock client orm ps data).
Proof.
  induction ps as [|[k prop] t IH]; intros data; cbn [resolve_relations].
  - apply forward_ret.
  - apply forward_bind; [|intros; apply IH].
    unfold resolve_relation.
    destruct (negb (truthy (obj_get data k))); [apply forward_ret|].
    destruct (negb (has_ref prop)); [apply forward_ret|].
    destruct (obj_get data k); try apply forward_ret;
      (destruct (assoc (name_of (p_ref prop)) orm); [|apply forward_throw];
       apply forward_bind; [apply get_forward|intros r];
       destruct (negb (truthy r)); [apply forward_throw|apply forward_ret]).
Qed.

Lemma check_unique_indexes_forward (schema : Schema) (e : Entity)
  (ixs : list (string * IndexDesc)) :
  ticks_forward (check_unique_indexes client schema e ixs).
Proof.
  induction ixs as [|[k ix] t IH]; cbn [check_unique_indexes].
  - apply forward_ret.
  - apply forward_bind; [|intros; apply IH].
    unfold check_unique_index. repeat forward_step.
Qed.

Lemma guard_new_frame (schema : Schema) (e : Entity) (params : PutParams) :
  put_TableName (guard_new schema e params) = put_TableName params /\
  put_Item (guard_new schema e params) = put_Item params /\
  put_ExpressionAttributeValues (guard_new schema e params)
  = put_ExpressionAttributeValues params /\
  (_isNew e = false -> guard_new schema e params = params).
Proof.
  unfold guard_new. destruct (_isNew e).
  - destruct (opt_str_truthy (rangeKey (s_key schema))); repeat split; discriminate.
  - repeat split.
Qed.

Lemma tested_version_inv (schema : Schema) (ver : string) :
  tested_version schema = Some ver ->
  version schema = Some ver /\ str_truthy ver = true.
Proof.
  unfold tested_version. destruct (version schema) as [k|]; [|discriminate].
  destruct (str_truthy k) eqn:E; [|discriminate]. now intros [= <-].
Qed.

Lemma apply_version_frame (schema : Schema) (e : Entity) (p : PutParams)
  (w : World St) (params : PutParams) (w' : World St) :
  apply_version ToNumber_string clock schema e p w = (Return params, w') ->
  put_TableName params = put_TableName p /\
  (forall a, tested_version schema <> Some a ->
     assoc a (put_Item params) = assoc a (put_Item p)).
Proof.
  unfold apply_version, tested_version.
  destruct (version schema) as [ver|]; [|now intros [= <- _]].
  destruct (str_truthy ver); cbn [negb]; [|now intros [= <- _]].
  destruct (assoc ver (properties schema)) as [prop|]; [|now intros [= <- _]].
  assert (Hset : forall x a, Some ver <> Some a ->
            assoc a (obj_set (put_Item p) ver x) = assoc a (put_Item p)).
  { intros x a Hne. rewrite assoc_obj_set. destruct (String.eqb a ver) eqn:E; [|reflexivity].
    apply String.eqb_eq in E. congruence. }
  destruct (truthy (obj_get (orig e) ver)).
  - destruct (is_integer prop).
    + intros [= <- _]. split; [reflexivity|]. apply Hset.
    + destruct (is_date_time prop); [|discriminate].
      destruct (obj_get (orig e) ver); try discriminate.
      unfold bind, Date_now, ret. intros [= <- _]. split; [reflexivity|]. apply Hset.
  - destruct (is_undefined (obj_get (put_Item p) ver)); [|now intros [= <- _]].
    destruct (is_integer prop).
    + intros [= <- _]. split; [reflexivity|]. apply Hset.
    + destruct (is_date_time prop); [|discriminate].
      unfold bind, Date_now, ret. intros [= <- _]. split; [reflexivity|]. apply Hset.
Qed.

(** The events of a run of [save] that returns, with the request of the
    put and the data of the entity at that point. *)
Lemma save_returns (orm : Registry) (schema : Schema) (e : Entity)
  (w : World St) (e' : Entity) (w' : World St) :
  save Date_parse ToNumber_string clock client orm schema e w = (Return e', w') ->
  exists (data1 : obj) (w1 w2 w3 : World St) item params (w4 : World St) evs,
    resolve_relations Date_parse clock client orm (properties schema) (_data e) w
    = (Return data1, w1) /\
    check_unique_indexes client schema (mkEntity (_isNew e) data1 (orig e))
      (indexes schema) w1 = (Return tt, w2) /\
    set_timestamps clock schema (mkEntity (_isNew e) data1 (orig e)) w2
    = (Return (_data e'), w3) /\
    e' = mkEntity (_isNew e) (_data e') (orig e) /\
    toDynamo schema (_data e') = Return item /\
    apply_version ToNumber_string clock schema e'
      (mkPut (tableName schema) item None None None) w3 = (Return params, w4) /\
    new_events w w' = (evs ++ [EvPut (guard_new schema e' params) (Return tt)])%list /\
    Forall (fun ev => is_get ev \/ is_query ev) evs.
Proof.
  intros H. apply save_inv in H.
  destruct H as [(err & _ & Hx)|(data1 & w1 & E1 & H)]; [discriminate|].
  destruct H as [(err & Hx & _)|(Ev & H)]; [discriminate|].
  destruct H as [(err & _ & Hx)|(w2 & data2 & w3 & E3 & E4 & T3 & H)]; [discriminate|].
  destruct H as [(err & Hx & _)|(item & params & w4 & ro & s' & E5 & E6 & T4 & Ec & -> & Hr)];
    [discriminate|].
  destruct ro as [[]|err]; [|discriminate]. injection Hr as Hr. subst e'.
  destruct (resolve_relations_emits Date_parse clock St client orm (properties schema)
              (_data e) w _ w1 E1) as (evs1 & T1 & F1).
  destruct (check_unique_indexes_spec St client schema _ (indexes schema) w1 _ w2 E3)
    as (evs2 & T2 & F2 & _).
  exists data1, w1, w2, w3, item, params, w4, (evs1 ++ evs2)%list.
  cbn [_data _isNew orig].
  split; [exact E1|]. split; [exact E3|]. split; [exact E4|]. split; [reflexivity|].
  split; [exact E5|]. split; [exact E6|]. split.
  - apply new_events_app. cbn [w_trace]. rewrite T4, T3, T2, T1.
    now rewrite !app_assoc.
  - apply Forall_app. split.
    + eapply Forall_impl; [|exact F1]. intros ev Hev. now left.
    + eapply Forall_impl; [|exact F2]. intros ev Hev. now right.
Qed.

(** X11.  [save] returns only after the store has accepted a put.  In a
    run that returns, the put is the last call, it is the only one, the
    calls before it are the gets of relation resolution and the queries
    of the unique indexes; the request is on the table of the schema and
    its item is the record [toDynamo] makes of the data of the returned
    entity, the version attribute apart. *)
Theorem save_returns_after_put (orm : Registry) (schema : Schema) (e : Entity)
  (w : World St) (e' : Entity) (w' : World St) :
  save Date_parse ToNumber_string clock client orm schema e w = (Return e', w') ->
  exists evs p item,
    new_events w w' = (evs ++ [EvPut p (Return tt)])%list /\
    Forall (fun ev => is_get ev \/ is_query ev) evs /\
    toDynamo schema (_data e') = Return item /\
    put_TableName p = tableName schema /\
    (forall a, tested_version schema <> Some a ->
       assoc a (put_Item p) = assoc a item).
Proof.
  intros H.
  destruct (save_returns orm schema e w e' w' H)
    as (data1 & w1 & w2 & w3 & item & params & w4 & evs & _ & _ & _ & _ & E5 & E6 & Hev & F).
  exists evs, (guard_new schema e' params), item.
  split; [exact Hev|]. split; [exact F|]. split; [exact E5|].
  destruct (guard_new_frame schema e' params) as (G1 & G2 & _).
  destruct (apply_version_frame schema e' _ w3 params w4 E6) as (A1 & A2).
  rewrite G1, G2. split; [exact A1|exact A2].
Qed.

(** X12.  Optimistic locking on an integer version, as [save] asks for
    it.  In a run that returns, for a schema whose version property is an
    integer: when the snapshot taken at construction holds a truthy
    version, the item put carries the version of the record plus one, and
    the request binds the version of the snapshot to the placeholder of
    the version; for an entity that is not new the condition of the put is
    that the stored version equals that placeholder.  When the snapshot
    has no version, the item carries 1 if the record has none, and the
    version of the record otherwise. *)
Theorem save_integer_version (orm : Registry) (schema : Schema) (e : Entity)
  (ver : string) (prop : PropertyDesc) (w : World St) (e' : Entity) (w' : World St) :
  tested_version schema = Some ver ->
  assoc ver (properties schema) = Some prop ->
  is_integer prop = true ->
  save Date_parse ToNumber_string clock client orm schema e w = (Return e', w') ->
  exists evs p item,
    new_events w w' = (evs ++ [EvPut p (Return tt)])%list /\
    toDynamo schema (_data e') = Return item /\
    if truthy (obj_get (orig e) ver) then
      obj_get (put_Item p) ver = js_incr ToNumber_string (obj_get item ver) /\
      assoc (":" ++ ver) (or_empty (put_ExpressionAttributeValues p))
      = Some (obj_get (orig e) ver) /\
      (_isNew e = false ->
       put_ConditionExpression p = Some ("#" ++ ver ++ " = :" ++ ver) /\
       assoc ("#" ++ ver) (or_empty (put_ExpressionAttributeNames p)) = Some (VStr ver))
    else
      obj_get (put_Item p) ver
      = (if is_undefined (obj_get item ver) then VNum 1 else obj_get item ver) /\
      (_isNew e = false -> put_ConditionExpression p = None).
Proof.
  intros Hv Hp Hi H.
  destruct (save_returns orm schema e w e' w' H)
    as (data1 & w1 & w2 & w3 & item & params & w4 & evs & _ & _ & _ & He' & E5 & E6 & Hev & _).
  exists evs, (guard_new schema e' params), item.
  split; [exact Hev|]. split; [exact E5|].
  destruct (guard_new_frame schema e' params) as (_ & G2 & G3 & G4).
  assert (Hnew : _isNew e' = _isNew e) by (rewrite He'; reflexivity).
  assert (Horig : orig e' = orig e) by (rewrite He'; reflexivity).
  rewrite G2, G3. rewrite Hnew in G4.
  destruct (tested_version_inv schema ver Hv) as [Hver Htr].
  unfold apply_version in E6. rewrite Hver, Htr, Hp, Hi, Horig in E6.
  cbn [negb put_Item put_TableName put_ConditionExpression
       put_ExpressionAttributeNames put_ExpressionAttributeValues] in E6.
  destruct (truthy (obj_get (orig e) ver)).
  - injection E6 as <- _.
    cbn [put_Item put_ExpressionAttributeValues or_empty].
    split; [apply obj_get_set_same|].
    split; [unfold obj_set; apply assoc_set_same|].
    intros Hold. rewrite (G4 Hold).
    cbn [put_ConditionExpression put_ExpressionAttributeNames or_empty].
    split; [reflexivity|]. unfold obj_set. apply assoc_set_same.
  - destruct (is_undefined (obj_get item ver)).
    + injection E6 as <- _. cbn [put_Item]. split; [apply obj_get_set_same|].
      intros Hold. now rewrite (G4 Hold).
    + injection E6 as <- _. cbn [put_Item]. split; [reflexivity|].
      intros Hold. now rewrite (G4 Hold).
Qed.

(** X13.  Timestamps.  In a run of [save] that returns, for a schema with
    timestamps: a new entity leaves with [createdAt] and [updatedAt] set
    to two consecutive readings of the clock; an entity that is not new
    leaves with both as the snapshot taken at construction had them, so
    [updatedAt] does not advance on an update. *)
Theorem save_timestamps (orm : Registry) (schema : Schema) (e : Entity)
  (w : World St) (e' : Entity) (w' : World St) :
  timestamps schema = true ->
  save Date_parse ToNumber_string clock client orm schema e w = (Return e', w') ->
  if _isNew e then
    exists i, (w_tick w <= i)%nat /\
      obj_get (_data e') "createdAt" = VDate (Some (clock i)) /\
      obj_get (_data e') "updatedAt" = VDate (Some (clock (S i)))
  else
    obj_get (_data e') "createdAt" = obj_get (orig e) "createdAt" /\
    obj_get (_data e') "updatedAt" = obj_get (orig e) "updatedAt".
Proof.
  intros Hts H.
  destruct (save_returns orm schema e w e' w' H)
    as (data1 & w1 & w2 & w3 & item & params & w4 & evs & E1 & E3 & E4 & _).
  unfold set_timestamps in E4. rewrite Hts in E4. cbn [_isNew _data orig] in E4.
  assert (Hget : forall d x y,
            obj_get (obj_set (obj_set d "createdAt" x) "updatedAt" y) "createdAt" = x /\
            obj_get (obj_set (obj_set d "createdAt" x) "updatedAt" y) "updatedAt" = y).
  { intros d x y. split.
    - rewrite obj_get_set_other by discriminate. apply obj_get_set_same.
    - apply obj_get_set_same. }
  destruct (_isNew e).
  - unfold bind, Date_now, ret in E4. cbn [fst snd w_tick] in E4.
    injection E4 as <- _. exists (w_tick w2). split; [|apply Hget].
    exact (Nat.le_trans _ _ _
             (resolve_relations_forward orm (properties schema) (_data e) w _ w1 E1)
             (check_unique_indexes_forward schema _ (indexes schema) w1 _ w2 E3)).
  - injection E4 as <- _. apply Hget.
Qed.

(** X14.  What [save] leaves of the instance.  In a run that returns,
    the entity comes back with its new flag and its snapshot as they were,
    and with its data unchanged under every attribute that is neither a
    relation nor, for a schema with timestamps, one of the two timestamps.
    In particular the version the item was put with is not written back
    to the entity, and an entity that was new is still flagged new. *)
Theorem save_leaves_instance (orm : Registry) (schema : Schema) (e : Entity)
  (w : World St) (e' : Entity) (w' : World St) :
  save Date_parse ToNumber_string clock client orm schema e w = (Return e', w') ->
  _isNew e' = _isNew e /\ orig e' = orig e /\
  forall a,
    (forall prop, In (a, prop) (properties schema) -> has_ref prop = false) ->
    (timestamps schema = true -> a <> "createdAt" /\ a <> "updatedAt") ->
    obj_get (_data e') a = obj_get (_data e) a.
Proof.
  intros H.
  destruct (save_returns orm schema e w e' w' H)
    as (data1 & w1 & w2 & w3 & item & params & w4 & evs & E1 & _ & E4 & He' & _).
  split; [rewrite He'; reflexivity|]. split; [rewrite He'; reflexivity|].
  intros a Hrel Hts.
  rewrite <- (resolve_relations_frame Date_parse clock St client orm (properties schema)
                a Hrel _ _ _ _ E1).
  unfold set_timestamps in E4. cbn [_isNew _data orig] in E4.
  destruct (timestamps schema).
  - destruct (Hts eq_refl) as [Hc Hu].
    destruct (_isNew e).
    + unfold bind, Date_now, ret in E4. cbn [fst snd] in E4. injection E4 as <- _.
      now rewrite !obj_get_set_other.
    + injection E4 as <- _. now rewrite !obj_get_set_other.
  - now injection E4 as <- _.
Qed.

Lemma get_missing (schema : Schema) (key : value) (w : World St) (r : outcome value)
  (w' : World St) :
  get Date_parse clock client schema key w = (r, w') ->
  forall p out, In (EvGet p (Return out)) (new_events w w') -> Item out = None ->
    r = Return VNull.
Proof.
  intros H p out Hin Hnone.
  destruct (project_key (s_key schema) key) as [k|err] eqn:Ek.
  - destruct (get_run schema key k w r w' Ek H) as (ro & Hev & _ & _ & Hnull & _).
    rewrite Hev in Hin. destruct Hin as [Hin|[]]. injection Hin as _ Hro.
    exact (proj1 (Hnull out Hro Hnone)).
  - unfold get in H. rewrite Ek in H. unfold bind, lift in H. injection H as _ <-.
    unfold new_events in Hin. rewrite skipn_all in Hin. destruct Hin.
Qed.

Lemma new_events_split (w w1 w' : World St) (evs1 evs2 : list event) :
  w_trace w1 = (w_trace w ++ evs1)%list ->
  w_trace w' = (w_trace w1 ++ evs2)%list ->
  new_events w w1 = evs1 /\ new_events w1 w' = evs2 /\
  new_events w w' = (evs1 ++ evs2)%list.
Proof.
  intros T1 T2. split; [now apply new_events_app|]. split; [now apply new_events_app|].
  apply new_events_app. rewrite T2, T1. now rewrite app_assoc.
Qed.

Lemma resolve_relations_missing (orm : Registry) (ps : list (string * PropertyDesc)) :
  forall data w r w',
  resolve_relations Date_parse clock client orm ps data w = (r, w') ->
  forall p out, In (EvGet p (Return out)) (new_events w w') -> Item out = None ->
    exists k prop, In (k, prop) ps /\ has_ref prop = true /\
      r = Throw (DynormError ("Relation " ++ k ++ " not exist")).
Proof.
  induction ps as [|[k prop] t IH]; intros data w r w' H p out Hin Hnone.
  - injection H as _ <-. unfold new_events in Hin. rewrite skipn_all in Hin. destruct Hin.
  - cbn [resolve_relations] in H.
    assert (Hone : forall r1 w1,
      resolve_relation Date_parse clock client orm data (k, prop) w = (r1, w1) ->
      In (EvGet p (Return out)) (new_events w w1) ->
      has_ref prop = true /\
      r1 = Throw (DynormError ("Relation " ++ k ++ " not exist"))).
    { intros r1 w1 E Hin1. unfold resolve_relation in E.
      assert (Hnil : forall (x : outcome obj), (x, w) = (r1, w1) -> False).
      { intros x Hx. injection Hx as _ <-. unfold new_events in Hin1.
        rewrite skipn_all in Hin1. destruct Hin1. }
      destruct (negb (truthy (obj_get data k))); [destruct (Hnil _ E)|].
      destruct (has_ref prop); cbn [negb] in E; [|destruct (Hnil _ E)].
      split; [reflexivity|].
      destruct (obj_get data k) eqn:Ev; try (destruct (Hnil _ E));
        (destruct (assoc (name_of (p_ref prop)) orm) as [refSchema|];
         [|destruct (Hnil _ E)];
         apply bind_inv in E; destruct E as [(err & E & ->)|(v & w2 & E & E')];
         [pose proof (get_missing _ _ _ _ _ E p out Hin1 Hnone); discriminate|];
         assert (w1 = w2) as ->
           by (destruct (negb (truthy v)); now injection E' as _ <-);
         pose proof (get_missing _ _ _ _ _ E p out Hin1 Hnone) as Hv;
         injection Hv as ->; cbn [truthy negb] in E'; unfold throw in E';
         injection E' as <-; reflexivity). }
    apply bind_inv in H. destruct H as [(err & E & ->)|(data1 & w1 & E & H)].
    + destruct (Hone _ _ E Hin) as [Href Hr]. exists k, prop.
      split; [now left|]. split; [exact Href|]. exact Hr.
    + destruct (resolve_relation_emits Date_parse clock St client orm data (k, prop)
                  w _ w1 E) as (evs1 & T1 & _).
      destruct (resolve_relations_emits Date_parse clock St client orm t data1
                  w1 _ w' H) as (evs2 & T2 & _).
      destruct (new_events_split w w1 w' evs1 evs2 T1 T2) as (N1 & N2 & N).
      rewrite N in Hin. apply in_app_or in Hin. destruct Hin as [Hin|Hin].
      * rewrite <- N1 in Hin. destruct (Hone _ _ E Hin) as [_ Hx]. discriminate.
      * rewrite <- N2 in Hin.
        destruct (IH data1 w1 r w' H p out Hin Hnone) as (k0 & p0 & Hin0 & Hr0).
        exists k0, p0. split; [now right|exact Hr0].
Qed.

(** X15.  A relation that does not exist stops [save].  In any run of
    [save], if the store answers a get of the run without an item, [save]
    fails with the [DynormError] of line 337 naming a relation property of
    the schema. *)
Theorem save_missing_relation (orm : Registry) (schema : Schema) (e : Entity)
  (w : World St) (r : outcome Entity) (w' : World St) :
  save Date_parse ToNumber_string clock client orm schema e w = (r, w') ->
  forall p out, In (EvGet p (Return out)) (new_events w w') -> Item out = None ->
    exists k prop, In (k, prop) (properties schema) /\ has_ref prop = true /\
      r = Throw (DynormError ("Relation " ++ k ++ " not exist")).
Proof.
  intros H p out Hin Hnone.
  apply save_inv in H.
  destruct H as [(err & E & ->)|(data1 & w1 & E1 & H)].
  { destruct (resolve_relations_missing orm (properties schema) _ _ _ _ E p out Hin Hnone)
      as (k & prop & Hk & Href & Hr).
    exists k, prop. split; [exact Hk|]. split; [exact Href|].
    injection Hr as ->. reflexivity. }
  exfalso.
  destruct (resolve_relations_emits Date_parse clock St client orm (properties schema)
              (_data e) w _ w1 E1) as (evs1' & T1 & _).
  assert (Hrest : exists rest, w_trace w' = (w_trace w1 ++ rest)%list /\
                    Forall (fun ev => ~ is_get ev) rest).
  { destruct H as [(err & _ & ->)|(_ & H)].
    { exists []. split; [now rewrite app_nil_r|constructor]. }
    destruct H as [(err & E & _)|(w2 & data2 & w3 & E3 & _ & T3 & H)].
    { destruct (check_unique_indexes_spec St client schema _ (indexes schema) w1 _ w' E)
        as (evs & Tq & Fq & _).
      exists evs. split; [exact Tq|].
      eapply Forall_impl; [|exact Fq]. intros [] Hq Hg; assumption. }
    destruct (check_unique_indexes_spec St client schema _ (indexes schema) w1 _ w2 E3)
      as (evs & Tq & Fq & _).
    assert (Fq' : Forall (fun ev => ~ is_get ev) evs).
    { eapply Forall_impl; [|exact Fq]. intros [] Hq Hg; assumption. }
    destruct H as [(err & _ & T')|(item & params & w4 & ro & s' & _ & _ & T4 & _ & -> & _)].
    { exists evs. split; [congruence|exact Fq']. }
    exists (evs ++ [EvPut (guard_new schema (mkEntity (_isNew e) data2 (orig e)) params)
                      ro])%list.
    cbn [w_trace]. split; [rewrite T4, T3, Tq; now rewrite app_assoc|].
    apply Forall_app. split; [exact Fq'|]. repeat constructor. intros []. }
  destruct Hrest as (rest & T2 & Frest).
  destruct (new_events_split w w1 w' evs1' rest T1 T2) as (N1 & _ & N).
  rewrite N in Hin. apply in_app_or in Hin. destruct Hin as [Hin|Hin].
  - rewrite <- N1 in Hin.
    destruct (resolve_relations_missing orm (properties schema) _ _ _ _ E1 p out Hin Hnone)
      as (k & prop & _ & _ & Hx). discriminate.
  - rewrite Forall_forall in Frest. exact (Frest _ Hin I).
Qed.

End MoreSave.

Lemma get_asks_primary_key_witness :
  exists r w' ro,
    get Examples.no_parse Examples.clock0 MemStore.client Examples.user_schema
      (VObj [("id", VStr "zz"); ("email", VStr "q")])
      (Examples.world Examples.users_with_u1) = (r, w') /\
    new_events (Examples.world Examples.users_with_u1) w'
    = [EvGet (mkGet "users" [("id", VStr "zz")]) ro] /\
    r = Return VNull.
Proof.
  destruct (get Examples.no_parse Examples.clock0 MemStore.client Examples.user_schema
              (VObj [("id", VStr "zz"); ("email", VStr "q")])
              (Examples.world Examples.users_with_u1)) as [r w'] eqn:E.
  destruct (get_asks_primary_key Examples.no_parse Examples.clock0 MemStore.Store
              MemStore.client Examples.user_schema
              (VObj [("id", VStr "zz"); ("email", VStr "q")]) [("id", VStr "zz")]
              (Examples.world Examples.users_with_u1) r w' eq_refl E)
    as (ro & Hev & _ & _ & Hnull & _).
  exists r, w', ro. split; [reflexivity|]. split; [exact Hev|].
  vm_compute in E. injection E as <- <-. reflexivity.
Defined.

Lemma save_rejects_invalid_witness :
  save Examples.no_parse Examples.nan_of_string Examples.clock0 MemStore.client []
    Cases.strict_schema Examples.u1 (Examples.world Examples.empty_users)
  = (Throw (DynormError "[object Object],[object Object]"),
     Examples.world Examples.empty_users).
Proof.
  apply (save_rejects_invalid Examples.no_parse Examples.nan_of_string Examples.clock0
           MemStore.Store MemStore.client [] Cases.strict_schema Examples.u1
           [VObj []; VObj []] (Examples.world Examples.empty_users)).
  - exact user_relation_free.
  - reflexivity.
Defined.

Lemma save_returns_after_put_witness :
  exists e' w' evs p item,
    save Examples.no_parse Examples.nan_of_string Examples.clock0 MemStore.client []
      Examples.user_schema Examples.u1 (Examples.world Examples.empty_users)
    = (Return e', w') /\
    new_events (Examples.world Examples.empty_users) w'
    = (evs ++ [EvPut p (Return tt)])%list /\
    toDynamo Examples.user_schema (_data e') = Return item /\
    put_TableName p = "users" /\
    assoc "email" (put_Item p) = assoc "email" item.
Proof.
  destruct (save Examples.no_parse Examples.nan_of_string Examples.clock0 MemStore.client []
              Examples.user_schema Examples.u1 (Examples.world Examples.empty_users))
    as [[e'|err] w'] eqn:E; [|vm_compute in E; discriminate].
  destruct (save_returns_after_put Examples.no_parse Examples.nan_of_string Examples.clock0
              MemStore.Store MemStore.client [] Examples.user_schema Examples.u1
              (Examples.world Examples.empty_users) e' w' E)
    as (evs & p & item & Hev & _ & Ht & Htab & Hitem).
  exists e', w', evs, p, item. split; [reflexivity|]. split; [exact Hev|].
  split; [exact Ht|]. split; [exact Htab|]. apply Hitem. discriminate.
Defined.

Lemma save_integer_version_witness :
  exists e' w' evs p,
    save Examples.no_parse Examples.nan_of_string Examples.clock0 MemStore.client []
      Examples.user_schema Cases.loaded (Examples.world Examples.users_with_u1)
    = (Return e', w') /\
    new_events (Examples.world Examples.users_with_u1) w'
    = (evs ++ [EvPut p (Return tt)])%list /\
    obj_get (put_Item p) "version" = VNum 2 /\
    assoc ":version" (or_empty (put_ExpressionAttributeValues p)) = Some (VNum 1) /\
    put_ConditionExpression p = Some "#version = :version".
Proof.
  destruct (save Examples.no_parse Examples.nan_of_string Examples.clock0 MemStore.client []
              Examples.user_schema Cases.loaded (Examples.world Examples.users_with_u1))
    as [[e'|err] w'] eqn:E; [|vm_compute in E; discriminate].
  destruct (save_integer_version Examples.no_parse Examples.nan_of_string Examples.clock0
              MemStore.Store MemStore.client [] Examples.user_schema Cases.loaded
              "version" Examples.version_prop (Examples.world Examples.users_with_u1)
              e' w' eq_refl eq_refl eq_refl E)
    as (evs & p & item & Hev & Ht & Hv).
  cbn [Cases.loaded orig Examples.stored_u1 obj_get assoc String.eqb Ascii.eqb Bool.eqb
       truthy Z.eqb negb] in Hv.
  destruct Hv as (Hitem & Hval & Hcond).
  destruct (Hcond eq_refl) as [Hc _].
  exists e', w', evs, p. split; [reflexivity|]. split; [exact Hev|].
  split; [|split; [exact Hval|exact Hc]].
  rewrite Hitem. vm_compute in E. injection E as <- <-.
  vm_compute in Ht. injection Ht as <-. reflexivity.
Defined.

Lemma save_timestamps_witness :
  exists e' w',
    save Examples.no_parse Examples.nan_of_string Examples.clock0 MemStore.client []
      Examples.user_schema Examples.u1 (Examples.world Examples.empty_users)
    = (Return e', w') /\
    exists i,
      obj_get (_data e') "createdAt" = VDate (Some (Examples.clock0 i)) /\
      obj_get (_data e') "updatedAt" = VDate (Some (Examples.clock0 (S i))).
Proof.
  destruct (save Examples.no_parse Examples.nan_of_string Examples.clock0 MemStore.client []
              Examples.user_schema Examples.u1 (Examples.world Examples.empty_users))
    as [[e'|err] w'] eqn:E; [|vm_compute in E; discriminate].
  exists e', w'. split; [reflexivity|].
  destruct (save_timestamps Examples.no_parse Examples.nan_of_string Examples.clock0
              MemStore.Store MemStore.client [] Examples.user_schema Examples.u1
              (Examples.world Examples.empty_users) e' w' eq_refl E)
    as (i & _ & Hc & Hu).
  exists i. split; assumption.
Defined.

Lemma save_leaves_instance_witness :
  exists e' w',
    save Examples.no_parse Examples.nan_of_string Examples.clock0 MemStore.client []
      Examples.user_schema Cases.loaded (Examples.world Examples.users_with_u1)
    = (Return e', w') /\
    _isNew e' = false /\ orig e' = Examples.stored_u1 /\
    obj_get (_data e') "version" = VNum 1.
Proof.
  destruct (save Examples.no_parse Examples.nan_of_string Examples.clock0 MemStore.client []
              Examples.user_schema Cases.loaded (Examples.world Examples.users_with_u1))
    as [[e'|err] w'] eqn:E; [|vm_compute in E; discriminate].
  exists e', w'. split; [reflexivity|].
  destruct (save_leaves_instance Examples.no_parse Examples.nan_of_string Examples.clock0
              MemStore.Store MemStore.client [] Examples.user_schema Cases.loaded
              (Examples.world Examples.users_with_u1) e' w' E) as (Hn & Ho & Hd).
  split; [exact Hn|]. split; [exact Ho|].
  rewrite (Hd "version"); [reflexivity| |].
  - intros prop Hin. exact (user_relation_free "version" prop Hin).
  - intros _. split; discriminate.
Defined.

Lemma save_missing_relation_witness :
  exists w' k prop,
    save Examples.no_parse Examples.nan_of_string Examples.clock0 MemStore.client
      [("User", Examples.user_schema)] Examples.post_schema Cases.orphan_post
      (Examples.world Cases.blog)
    = (Throw (DynormError ("Relation " ++ k ++ " not exist")), w') /\
    In (k, prop) (properties Examples.post_schema).
Proof.
  destruct (save Examples.no_parse Examples.nan_of_string Examples.clock0 MemStore.client
              [("User", Examples.user_schema)] Examples.post_schema Cases.orphan_post
              (Examples.world Cases.blog)) as [r w'] eqn:E.
  destruct (save_missing_relation Examples.no_parse Examples.nan_of_string Examples.clock0
              MemStore.Store MemStore.client [("User", Examples.user_schema)]
              Examples.post_schema Cases.orphan_post (Examples.world Cases.blog) r w' E
              (mkGet "users" [("id", VStr "u9")]) (mkGetOut None))
    as (k & prop & Hin & _ & Hr).
  - vm_compute in E. injection E as _ <-. left. reflexivity.
  - reflexivity.
  - exists w', k, prop. rewrite <- Hr. split; [reflexivity|exact Hin].
Defined.

(* ================================================================= *)
(** ** More on the bulk engine *)

Lemma items_of_set (t c : string) (l : list value) (ri : RequestItems) :
  items_of t (assoc_set c l ri) = if String.eqb t c then l else items_of t ri.
Proof.
  unfold items_of. destruct (String.eqb t c) eqn:E.
  - apply String.eqb_eq in E. subst. now rewrite assoc_set_same.
  - apply String.eqb_neq in E. now rewrite assoc_set_other.
Qed.

Lemma chunk_request_items (sl : list (string * value)) (t : string) :
  items_of t (chunk_request sl) = keys_of_table t sl.
Proof.
  unfold chunk_request, keys_of_table.
  change (map snd (filter (fun tk => String.eqb (fst tk) t) sl))
    with (items_of t [] ++ map snd (filter (fun tk => String.eqb (fst tk) t) sl))%list.
  generalize (@nil (string * list value)).
  induction sl as [|[c k] sl IH]; intros ri; cbn [fold_left filter map fst].
  - now rewrite app_nil_r.
  - rewrite IH, items_of_set. rewrite (String.eqb_sym c t).
    destruct (String.eqb t c) eqn:E.
    + apply String.eqb_eq in E. subst c. unfold items_of.
      destruct (assoc t ri); cbn [map snd app]; [now rewrite <- app_assoc|reflexivity].
    + reflexivity.
Qed.

Lemma chunk_request_NoDup (sl : list (string * value)) :
  NoDup (keys (chunk_request sl)).
Proof.
  unfold chunk_request.
  assert (H : forall ri : RequestItems, NoDup (keys ri) ->
            NoDup (keys (fold_left
                           (fun ri tk =>
                              let (t, k) := tk : string * value in
                              assoc_set t (match assoc t ri with
                                           | Some ks => (ks ++ [k])%list
                                           | None => [k]
                                           end) ri) sl ri))).
  { induction sl as [|[c k] sl IH]; intros ri Hnd; cbn [fold_left]; [exact Hnd|].
    apply IH. now apply assoc_set_keys_NoDup. }
  apply H. constructor.
Qed.

Lemma keys_of_table_app (t : string) (a b : list (string * value)) :
  keys_of_table t (a ++ b) = (keys_of_table t a ++ keys_of_table t b)%list.
Proof. unfold keys_of_table. now rewrite filter_app, map_app. Qed.

Lemma keys_of_table_concat (t : string) (ls : list (list (string * value))) :
  flat_map (keys_of_table t) ls = keys_of_table t (concat ls).
Proof.
  induction ls as [|l ls IH]; cbn [flat_map concat]; [reflexivity|].
  now rewrite keys_of_table_app, IH.
Qed.

Lemma keys_of_table_flatten (t : string) (tableKeys : RequestItems) :
  NoDup (keys tableKeys) ->
  keys_of_table t (flatten_keys tableKeys) = items_of t tableKeys.
Proof.
  unfold flatten_keys.
  induction tableKeys as [|[c l] rest IH]; intros Hnd; cbn [flat_map fst snd].
  - reflexivity.
  - inversion Hnd as [|? ? Hnotin Hnd']; subst.
    rewrite keys_of_table_app, (IH Hnd'). unfold items_of. cbn [assoc].
    assert (Hmap : keys_of_table t (map (pair c) l) = if String.eqb t c then l else []).
    { unfold keys_of_table. rewrite (String.eqb_sym t c). clear.
      induction l as [|k l IHl]; cbn [map filter fst].
      - now destruct (String.eqb c t).
      - destruct (String.eqb c t); cbn [map snd]; [now rewrite IHl|exact IHl]. }
    rewrite Hmap. destruct (String.eqb t c) eqn:E.
    + apply String.eqb_eq in E. subst c.
      rewrite (proj2 (assoc_None_keys _ t rest) Hnotin). apply app_nil_r.
    + reflexivity.
Qed.

(** X16.  Every key is asked once.  The request made from a slice has
    each table once and, under it, the keys of the slice that belong to
    the table, in the order of the slice.  Hence, for a key collection
    that names every table once, the requests of all the slices ask each
    table for exactly the keys given for it, each once and in order. *)
Theorem batchGetKeys_asks_every_key (tableKeys : RequestItems) :
  let reqs := map chunk_request (slices (flatten_keys tableKeys)) in
  (forall sl t, In sl (slices (flatten_keys tableKeys)) ->
     NoDup (keys (chunk_request sl)) /\
     items_of t (chunk_request sl) = keys_of_table t sl) /\
  (NoDup (keys tableKeys) ->
   forall t, asked t reqs = items_of t tableKeys).
Proof.
  intros reqs. split.
  - intros sl t _. split; [apply chunk_request_NoDup|apply chunk_request_items].
  - intros Hnd t. unfold asked, reqs.
    rewrite flat_map_concat_map, map_map.
    rewrite (map_ext _ (keys_of_table t)) by (intros sl; apply chunk_request_items).
    rewrite <- flat_map_concat_map, keys_of_table_concat, slices_cover.
    now apply keys_of_table_flatten.
Qed.

Lemma batchGetKeys_asks_every_key_witness :
  asked "users" (map chunk_request (slices (flatten_keys Cases.mixed_keys)))
  = [Examples.item 1; Examples.item 2] /\
  asked "posts" (map chunk_request (slices (flatten_keys Cases.mixed_keys)))
  = [Examples.item 7].
Proof.
  assert (Hnd : NoDup (keys Cases.mixed_keys)).
  { repeat constructor; simpl; intuition discriminate. }
  split.
  - exact (proj2 (batchGetKeys_asks_every_key Cases.mixed_keys) Hnd "users").
  - exact (proj2 (batchGetKeys_asks_every_key Cases.mixed_keys) Hnd "posts").
Defined.

Section MoreBulk.

Variable St : Type.
Variable client : Client St.

Lemma batchGet_rejected (fuel : nat) :
  forall req w r w',
  batchGet client fuel req w = (r, w') ->
  exists evs,
    w_trace w' = (w_trace w ++ evs)%list /\
    forall p err, In (EvBatchGet p (Throw err)) evs ->
      r = Throw err /\ exists pre, evs = (pre ++ [EvBatchGet p (Throw err)])%list.
Proof.
  induction fuel as [|fuel IH]; intros req w r w' H.
  - injection H as <- <-. exists []. split; [now rewrite app_nil_r|]. intros p err [].
  - cbn [batchGet] in H. unfold bind at 1, call in H.
    destruct (c_batchGet client req (w_store w)) as [[data|e] s'].
    + destruct (UnprocessedKeys data) as [|u us].
      * injection H as <- <-. exists [EvBatchGet req (Return data)].
        split; [reflexivity|]. intros p err [Hin|[]]. discriminate.
      * apply bind_inv in H.
        assert (Hrec : exists r2, batchGet client fuel (u :: us)
                         (mkWorld s' (w_tick w) (w_trace w ++ [EvBatchGet req (Return data)]))
                         = (r2, w') /\
                         forall err, r2 = Throw err -> r = Throw err).
        { destruct H as [(err & E & ->)|(a & w1 & E & H)].
          - exists (Throw err). split; [exact E|auto].
          - exists (Return a). split; [|discriminate].
            destruct a; unfold ret in H; injection H as _ <-; exact E. }
        destruct Hrec as (r2 & E & Hr).
        destruct (IH _ _ _ _ E) as (evs & T & Hev).
        exists (EvBatchGet req (Return data) :: evs).
        split; [cbn [w_trace] in T; rewrite T; now rewrite <- app_assoc|].
        intros p err [Hin|Hin]; [discriminate|].
        destruct (Hev p err Hin) as (-> & pre & ->).
        split; [now apply Hr|]. exists (EvBatchGet req (Return data) :: pre). reflexivity.
    + injection H as <- <-. exists [EvBatchGet req (Throw e)].
      split; [reflexivity|]. intros p err [Hin|[]]. injection Hin as <- <-.
      split; [reflexivity|]. exists []. reflexivity.
Qed.

Lemma batchGetKeys_loop_rejected (fuel : nat) (ks : list (string * value)) (steps : nat) :
  forall x i o w r w',
  batchGetKeys_loop client fuel steps x i ks o w = (r, w') ->
  exists evs,
    w_trace w' = (w_trace w ++ evs)%list /\
    forall p err, In (EvBatchGet p (Throw err)) evs ->
      r = Throw err /\ exists pre, evs = (pre ++ [EvBatchGet p (Throw err)])%list.
Proof.
  induction steps as [|steps IH]; intros x i o w r w' H.
  - injection H as <- <-. exists []. split; [now rewrite app_nil_r|]. intros p err [].
  - cbn [batchGetKeys_loop] in H.
    destruct (100 * x <? length ks)%nat.
    + apply bind_inv in H. destruct H as [(err & E & ->)|(a & w1 & E & H)].
      * exact (batchGet_rejected fuel _ _ _ _ E).
      * destruct (batchGet_rejected fuel _ _ _ _ E) as (evs1 & T1 & H1).
        assert (Hclean : forall p err, ~ In (EvBatchGet p (Throw err)) evs1).
        { intros p err Hin. destruct (H1 p err Hin) as [Hx _]. discriminate. }
        destruct a as [res|].
        -- destruct (IH _ _ _ _ _ _ H) as (evs2 & T2 & H2).
           exists (evs1 ++ evs2)%list.
           split; [rewrite T2, T1; now rewrite app_assoc|].
           intros p err Hin. apply in_app_or in Hin. destruct Hin as [Hin|Hin].
           ++ destruct (Hclean p err Hin).
           ++ destruct (H2 p err Hin) as (-> & pre & ->).
              split; [reflexivity|]. exists (evs1 ++ pre)%list. now rewrite app_assoc.
        -- injection H as <- <-. exists evs1. split; [exact T1|].
           intros p err Hin. destruct (Hclean p err Hin).
    + injection H as <- <-. exists []. split; [now rewrite app_nil_r|]. intros p err [].
Qed.

(** X17.  A rejection ends the bulk read.  In any run of [batchGetKeys],
    if the store rejects one of the calls, that call is the last one and
    [batchGetKeys] fails with the error of the store: what the earlier
    calls returned is not handed out. *)
Theorem batchGetKeys_rejected (fuel : nat) (tableKeys : RequestItems)
  (w : World St) (r : outcome (option TableItems)) (w' : World St) :
  batchGetKeys client fuel tableKeys w = (r, w') ->
  forall p err, In (EvBatchGet p (Throw err)) (new_events w w') ->
    r = Throw err /\
    exists pre, new_events w w' = (pre ++ [EvBatchGet p (Throw err)])%list.
Proof.
  intros H p err Hin.
  assert (Hrun : exists evs,
            w_trace w' = (w_trace w ++ evs)%list /\
            forall p err, In (EvBatchGet p (Throw err)) evs ->
              r = Throw err /\ exists pre, evs = (pre ++ [EvBatchGet p (Throw err)])%list).
  { unfold batchGetKeys in H. destruct tableKeys as [|tk rest].
    - injection H as <- <-. exists []. split; [now rewrite app_nil_r|]. intros ? ? [].
    - exact (batchGetKeys_loop_rejected fuel _ _ _ _ _ _ _ _ H). }
  destruct Hrun as (evs & T & Hev).
  rewrite (new_events_app St w w' evs T) in *. now apply Hev.
Qed.

End MoreBulk.

Lemma batchGetKeys_rejected_witness :
  exists w',
    batchGetKeys Cases.failing_client 1 Cases.mixed_keys (Examples.world []) =
    (Throw (StoreError "Unsupported"), w') /\
    exists pre, new_events (Examples.world []) w'
                = (pre ++ [EvBatchGet (chunk_request (flatten_keys Cases.mixed_keys))
                             (Throw (StoreError "Unsupported"))])%list.
Proof.
  destruct (batchGetKeys Cases.failing_client 1 Cases.mixed_keys (Examples.world []))
    as [r w'] eqn:E.
  destruct (batchGetKeys_rejected (list QueryOutput) Cases.failing_client 1 Cases.mixed_keys
              (Examples.world []) r w' E
              (chunk_request (flatten_keys Cases.mixed_keys)) (StoreError "Unsupported"))
    as (Hr & pre & Hev).
  - vm_compute in E. injection E as _ <-. left. reflexivity.
  - exists w'. rewrite Hr. split; [reflexivity|]. exists pre. exact Hev.
Defined.

(* ================================================================= *)
(** ** Bulk writes *)

Lemma ceil25_lt (n x : nat) : (25 * x < n <-> x < (n + 24) / 25)%nat.
Proof.
  split; intros H.
  - apply (Nat.lt_le_trans _ (x + 1)); [lia|].
    apply Nat.div_le_lower_bound; lia.
  - destruct (Nat.lt_ge_cases (25 * x) n) as [Hlt|Hge]; [exact Hlt|].
    exfalso.
    assert (Hb : ((n + 24) / 25 < x + 1)%nat)
      by (apply Nat.Div0.div_lt_upper_bound; lia).
    lia.
Qed.

Lemma ceil25_le (n : nat) : ((n + 24) / 25 <= n)%nat.
Proof.
  destruct n as [|n]; [reflexivity|].
  apply Nat.Div0.div_le_upper_bound. lia.
Qed.

Lemma slices25_from (m : nat) :
  forall items : list (string * value),
  (length items <= 25 * m)%nat ->
  concat (map (fun x => slice25 (25 * x) items) (seq 0 m)) = items.
Proof.
  induction m as [|m IH]; intros items Hlen.
  - destruct items; [reflexivity|simpl in Hlen; lia].
  - cbn [seq map concat]. rewrite <- seq_shift, map_map.
    unfold slice25 at 1. change (25 * 0)%nat with 0%nat. cbn [skipn].
    etransitivity; [|apply (firstn_skipn 25 items)]. f_equal.
    etransitivity; [|apply (IH (skipn 25 items)); rewrite length_skipn; lia].
    f_equal. apply map_ext. intros x. unfold slice25.
    rewrite skipn_skipn. f_equal. f_equal. lia.
Qed.

Lemma slices25_cover (items : list (string * value)) : concat (slices25 items) = items.
Proof.
  unfold slices25. apply slices25_from.
  destruct (Nat.le_gt_cases (length items) (25 * ((length items + 24) / 25)))
    as [Hle|Hgt]; [exact Hle|].
  apply ceil25_lt in Hgt. lia.
Qed.

Lemma slices25_bounded (items : list (string * value)) :
  Forall (fun sl => (0 < length sl <= 25)%nat) (slices25 items).
Proof.
  unfold slices25. apply Forall_forall. intros sl Hin.
  apply in_map_iff in Hin. destruct Hin as (x & <- & Hx).
  apply in_seq in Hx. destruct Hx as [_ Hx]. cbn [Nat.add] in Hx.
  apply ceil25_lt in Hx. unfold slice25.
  rewrite length_firstn, length_skipn. lia.
Qed.

Lemma requests_of_set (t c : string) (l : list WriteRequest) (ri : WriteItems) :
  requests_of t (assoc_set c l ri) = if String.eqb t c then l else requests_of t ri.
Proof.
  unfold requests_of. destruct (String.eqb t c) eqn:E.
  - apply String.eqb_eq in E. subst. now rewrite assoc_set_same.
  - apply String.eqb_neq in E. now rewrite assoc_set_other.
Qed.

Lemma write_request_items (wrap : value -> WriteRequest) (sl : list (string * value))
  (t : string) :
  requests_of t (write_request wrap sl) = map wrap (keys_of_table t sl).
Proof.
  unfold write_request, keys_of_table.
  change (map wrap (map snd (filter (fun tk => String.eqb (fst tk) t) sl)))
    with (requests_of t []
          ++ map wrap (map snd (filter (fun tk => String.eqb (fst tk) t) sl)))%list.
  generalize (@nil (string * list WriteRequest)).
  induction sl as [|[c k] sl IH]; intros ri; cbn [fold_left filter map fst].
  - now rewrite app_nil_r.
  - rewrite IH, requests_of_set. rewrite (String.eqb_sym c t).
    destruct (String.eqb t c) eqn:E.
    + apply String.eqb_eq in E. subst c. unfold requests_of.
      destruct (assoc t ri); cbn [map snd app]; [now rewrite <- app_assoc|reflexivity].
    + reflexivity.
Qed.

Lemma write_size_set (t : string) (l : list WriteRequest) (ri : WriteItems) :
  write_size (assoc_set t l ri)
  = (write_size ri + length l - length (requests_of t ri))%nat.
Proof.
  unfold write_size, requests_of.
  induction ri as [|[t' l'] r IH]; cbn [assoc_set assoc flat_map snd].
  - rewrite app_nil_r. simpl. lia.
  - destruct (String.eqb t t') eqn:E; cbn [flat_map snd]; rewrite !length_app.
    + lia.
    + rewrite IH.
      assert (Hb : (length (match assoc t r with Some l0 => l0 | None => [] end)
                    <= length (flat_map snd r))%nat).
      { clear. induction r as [|[t0 l0] r IHr]; cbn [assoc flat_map snd].
        - simpl. lia.
        - rewrite length_app. destruct (String.eqb t t0); lia. }
      lia.
Qed.

Lemma write_request_size (wrap : value -> WriteRequest) (sl : list (string * value)) :
  write_size (write_request wrap sl) = length sl.
Proof.
  unfold write_request.
  assert (H : forall ri : WriteItems,
             write_size
               (fold_left
                  (fun ri ti =>
                     let (tn, i) := ti : string * value in
                     assoc_set tn (match assoc tn ri with
                                   | Some l => (l ++ [wrap i])%list
                                   | None => [wrap i]
                                   end) ri) sl ri)
             = (write_size ri + length sl)%nat).
  { induction sl as [|[t k] sl IH]; intros ri; cbn [fold_left].
    - simpl. lia.
    - rewrite IH, write_size_set. unfold requests_of.
      destruct (assoc t ri) as [l|] eqn:E.
      + rewrite length_app. simpl. lia.
      + simpl. lia. }
  rewrite H. reflexivity.
Qed.

Lemma written_all_app (reqs : list WriteItems) (evs : list write_event) :
  written_all reqs evs ->
  forall req evs', written req evs' -> written_all (reqs ++ [req]) (evs ++ evs').
Proof.
  induction 1 as [|req0 reqs evs0 evs1 Hs Hall IH]; intros req evs' Hs'.
  - cbn [app]. rewrite <- (app_nil_r evs'). now repeat constructor.
  - cbn [app]. rewrite <- app_assoc. constructor; auto.
Qed.

Section BulkWriteProofs.

Variable St : Type.
Variable c_batchWrite : WriteItems -> St -> outcome BatchWriteOutput * St.

Lemma new_writes_app (w w' : Writes St) (evs : list write_event) :
  ws_trace w' = (ws_trace w ++ evs)%list -> new_writes w w' = evs.
Proof.
  intros H. unfold new_writes. rewrite H.
  rewrite skipn_app, skipn_all, Nat.sub_diag. reflexivity.
Qed.

Lemma batchWrite_run (fuel : nat) :
  forall req w r w',
  batchWrite c_batchWrite fuel req w = (r, w') ->
  exists evs,
    ws_trace w' = (ws_trace w ++ evs)%list /\
    (r = Return (Some tt) -> written req evs) /\
    (forall p err, In (EvBatchWrite p (Throw err)) evs ->
       r = Throw err /\ exists pre, evs = (pre ++ [EvBatchWrite p (Throw err)])%list).
Proof.
  induction fuel as [|fuel IH]; intros req w r w' H.
  - injection H as <- <-. exists []. split; [now rewrite app_nil_r|].
    split; [discriminate|]. intros p err [].
  - cbn [batchWrite] in H.
    destruct (c_batchWrite req (ws_store w)) as [[data|e] s'].
    + destruct (UnprocessedItems data) as [|u us] eqn:Eu.
      * injection H as <- <-. exists [EvBatchWrite req (Return data)].
        split; [reflexivity|]. split; [intros _; now constructor|].
        intros p err [Hin|[]]. discriminate.
      * destruct (IH _ _ _ _ H) as (evs & T & Hret & Hrej).
        exists (EvBatchWrite req (Return data) :: evs).
        split; [cbn [ws_trace] in T; rewrite T; now rewrite <- app_assoc|].
        split.
        { intros Hr. apply written_retry; [rewrite Eu; discriminate|].
          rewrite Eu. now apply Hret. }
        intros p err [Hin|Hin]; [discriminate|].
        destruct (Hrej p err Hin) as (-> & pre & ->).
        split; [reflexivity|]. exists (EvBatchWrite req (Return data) :: pre). reflexivity.
    + injection H as <- <-. exists [EvBatchWrite req (Throw e)].
      split; [reflexivity|]. split; [discriminate|].
      intros p err [Hin|[]]. injection Hin as <- <-.
      split; [reflexivity|]. exists []. reflexivity.
Qed.

Lemma batchWrite_accepted (fuel : nat) (req : WriteItems) (w : Writes St) :
  accepts_all c_batchWrite ->
  exists w',
    batchWrite c_batchWrite (S fuel) req w = (Return (Some tt), w') /\
    length (ws_trace w') = (length (ws_trace w) + 1)%nat.
Proof.
  intros Hc. destruct (Hc req (ws_store w)) as (out & s' & E & Hu).
  cbn [batchWrite]. rewrite E, Hu.
  eexists. split; [reflexivity|]. cbn [ws_trace]. rewrite length_app. reflexivity.
Qed.


Lemma batchWrite_loop_run (wrap : value -> WriteRequest) (fuel : nat)
  (items : list (string * value)) (steps : nat) :
  forall x w w',
  batchWrite_loop c_batchWrite wrap fuel steps x (25 * x) items w
  = (Return (Some tt), w') ->
  ((length items + 24) / 25 <= steps + x)%nat ->
  exists evs,
    ws_trace w' = (ws_trace w ++ evs)%list /\
    written_all
      (map (write_request wrap)
         (map (fun y => slice25 (25 * y) items)
            (seq x ((length items + 24) / 25 - x)))) evs.
Proof.
  induction steps as [|steps IH]; intros x w w' H Hsteps.
  - injection H as <-. exists []. rewrite app_nil_r.
    replace ((length items + 24) / 25 - x)%nat with 0%nat by lia.
    split; [reflexivity|constructor].
  - cbn [batchWrite_loop] in H.
    destruct (25 * x <? length items)%nat eqn:Elt.
    + apply Nat.ltb_lt in Elt. pose proof (proj1 (ceil25_lt _ _) Elt) as Hx.
      destruct (batchWrite c_batchWrite fuel
                  (write_request wrap (slice25 (25 * x) items)) w)
        as [[[[]|]|e] w1] eqn:E1; try discriminate.
      destruct (batchWrite_run fuel _ _ _ _ E1) as (evs1 & T1 & S1 & _).
      replace (25 * x + 25)%nat with (25 * (x + 1))%nat in H by lia.
      destruct (IH _ _ _ H) as (evs2 & T2 & S2); [lia|].
      exists (evs1 ++ evs2)%list.
      split; [rewrite T2, T1; now rewrite app_assoc|].
      replace ((length items + 24) / 25 - x)%nat
        with (S ((length items + 24) / 25 - (x + 1)))%nat by lia.
      cbn [seq map]. replace (S x) with (x + 1)%nat by lia.
      constructor; [now apply S1|exact S2].
    + apply Nat.ltb_ge in Elt. injection H as <-.
      assert (Hx : ~ (x < (length items + 24) / 25)%nat).
      { intros Hx. apply ceil25_lt in Hx. lia. }
      exists []. rewrite app_nil_r.
      replace ((length items + 24) / 25 - x)%nat with 0%nat by lia.
      split; [reflexivity|constructor].
Qed.

Lemma batchWrite_loop_accepted (wrap : value -> WriteRequest) (fuel : nat)
  (items : list (string * value)) (steps : nat) :
  accepts_all c_batchWrite ->
  forall x w,
  ((length items + 24) / 25 <= steps + x)%nat ->
  exists w',
    batchWrite_loop c_batchWrite wrap (S fuel) steps x (25 * x) items w
    = (Return (Some tt), w') /\
    length (ws_trace w')
    = (length (ws_trace w) + ((length items + 24) / 25 - x))%nat.
Proof.
  intros Hc. induction steps as [|steps IH]; intros x w Hsteps.
  - exists w. split; [reflexivity|]. lia.
  - cbn [batchWrite_loop].
    destruct (25 * x <? length items)%nat eqn:Elt.
    + apply Nat.ltb_lt in Elt. pose proof (proj1 (ceil25_lt _ _) Elt) as Hx.
      destruct (batchWrite_accepted fuel (write_request wrap (slice25 (25 * x) items)) w Hc)
        as (w1 & E1 & L1).
      rewrite E1.
      replace (25 * x + 25)%nat with (25 * (x + 1))%nat by lia.
      destruct (IH (x + 1)%nat w1) as (w' & E & L); [lia|].
      exists w'. split; [exact E|]. lia.
    + apply Nat.ltb_ge in Elt.
      assert (Hx : ~ (x < (length items + 24) / 25)%nat).
      { intros Hx. apply ceil25_lt in Hx. lia. }
      exists w. split; [reflexivity|]. lia.
Qed.

(** What [batchWritePuts] and [batchWriteDeletes] have in common. *)
Lemma batchWrite_all_chunks (wrap : value -> WriteRequest) (tableItems : TableItems)
  (w : Writes St) :
  let items := flatten_keys tableItems in
  (concat (slices25 items) = items /\
   length (slices25 items) = ((length items + 24) / 25)%nat /\
   Forall (fun sl => (0 < write_size (write_request wrap sl) <= 25)%nat /\
                     forall t, requests_of t (write_request wrap sl)
                               = map wrap (keys_of_table t sl))
     (slices25 items)) /\
  (forall fuel, batchWrite_all c_batchWrite wrap fuel [] w
                = (Return (Some (VObj [])), w)) /\
  (forall fuel result w',
     tableItems <> [] ->
     batchWrite_all c_batchWrite wrap fuel tableItems w = (Return (Some result), w') ->
     result = VUndef /\
     written_all (map (write_request wrap) (slices25 items)) (new_writes w w')) /\
  (accepts_all c_batchWrite -> tableItems <> [] ->
   forall fuel, exists w',
     batchWrite_all c_batchWrite wrap (S fuel) tableItems w = (Return (Some VUndef), w') /\
     length (new_writes w w') = ((length items + 24) / 25)%nat).
Proof.
  intros items. split; [|split; [|split]].
  - split; [apply slices25_cover|]. split.
    + unfold slices25. now rewrite length_map, length_seq.
    + eapply Forall_impl; [|apply slices25_bounded].
      intros sl Hsl. cbv beta in Hsl. rewrite write_request_size.
      split; [exact Hsl|]. intros t. apply write_request_items.
  - reflexivity.
  - intros fuel result w' Hne H. unfold batchWrite_all in H.
    destruct tableItems as [|ti rest]; [contradiction|]. fold items in H.
    destruct (batchWrite_loop c_batchWrite wrap fuel (length items) 0 0 items w)
      as [[[[]|]|e] w1] eqn:E; try discriminate.
    injection H as <- <-. split; [reflexivity|].
    destruct (batchWrite_loop_run wrap fuel items (length items) 0 w w1 E)
      as (evs & T & Hs).
    { pose proof (ceil25_le (length items)). lia. }
    rewrite (new_writes_app w w1 evs T). now rewrite Nat.sub_0_r in Hs.
  - intros Hc Hne fuel. unfold batchWrite_all.
    destruct tableItems as [|ti rest]; [contradiction|]. fold items.
    destruct (batchWrite_loop_accepted wrap fuel items (length items) Hc 0 w)
      as (w' & E & L).
    { pose proof (ceil25_le (length items)). lia. }
    change (25 * 0)%nat with 0%nat in E. rewrite E.
    exists w'. split; [reflexivity|].
    destruct (batchWrite_loop_run wrap (S fuel) items (length items) 0 w w' E)
      as (evs & T & _).
    { pose proof (ceil25_le (length items)). lia. }
    rewrite (new_writes_app w w' evs T). rewrite T, length_app in L. lia.
Qed.

(** X19.  [batchWritePuts] and [batchWriteDeletes] work in chunks of 25,
    the first wrapping each item as a put request, the second each key as
    a delete request.  The items of all tables, in one list, are cut into
    [ceil(n / 25)] slices that cover them in order; the request of a slice
    holds between 1 and 25 requests, and holds for each table the items
    of the slice that belong to it, in order, each wrapped.  An empty
    collection gives an empty object and no call.  In a run that returns,
    nothing is handed out and the calls are, slice after slice, the
    request of the slice followed by the retries of what the store left
    unprocessed.  Against a store that processes everything there is
    exactly one call per slice. *)
Theorem batchWritePuts_Deletes_chunks (tableItems : TableItems) (w : Writes St)
  (wrap : value -> WriteRequest)
  (write : nat -> TableItems -> Writes St -> outcome (option value) * Writes St) :
  (wrap = PutRequest /\ write = batchWritePuts c_batchWrite) \/
  (wrap = DeleteRequest /\ write = batchWriteDeletes c_batchWrite) ->
  let items := flatten_keys tableItems in
  (concat (slices25 items) = items /\
   length (slices25 items) = ((length items + 24) / 25)%nat /\
   Forall (fun sl => (0 < write_size (write_request wrap sl) <= 25)%nat /\
                     forall t, requests_of t (write_request wrap sl)
                               = map wrap (keys_of_table t sl))
     (slices25 items)) /\
  (forall fuel, write fuel [] w = (Return (Some (VObj [])), w)) /\
  (forall fuel result w',
     tableItems <> [] ->
     write fuel tableItems w = (Return (Some result), w') ->
     result = VUndef /\
     written_all (map (write_request wrap) (slices25 items)) (new_writes w w')) /\
  (accepts_all c_batchWrite -> tableItems <> [] ->
   forall fuel, exists w',
     write (S fuel) tableItems w = (Return (Some VUndef), w') /\
     length (new_writes w w') = ((length items + 24) / 25)%nat).
Proof.
  intros [[-> ->]|[-> ->]] items.
  - exact (batchWrite_all_chunks PutRequest tableItems w).
  - exact (batchWrite_all_chunks DeleteRequest tableItems w).
Qed.

End BulkWriteProofs.

Lemma write_all_accepts : accepts_all Cases.write_all.
Proof. intros p s. eexists; eexists. split; reflexivity. Qed.


Lemma batchWritePuts_Deletes_chunks_witness :
  length (flatten_keys Cases.sixty) = 60%nat /\
  (exists w',
     batchWritePuts Cases.write_all 1 Cases.sixty (mkWrites [] [])
     = (Return (Some VUndef), w') /\
     length (new_writes (mkWrites [] []) w') = 3%nat /\
     written_all (map (write_request PutRequest) (slices25 (flatten_keys Cases.sixty)))
       (new_writes (mkWrites [] []) w')) /\
  (exists w',
     batchWriteDeletes Cases.write_all 1 Cases.sixty (mkWrites [] [])
     = (Return (Some VUndef), w') /\
     length (new_writes (mkWrites [] []) w') = 3%nat /\
     written_all (map (write_request DeleteRequest) (slices25 (flatten_keys Cases.sixty)))
       (new_writes (mkWrites [] []) w')).
Proof.
  split; [reflexivity|]. split.
  - destruct (batchWritePuts_Deletes_chunks (list WriteItems) Cases.write_all Cases.sixty
                (mkWrites [] []) PutRequest (batchWritePuts Cases.write_all)
                (or_introl (conj eq_refl eq_refl))) as (_ & _ & Hrun & Hacc).
    destruct (Hacc write_all_accepts ltac:(discriminate) 0%nat) as (w' & E & L).
    exists w'. split; [exact E|]. split; [exact L|].
    exact (proj2 (Hrun 1%nat VUndef w' ltac:(discriminate) E)).
  - destruct (batchWritePuts_Deletes_chunks (list WriteItems) Cases.write_all Cases.sixty
                (mkWrites [] []) DeleteRequest (batchWriteDeletes Cases.write_all)
                (or_intror (conj eq_refl eq_refl))) as (_ & _ & Hrun & Hacc).
    destruct (Hacc write_all_accepts ltac:(discriminate) 0%nat) as (w' & E & L).
    exists w'. split; [exact E|]. split; [exact L|].
    exact (proj2 (Hrun 1%nat VUndef w' ltac:(discriminate) E)).
Defined.

(* ================================================================= *)
(** ** More on the schema compiler *)

Lemma derive_key_app (a b : list (string * PropertyDesc)) (key : Key) :
  derive_key (a ++ b) key = derive_key b (derive_key a key).
Proof.
  revert key. induction a as [|[k p] a IH]; intros key; [reflexivity|].
  cbn [app derive_key]. apply IH.
Qed.

Lemma derive_key_unflagged (ps : list (string * PropertyDesc)) (key : Key) :
  (forall k p, In (k, p) ps -> p_hashKey p = false) ->
  hashKey (derive_key ps key) = hashKey key.
Proof.
  revert key. induction ps as [|[k p] t IH]; intros key H; [reflexivity|].
  cbn [derive_key]. rewrite IH by (intros k0 p0 Hin; apply (H k0 p0); now right).
  rewrite (H k p) by now left. now destruct (p_rangeKey p).
Qed.

Lemma derive_key_unranged (ps : list (string * PropertyDesc)) (key : Key) :
  (forall k p, In (k, p) ps -> p_rangeKey p = false) ->
  rangeKey (derive_key ps key) = rangeKey key.
Proof.
  revert key. induction ps as [|[k p] t IH]; intros key H; [reflexivity|].
  cbn [derive_key]. rewrite IH by (intros k0 p0 Hin; apply (H k0 p0); now right).
  rewrite (H k p) by now left. now destruct (p_hashKey p).
Qed.

Lemma derive_key_flagged (ps : list (string * PropertyDesc)) :
  forall key,
  (forall k, hashKey (derive_key ps key) = Some k ->
     hashKey key = Some k \/ exists p, In (k, p) ps /\ p_hashKey p = true) /\
  (forall k, rangeKey (derive_key ps key) = Some k ->
     rangeKey key = Some k \/ exists p, In (k, p) ps /\ p_rangeKey p = true).
Proof.
  induction ps as [|[k0 p0] t IH]; intros key; [split; intros k H; now left|].
  cbn [derive_key].
  match goal with |- context [derive_key t ?k2] => destruct (IH k2) as [IH1 IH2] end.
  split; intros k H.
  - destruct (IH1 k H) as [Hk|(p & Hin & Hp)].
    + destruct (p_hashKey p0) eqn:Eh; destruct (p_rangeKey p0); cbn [hashKey] in Hk.
      * injection Hk as <-. right. exists p0. split; [now left|exact Eh].
      * injection Hk as <-. right. exists p0. split; [now left|exact Eh].
      * now left.
      * now left.
    + right. exists p. split; [now right|exact Hp].
  - destruct (IH2 k H) as [Hk|(p & Hin & Hp)].
    + destruct (p_rangeKey p0) eqn:Er; destruct (p_hashKey p0); cbn [rangeKey] in Hk.
      * injection Hk as <-. right. exists p0. split; [now left|exact Er].
      * injection Hk as <-. right. exists p0. split; [now left|exact Er].
      * now left.
      * now left.
    + right. exists p. split; [now right|exact Hp].
Qed.

Lemma first_version_app (a b : list (string * PropertyDesc)) :
  (forall k p, In (k, p) a -> p_version p = false) ->
  first_version (a ++ b) = first_version b.
Proof.
  induction a as [|[k p] a IH]; intros H; [reflexivity|].
  cbn [app first_version]. rewrite (H k p) by now left.
  apply IH. intros k0 p0 Hin. apply (H k0 p0). now right.
Qed.

(** X20.  Which properties become the key and the version.  The hash key
    and the range key of a compiled key are names of properties flagged
    as such; among several properties carrying a flag the last one is the
    key, and none gives no key.  The version is found the other way
    round: among several properties flagged as version the first one is
    taken. *)
Theorem key_last_version_first (before after : list (string * PropertyDesc))
  (k : string) (p : PropertyDesc) :
  let ps := (before ++ (k, p) :: after)%list in
  let key := derive_key ps (mkKey None None) in
  (forall h, hashKey key = Some h -> exists q, In (h, q) ps /\ p_hashKey q = true) /\
  (forall r, rangeKey key = Some r -> exists q, In (r, q) ps /\ p_rangeKey q = true) /\
  (p_hashKey p = true ->
   (forall k' q, In (k', q) after -> p_hashKey q = false) -> hashKey key = Some k) /\
  (p_rangeKey p = true ->
   (forall k' q, In (k', q) after -> p_rangeKey q = false) -> rangeKey key = Some k) /\
  (p_version p = true ->
   (forall k' q, In (k', q) before -> p_version q = false) -> first_version ps = Some k).
Proof.
  intros ps key.
  destruct (derive_key_flagged ps (mkKey None None)) as [Hh Hr].
  split; [|split; [|split; [|split]]].
  - intros h H. destruct (Hh h H) as [Hx|Hx]; [discriminate|exact Hx].
  - intros r H. destruct (Hr r H) as [Hx|Hx]; [discriminate|exact Hx].
  - intros Hp Hafter. unfold key, ps. rewrite derive_key_app. cbn [derive_key].
    rewrite derive_key_unflagged by exact Hafter. rewrite Hp.
    now destruct (p_rangeKey p).
  - intros Hp Hafter. unfold key, ps. rewrite derive_key_app. cbn [derive_key].
    rewrite derive_key_unranged by exact Hafter. rewrite Hp. reflexivity.
  - intros Hp Hbefore. unfold ps. rewrite first_version_app by exact Hbefore.
    cbn [first_version]. now rewrite Hp.
Qed.

Lemma key_last_version_first_witness :
  hashKey (derive_key (d_properties Cases.twice_def) (mkKey None None)) = Some "b" /\
  first_version (d_properties Cases.twice_def) = Some "a".
Proof.
  split.
  - refine (proj1 (proj2 (proj2
              (key_last_version_first
                 [("a", mkProp (Some "integer") None VUndef true false true false
                          None None None)] []
                 "b" (mkProp (Some "integer") None VUndef true false true false
                        None None None)))) eq_refl _).
    intros k' q [].
  - refine (proj2 (proj2 (proj2 (proj2
              (key_last_version_first []
                 [("b", mkProp (Some "integer") None VUndef true false true false
                          None None None)]
                 "a" (mkProp (Some "integer") None VUndef true false true false
                        None None None))))) eq_refl _).
    intros k' q [].
Defined.

Lemma find_definition_assoc (id : string) (doc : SchemaDoc) (name : string)
  (d : SchemaDef) :
  NoDup (keys doc) -> find_definition id doc = Some (name, d) ->
  assoc name doc = Some d /\ d_id d = Some id.
Proof.
  induction doc as [|[n0 d0] t IH]; intros Hnd H; [discriminate|].
  inversion Hnd as [|? ? Hnotin Hnd']; subst.
  cbn [find_definition] in H. cbn [assoc].
  assert (Hrest : find_definition id t = Some (name, d) ->
                  (if String.eqb name n0 then Some d0 else assoc name t) = Some d /\
                  d_id d = Some id).
  { intros Hf. destruct (IH Hnd' Hf) as [Ha Hi]. split; [|exact Hi].
    destruct (String.eqb name n0) eqn:E; [|exact Ha].
    apply String.eqb_eq in E. subst n0. apply assoc_In in Ha.
    exfalso. apply Hnotin. change name with (fst (name, d)). now apply in_map. }
  destruct (d_id d0) as [i|] eqn:Ei; [|now apply Hrest].
  destruct (String.eqb i id) eqn:E; [|now apply Hrest].
  injection H as <- <-. rewrite String.eqb_refl. apply String.eqb_eq in E. subst i.
  now split.
Qed.




Lemma assoc_update_other (A : Type) (k k' : string) (f : A -> A) (l : list (string * A)) :
  k <> k' -> assoc k (assoc_update k' f l) = assoc k l.
Proof.
  intros Hne. induction l as [|[k0 v0] t IH]; [reflexivity|].
  cbn [assoc_update]. destruct (String.eqb k' k0) eqn:E; cbn [assoc].
  - apply String.eqb_eq in E. subst k0. apply String.eqb_neq in Hne. now rewrite Hne.
  - now rewrite IH.
Qed.

Lemma assoc_update_same (A : Type) (k : string) (f : A -> A) (l : list (string * A)) :
  assoc k (assoc_update k f l) = option_map f (assoc k l).
Proof.
  induction l as [|[k0 v0] t IH]; [reflexivity|].
  cbn [assoc_update assoc]. destruct (String.eqb k k0) eqn:E; cbn [assoc]; rewrite E.
  - reflexivity.
  - exact IH.
Qed.

Lemma assoc_update_None (A : Type) (k k' : string) (f : A -> A) (l : list (string * A)) :
  assoc k l = None -> assoc k (assoc_update k' f l) = None.
Proof.
  intros H. destruct (string_dec k k') as [->|Hne].
  - rewrite assoc_update_same, H. reflexivity.
  - now rewrite assoc_update_other.
Qed.

Lemma assoc_filter_keep (A : Type) (f : string * A -> bool) (k : string) (v : A)
  (l : list (string * A)) :
  assoc k l = Some v -> f (k, v) = true -> assoc k (filter f l) = Some v.
Proof.
  intros Ha Hf. induction l as [|[k0 v0] t IH]; [discriminate|].
  cbn [assoc] in Ha. cbn [filter].
  destruct (String.eqb k k0) eqn:E.
  - apply String.eqb_eq in E. subst k0. injection Ha as ->. rewrite Hf.
    cbn [assoc]. now rewrite String.eqb_refl.
  - destruct (f (k0, v0)); [cbn [assoc]; rewrite E|]; now apply IH.
Qed.

(** A property that requires names of a definition the document does not
    have stays in place, turn after turn, until its own turn throws. *)
Lemma hoist_step_dangling (schemaName : string) (defs : SchemaDoc) (schema : SchemaDef)
  (k0 : string) (p0 : PropertyDesc) (propName : string) :
  assoc schemaName defs = Some schema ->
  assoc k0 (d_properties schema) = Some p0 ->
  hoisted p0 = true ->
  assoc (ref_name p0) defs = None ->
  (propName = k0 -> hoist_step schemaName defs propName = Throw TypeError) /\
  (hoist_step schemaName defs propName = Throw TypeError \/
   exists defs' schema',
     hoist_step schemaName defs propName = Return defs' /\
     assoc schemaName defs' = Some schema' /\
     assoc k0 (d_properties schema') = Some p0 /\
     assoc (ref_name p0) defs' = None).
Proof.
  intros Hs Hk Hh Hdang. unfold hoisted in Hh. apply andb_prop in Hh.
  destruct Hh as [Href Hreq].
  assert (Hown : hoist_step schemaName defs k0 = Throw TypeError).
  { unfold hoist_step. rewrite Hs, Hk.
    destruct (p_required p0); [|discriminate]. rewrite Href.
    fold (ref_name p0). now rewrite Hdang. }
  split; [now intros ->|].
  destruct (string_dec propName k0) as [->|Hne]; [now left|].
  assert (Hidle : exists defs' schema',
            Return defs = Return defs' /\
            assoc schemaName defs' = Some schema' /\
            assoc k0 (d_properties schema') = Some p0 /\
            assoc (ref_name p0) defs' = None).
  { exists defs, schema. auto. }
  unfold hoist_step. rewrite Hs.
  destruct (assoc propName (d_properties schema)) as [prop|] eqn:Ep; [|now right].
  destruct (p_required prop) as [req|] eqn:Er; [|now right].
  destruct (has_ref prop) eqn:Ehr; [|now right].
  fold (ref_name prop).
  destruct (assoc (ref_name prop) defs) as [target|] eqn:Et; [|now left].
  right.
  assert (Hdiff : ref_name p0 <> schemaName) by congruence.
  assert (Hdiff' : ref_name p0 <> ref_name prop) by congruence.
  set (props' := assoc_update propName clear_required (d_properties schema)).
  assert (Hk' : assoc k0 props' = Some p0).
  { unfold props'. rewrite assoc_update_other by congruence. exact Hk. }
  destruct (string_dec (ref_name prop) schemaName) as [Heq|Hneq].
  - (* the reference points back to the schema itself *)
    rewrite Heq. rewrite Heq in Et.
    eexists; eexists. split; [reflexivity|].
    rewrite !assoc_update_same, Hs. cbn [option_map].
    split; [reflexivity|]. split.
    + unfold prune_back_refs, set_def_properties, set_def_required.
      cbn [d_properties].
      apply assoc_filter_keep; [exact Hk'|]. cbn [snd].
      unfold ref_name in Hdiff. destruct (p_ref p0) as [r|]; [|reflexivity].
      apply negb_true_iff. now apply String.eqb_neq.
    + repeat apply assoc_update_None. exact Hdang.
  - eexists; eexists. split; [reflexivity|].
    rewrite assoc_update_other by congruence.
    rewrite assoc_update_same.
    rewrite assoc_update_other by congruence. rewrite Hs. cbn [option_map].
    split; [reflexivity|]. split.
    + unfold set_def_properties. cbn [d_properties]. exact Hk'.
    + repeat apply assoc_update_None. exact Hdang.
Qed.

Lemma hoist_loop_dangling (schemaName : string) (k0 : string) (p0 : PropertyDesc)
  (names : list string) :
  In k0 names ->
  forall defs schema,
  assoc schemaName defs = Some schema ->
  assoc k0 (d_properties schema) = Some p0 ->
  hoisted p0 = true ->
  assoc (ref_name p0) defs = None ->
  fst (hoist_loop schemaName defs names) = Throw TypeError.
Proof.
  induction names as [|n t IH]; intros Hin defs schema Hs Hk Hh Hd; [contradiction|].
  cbn [hoist_loop].
  destruct (hoist_step_dangling schemaName defs schema k0 p0 n Hs Hk Hh Hd)
    as [Hown [Hthrow|(defs' & schema' & E & Hs' & Hk' & Hd')]].
  - now rewrite Hthrow.
  - rewrite E. destruct Hin as [->|Hin].
    + rewrite (Hown eq_refl) in E. discriminate.
    + exact (IH Hin defs' schema' Hs' Hk' Hh Hd').
Qed.

(** X22.  A required relation to a definition that is not there.  When
    the names of the definitions are distinct and a property of the
    definition found carries a reference and a list of required names,
    but the document has no definition under the name referred to,
    compiling the schema fails with a TypeError. *)
Theorem Schema_constructor_dangling (ajv : SchemaDoc -> string -> validator)
  (doc : SchemaDoc) (id name : string) (d : SchemaDef) (k : string) (p : PropertyDesc) :
  NoDup (keys doc) ->
  find_definition id doc = Some (name, d) ->
  assoc k (d_properties d) = Some p ->
  hoisted p = true ->
  assoc (ref_name p) doc = None ->
  fst (Schema_constructor ajv doc id) = Throw TypeError.
Proof.
  intros Hnd Hf Hk Hh Hdang.
  destruct (find_definition_assoc id doc name d Hnd Hf) as [Ha _].
  unfold Schema_constructor. rewrite Hf.
  pose proof (hoist_loop_dangling name k p (keys (d_properties d))) as Hloop.
  assert (Hin : In k (keys (d_properties d))).
  { apply assoc_In in Hk. change k with (fst (k, p)). now apply in_map. }
  specialize (Hloop Hin doc d Ha Hk Hh Hdang).
  destruct (hoist_loop name doc (keys (d_properties d))) as [[defs|e] doc'];
    cbn [fst] in Hloop; [discriminate|].
  cbn [fst]. injection Hloop as ->. reflexivity.
Qed.

Lemma Schema_constructor_dangling_witness :
  fst (Schema_constructor Examples.ajv0 [("Comment", Cases.comment_def)] "Comment")
  = Throw TypeError.
Proof.
  apply (Schema_constructor_dangling Examples.ajv0 [("Comment", Cases.comment_def)]
           "Comment" "Comment" Cases.comment_def "post"
           (mkProp None None VUndef false false false false (Some "Article")
              (Some [("postId", "id")]) (Some ["id"]))).
  - repeat constructor. intros [].
  - reflexivity.
  - reflexivity.
  - reflexivity.
  - reflexivity.
Defined.

(* ================================================================= *)
(** ** The registry of models *)

(** X23.  The registry hands out the first model compiled under a name.
    After a call of [model] for a name, every later call for that name
    returns the same model and leaves the registry as it is, whatever
    schema it is given; the models registered under other names are not
    touched by the first call. *)
Theorem Dynorm_model_memoizes (name : string) (s1 s2 : option Schema) (models : Models) :
  let (m1, models1) := Dynorm_model name s1 models in
  Dynorm_model name s2 models1 = (m1, models1) /\
  (assoc name models = None -> m1 = s1) /\
  forall other, other <> name -> assoc other models1 = assoc other models.
Proof.
  unfold Dynorm_model. destruct (assoc name models) as [m|] eqn:E.
  - rewrite E. split; [reflexivity|]. split; [discriminate|reflexivity].
  - rewrite assoc_set_same. split; [reflexivity|]. split; [reflexivity|].
    intros other Hne. now apply assoc_set_other.
Qed.

(* ================================================================= *)
(** ** The static [find] of a compiled model *)

Lemma chained_table (opts : FindOpts) (params : QueryParams) (evs : list event) :
  chained opts params evs ->
  forall ev p, In ev evs -> request_of ev = Some p ->
    q_TableName p = q_TableName params.
Proof.
  induction 1 as [p r|p d lek evs Hlek Hch IH]; intros ev p0 Hin Hreq.
  - destruct Hin as [<-|[]]. unfold sent in Hreq.
    destruct (opt_str_truthy (q_KeyConditionExpression p)); now injection Hreq as <-.
  - destruct Hin as [<-|Hin].
    + unfold sent in Hreq.
      destruct (opt_str_truthy (q_KeyConditionExpression p)); now injection Hreq as <-.
    + rewrite (IH ev p0 Hin Hreq). reflexivity.
Qed.

Lemma chained_requests (opts : FindOpts) (params : QueryParams) (evs : list event) :
  chained opts params evs -> Forall (fun ev => request_of ev <> None) evs.
Proof.
  induction 1 as [p r|p d lek evs Hlek Hch IH].
  - repeat constructor. unfold sent.
    destruct (opt_str_truthy (q_KeyConditionExpression p)); discriminate.
  - constructor; [|exact IH]. unfold sent.
    destruct (opt_str_truthy (q_KeyConditionExpression p)); discriminate.
Qed.

Section FinderProofs.

Variable Date_parse : string -> option Z.
Variable clock : nat -> Z.
Variable St : Type.
Variable client : Client St.

Lemma find_table_kept (fuel : nat) (opts : FindOpts) :
  forall params acc w acc' params' w',
  find client fuel params opts acc w = (Return (Some (acc', params')), w') ->
  q_TableName params' = q_TableName params.
Proof.
  induction fuel as [|fuel IH]; intros params acc w acc' params' w' H; [discriminate|].
  cbn [find] in H.
  apply bind_inv in H. destruct H as [(? & _ & Hx)|(acc0 & w0 & _ & H)]; [discriminate|].
  apply bind_inv in H. destruct H as [(? & _ & Hx)|(data & w1 & _ & H)]; [discriminate|].
  apply bind_inv in H. destruct H as [(? & _ & Hx)|(items & w2 & _ & H)]; [discriminate|].
  destruct (LastEvaluatedKey data) as [lek|].
  - destruct (limit_open _).
    + now rewrite (IH _ _ _ _ _ _ H).
    + now injection H as _ <- _.
  - now injection H as _ <- _.
Qed.

Lemma hydrate_all_spec (schema : Schema) (items : list value) :
  forall (w : World St) ms w',
  hydrate_all Date_parse clock schema items w = (Return ms, w') ->
  w_trace w' = w_trace w /\ w_store w' = w_store w /\
  Forall2 (fun _ m => instance_of schema m) items ms.
Proof.
  induction items as [|item rest IH]; intros w ms w' H.
  - injection H as <- <-. repeat split. constructor.
  - cbn [hydrate_all] in H.
    apply bind_inv in H. destruct H as [(? & _ & Hx)|(m & w1 & E1 & H)]; [discriminate|].
    apply bind_inv in H. destruct H as [(? & _ & Hx)|(ms' & w2 & E2 & H)]; [discriminate|].
    injection H as <- <-.
    destruct (IH _ _ _ E2) as (T2 & S2 & F2).
    unfold hydrate in E1.
    apply bind_inv in E1. destruct E1 as [(? & _ & Hx)|(o & w3 & E3 & E1)]; [discriminate|].
    injection E3 as _ <-.
    apply bind_inv in E1. destruct E1 as [(? & _ & Hx)|(parsed & w4 & E4 & E1)];
      [discriminate|].
    injection E4 as _ <-.
    apply bind_inv in E1. destruct E1 as [(? & _ & Hx)|(e & w5 & E5 & E1)]; [discriminate|].
    injection E1 as <- <-.
    unfold NewModel_constructor in E5.
    apply bind_inv in E5. destruct E5 as [(? & _ & Hx)|(data' & w6 & E6 & E5)];
      [discriminate|].
    injection E5 as _ <-.
    assert (Hw : w_trace w6 = w_trace w /\ w_store w6 = w_store w).
    { clear - E6. revert parsed w data' w6 E6.
      induction (properties schema) as [|[k prop] t IHt]; intros parsed w data' w6 E6.
      - now injection E6 as _ <-.
      - cbn [init_defaults] in E6. apply bind_inv in E6.
        destruct E6 as [(? & _ & Hx)|(d1 & w7 & E7 & E6)]; [discriminate|].
        destruct (IHt _ _ _ _ E6) as [T S]. rewrite T, S.
        unfold init_default in E7.
        destruct (negb (truthy (obj_get parsed k)) && negb (is_undefined (p_default prop)));
          [|now injection E7 as _ <-].
        destruct (is_date_time prop); [|now injection E7 as _ <-].
        destruct (is_now (p_default prop)); [|now injection E7 as _ <-].
        unfold bind, Date_now, ret in E7. now injection E7 as _ <-. }
    destruct Hw as [T6 S6].
    split; [congruence|]. split; [congruence|].
    constructor; [|exact F2]. eexists. reflexivity.
Qed.

(** X24.  The static [find] of a model asks its own table.  In a run
    that returns, every call to the store is a query or scan on the table
    of the schema, whatever table the caller's request named, and the
    request comes back naming that table; the items handed out are
    instances of the model, one for each item of the pages fetched, in
    order. *)
Theorem NewModel_find_own_table (fuel : nat) (schema : Schema) (params : QueryParams)
  (w : World St) (result : Acc) (params' : QueryParams) (w' : World St) :
  NewModel_find Date_parse clock client fuel schema params w
  = (Return (Some (result, params')), w') ->
  Forall (fun ev => exists p, request_of ev = Some p /\ q_TableName p = tableName schema)
    (new_events w w') /\
  q_TableName params' = tableName schema /\
  Forall2 (fun _ m => instance_of schema m)
    (flat_map Items (pages_of (new_events w w'))) (a_Items result).
Proof.
  intros H. unfold NewModel_find in H.
  apply bind_inv in H. destruct H as [(? & _ & Hx)|(r & w1 & E1 & H)]; [discriminate|].
  destruct r as [[acc p1]|]; [|discriminate].
  apply bind_inv in H. destruct H as [(? & _ & Hx)|(ms & w2 & E2 & H)]; [discriminate|].
  injection H as <- <- <-.
  destruct (hydrate_all_spec schema _ _ _ _ E2) as (T2 & _ & F2).
  destruct (find_chain St client fuel _ _ _ _ _ _ _ E1)
    as (evs & chunks & T & Hch & Hf & _ & Hr).
  cbn [o_reduce] in Hr. destruct Hr as (Hitems & _).
  assert (Hev : new_events w w2 = evs).
  { apply new_events_app. now rewrite T2. }
  rewrite Hev. split; [|split].
  - pose proof (chained_requests _ _ _ Hch) as Hreq.
    apply Forall_forall. intros ev Hin. rewrite Forall_forall in Hreq.
    destruct (request_of ev) as [p|] eqn:Ep; [|destruct (Hreq ev Hin Ep)].
    exists p. split; [reflexivity|].
    now rewrite (chained_table _ _ _ Hch ev p Hin Ep).
  - now rewrite (find_table_kept fuel _ _ _ _ _ _ _ E1).
  - cbn [a_Items]. rewrite Hitems in F2. cbn [empty_acc a_Items app] in F2.
    assert (Hsame : concat chunks = flat_map Items (pages_of evs)).
    { clear - Hf. induction Hf as [|d items ds cs Hd _ IH]; [reflexivity|].
      cbn [concat flat_map]. rewrite IH. f_equal.
      unfold page_items in Hd. cbn [o_filter o_map] in Hd. congruence. }
    now rewrite <- Hsame.
Qed.

End FinderProofs.

Lemma NewModel_find_own_table_witness :
  exists result params' w',
    NewModel_find Examples.no_parse Examples.clock0 Examples.paged_client 5
      Examples.user_schema Cases.elsewhere
      (Examples.world [Examples.page1; Examples.page2])
    = (Return (Some (result, params')), w') /\
    q_TableName params' = "users" /\
    Forall (fun ev => exists p, request_of ev = Some p /\ q_TableName p = "users")
      (new_events (Examples.world [Examples.page1; Examples.page2]) w') /\
    length (a_Items result) = 5%nat.
Proof.
  destruct (NewModel_find Examples.no_parse Examples.clock0 Examples.paged_client 5
              Examples.user_schema Cases.elsewhere
              (Examples.world [Examples.page1; Examples.page2]))
    as [[[[result params']|]|err] w'] eqn:E;
    try (vm_compute in E; discriminate).
  exists result, params', w'. split; [reflexivity|].
  destruct (NewModel_find_own_table Examples.no_parse Examples.clock0 (list QueryOutput)
              Examples.paged_client 5 Examples.user_schema Cases.elsewhere
              (Examples.world [Examples.page1; Examples.page2]) result params' w' E)
    as (Hev & Htab & _).
  split; [exact Htab|]. split; [exact Hev|].
  vm_compute in E. injection E as <- _ _. reflexivity.
Defined.

(* ================================================================= *)
(** ** More on the put of [save] *)

Section SavePut.

Variable Date_parse : string -> option Z.
Variable ToNumber_string : string -> value.
Variable clock : nat -> Z.
Variable St : Type.
Variable client : Client St.

(** Every put of a run of [save] is the one of its last stage. *)
Lemma save_put_inv (orm : Registry) (schema : Schema) (e : Entity)
  (w : World St) (r : outcome Entity) (w' : World St) :
  save Date_parse ToNumber_string clock client orm schema e w = (r, w') ->
  (forall p ro, In (EvPut p ro) (new_events w w') ->
     exists data2 item params (w3 w4 : World St),
       toDynamo schema data2 = Return item /\
       apply_version ToNumber_string clock schema (mkEntity (_isNew e) data2 (orig e))
         (mkPut (tableName schema) item None None None) w3 = (Return params, w4) /\
       p = guard_new schema (mkEntity (_isNew e) data2 (orig e)) params /\
       r = match ro with
           | Return _ => Return (mkEntity (_isNew e) data2 (orig e))
           | Throw err => Throw err
           end) /\
  (forall e', r = Return e' -> exists p, In (EvPut p (Return tt)) (new_events w w')).
Proof.
  intros H. apply save_inv in H.
  assert (Hnone : forall evs : list event,
            Forall (fun ev => is_get ev \/ is_query ev) evs ->
            forall p ro, ~ In (EvPut p ro) evs).
  { intros evs F p ro Hin. rewrite Forall_forall in F. destruct (F _ Hin) as [[]|[]]. }
  assert (Hgets : forall (evs : list event), Forall is_get evs ->
            Forall (fun ev => is_get ev \/ is_query ev) evs).
  { intros evs F. eapply Forall_impl; [|exact F]. intros ev Hev. now left. }
  assert (Hqueries : forall (evs : list event), Forall is_query evs ->
            Forall (fun ev => is_get ev \/ is_query ev) evs).
  { intros evs F. eapply Forall_impl; [|exact F]. intros ev Hev. now right. }
  destruct H as [(err & E & ->)|(data1 & w1 & E1 & H)].
  { destruct (resolve_relations_emits Date_parse clock St client orm (properties schema)
                (_data e) w _ w' E) as (evs1 & T1 & F1).
    rewrite (new_events_app St w w' evs1 T1).
    split; [|discriminate]. intros p ro Hin. destruct (Hnone _ (Hgets _ F1) p ro Hin). }
  destruct (resolve_relations_emits Date_parse clock St client orm (properties schema)
              (_data e) w _ w1 E1) as (evs1 & T1 & F1).
  destruct H as [(err & -> & ->)|(_ & H)].
  { rewrite (new_events_app St w w1 evs1 T1).
    split; [|discriminate]. intros p ro Hin. destruct (Hnone _ (Hgets _ F1) p ro Hin). }
  destruct H as [(err & E & ->)|(w2 & data2 & w3 & E3 & _ & T3 & H)].
  { destruct (check_unique_indexes_spec St client schema _ (indexes schema) w1 _ w' E)
      as (evs2 & T2 & F2 & _).
    rewrite (new_events_app St w w' (evs1 ++ evs2))
      by (rewrite T2, T1; now rewrite app_assoc).
    split; [|discriminate]. intros p ro Hin. exfalso.
    refine (Hnone _ _ p ro Hin). apply Forall_app. auto. }
  destruct (check_unique_indexes_spec St client schema _ (indexes schema) w1 _ w2 E3)
    as (evs2 & T2 & F2 & _).
  assert (F12 : Forall (fun ev => is_get ev \/ is_query ev) (evs1 ++ evs2))
    by (apply Forall_app; auto).
  destruct H as [(err & -> & T')|(item & params & w4 & ro0 & s' & E5 & E6 & T4 & Ec & -> & ->)].
  { rewrite (new_events_app St w w' (evs1 ++ evs2))
      by (rewrite T', T3, T2, T1; now rewrite app_assoc).
    split; [|discriminate]. intros p ro Hin. destruct (Hnone _ F12 p ro Hin). }
  rewrite (new_events_app St w _
             ((evs1 ++ evs2)
              ++ [EvPut (guard_new schema (mkEntity (_isNew e) data2 (orig e)) params) ro0]))
    by (cbn [w_trace]; rewrite T4, T3, T2, T1; now rewrite !app_assoc).
  split.
  - intros p ro Hin. apply in_app_or in Hin. destruct Hin as [Hin|[Hin|[]]].
    + destruct (Hnone _ F12 p ro Hin).
    + injection Hin as <- <-. exists data2, item, params, w3, w4. auto.
  - intros e' He'. destruct ro0 as [[]|err]; [|discriminate].
    eexists. apply in_or_app. right. left. reflexivity.
Qed.

Lemma apply_version_condition (schema : Schema) (e : Entity) (item : obj)
  (w : World St) (params : PutParams) (w' : World St) :
  apply_version ToNumber_string clock schema e
    (mkPut (tableName schema) item None None None) w = (Return params, w') ->
  (forall ver, tested_version schema = Some ver -> truthy (obj_get (orig e) ver) = false) ->
  put_ConditionExpression params = None /\ put_ExpressionAttributeNames params = None /\
  put_ExpressionAttributeValues params = None.
Proof.
  unfold apply_version, tested_version. intros H Hv.
  destruct (version schema) as [ver|]; [|now injection H as <- _].
  destruct (str_truthy ver); cbn [negb] in H; [|now injection H as <- _].
  destruct (assoc ver (properties schema)) as [prop|]; [|now injection H as <- _].
  rewrite (Hv ver eq_refl) in H.
  destruct (is_undefined (obj_get (put_Item _) ver)); [|now injection H as <- _].
  destruct (is_integer prop); [now injection H as <- _|].
  destruct (is_date_time prop); [|discriminate].
  unfold bind, Date_now, ret in H. now injection H as <- _.
Qed.

(** X25.  The guard of a new entity on a key without range.  For a new
    entity, a schema whose key has a hash key and no range key, and a
    snapshot that holds no truthy version, every put of a run of [save]
    is conditioned on the absence of the hash key, and on nothing else.
    The store therefore refuses the put when it already has a record
    under that key. *)
Theorem save_new_guard_hash_key (orm : Registry) (schema : Schema) (e : Entity)
  (hk : string) (w : World St) (r : outcome Entity) (w' : World St) :
  _isNew e = true ->
  hashKey (s_key schema) = Some hk ->
  rangeKey (s_key schema) = None ->
  (forall ver, tested_version schema = Some ver -> truthy (obj_get (orig e) ver) = false) ->
  save Date_parse ToNumber_string clock client orm schema e w = (r, w') ->
  forall p ro, In (EvPut p ro) (new_events w w') ->
    put_ConditionExpression p = Some ("attribute_not_exists(#" ++ hk ++ ")") /\
    put_ExpressionAttributeNames p = Some [("#" ++ hk, VStr hk)] /\
    put_ExpressionAttributeValues p = None.
Proof.
  intros Hnew Hh Hr Hv H p ro Hin.
  destruct (proj1 (save_put_inv orm schema e w r w' H) p ro Hin)
    as (data2 & item & params & w3 & w4 & _ & E6 & -> & _).
  destruct (apply_version_condition schema _ item w3 params w4 E6 Hv) as (Hc & Hn & Hvals).
  unfold guard_new. cbn [_isNew]. rewrite Hnew, Hh, Hr, Hc, Hn, Hvals.
  cbn [opt_str_truthy restart_condition or_empty name_of name_val
       put_ConditionExpression put_ExpressionAttributeNames put_ExpressionAttributeValues].
  repeat split.
Qed.

(** X26.  A version property of an unsupported type.  When the version
    property is neither an integer nor a date-time and the snapshot taken
    at construction holds a truthy version, [save] never reaches the
    store with a put, and never returns. *)
Theorem save_unsupported_version (orm : Registry) (schema : Schema) (e : Entity)
  (ver : string) (prop : PropertyDesc) (w : World St) (r : outcome Entity)
  (w' : World St) :
  tested_version schema = Some ver ->
  assoc ver (properties schema) = Some prop ->
  is_integer prop = false ->
  is_date_time prop = false ->
  truthy (obj_get (orig e) ver) = true ->
  save Date_parse ToNumber_string clock client orm schema e w = (r, w') ->
  (forall p ro, ~ In (EvPut p ro) (new_events w w')) /\
  (exists err, r = Throw err) /\
  (relation_free schema -> s_validate schema (_data e) = None -> indexes schema = [] ->
   r = Throw (unsupported_version prop)).
Proof.
  intros Hv Hp Hi Hd Ht H.
  destruct (tested_version_inv schema ver Hv) as [Hver Htr].
  assert (Hthrows : forall data2 item (w3 : World St),
            apply_version ToNumber_string clock schema (mkEntity (_isNew e) data2 (orig e))
              (mkPut (tableName schema) item None None None) w3
            = (Throw (unsupported_version prop), w3)).
  { intros data2 item w3. unfold apply_version.
    rewrite Hver, Htr, Hp. cbn [negb orig]. now rewrite Ht, Hi, Hd. }
  destruct (save_put_inv orm schema e w r w' H) as [Hput Hret].
  assert (Hno : forall p ro, ~ In (EvPut p ro) (new_events w w')).
  { intros p ro Hin.
    destruct (Hput p ro Hin) as (data2 & item & params & w3 & w4 & _ & E6 & _).
    rewrite Hthrows in E6. discriminate. }
  split; [exact Hno|]. split.
  - destruct r as [e'|err]; [|eauto].
    destruct (Hret e' eq_refl) as [p Hin]. destruct (Hno _ _ Hin).
  - intros Hfree Hvalid Hix. revert H. unfold save. unfold bind at 1.
    rewrite (resolve_relations_free Date_parse clock St client orm (properties schema) Hfree).
    unfold bind at 1, check_valid. rewrite Hvalid. unfold ret at 1.
    unfold bind at 1. rewrite Hix. cbn [check_unique_indexes]. unfold ret at 1.
    unfold bind at 1.
    destruct (set_timestamps clock schema (mkEntity (_isNew e) (_data e) (orig e)) w)
      as [[data2|err] w3] eqn:E4.
    + unfold bind at 1, lift.
      destruct (toDynamo_free schema data2 Hfree) as (item & -> & _).
      unfold bind at 1. rewrite Hthrows. now intros [= <- _].
    + exfalso. unfold set_timestamps in E4.
      destruct (timestamps schema); [|discriminate].
      cbn [_isNew] in E4. destruct (_isNew e); discriminate.
Qed.

End SavePut.

Lemma save_new_guard_hash_key_witness :
  exists e' w' evs p,
    save Examples.no_parse Examples.nan_of_string Examples.clock0 MemStore.client []
      Examples.user_schema Examples.u1 (Examples.world Examples.empty_users)
    = (Return e', w') /\
    new_events (Examples.world Examples.empty_users) w'
    = (evs ++ [EvPut p (Return tt)])%list /\
    put_ConditionExpression p = Some "attribute_not_exists(#id)".
Proof.
  destruct (save Examples.no_parse Examples.nan_of_string Examples.clock0 MemStore.client []
              Examples.user_schema Examples.u1 (Examples.world Examples.empty_users))
    as [[e'|err] w'] eqn:E; [|vm_compute in E; discriminate].
  pose proof (save_new_guard_hash_key Examples.no_parse Examples.nan_of_string
                Examples.clock0 MemStore.Store MemStore.client [] Examples.user_schema
                Examples.u1 "id" (Examples.world Examples.empty_users) (Return e') w'
                eq_refl eq_refl eq_refl) as Hg.
  assert (Hv : forall ver, tested_version Examples.user_schema = Some ver ->
                 truthy (obj_get (orig Examples.u1) ver) = false).
  { intros ver [= <-]. reflexivity. }
  specialize (Hg Hv E).
  assert (Hev : exists evs p, new_events (Examples.world Examples.empty_users) w'
                              = (evs ++ [EvPut p (Return tt)])%list).
  { vm_compute in E. injection E as _ <-. eexists [_]; eexists. reflexivity. }
  destruct Hev as (evs & p & Hev).
  exists e', w', evs, p. split; [reflexivity|]. split; [exact Hev|].
  apply (Hg p (Return tt)). rewrite Hev. apply in_or_app. right. now left.
Defined.

Lemma save_unsupported_version_witness :
  save Examples.no_parse Examples.nan_of_string Examples.clock0 MemStore.client []
    Cases.flag_schema Cases.flagged (Examples.world Cases.flags)
  = (Throw (DynormError "Version property type number not supported"),
     Examples.world Cases.flags).
Proof.
  destruct (save Examples.no_parse Examples.nan_of_string Examples.clock0 MemStore.client []
              Cases.flag_schema Cases.flagged (Examples.world Cases.flags))
    as [r w'] eqn:E.
  destruct (save_unsupported_version Examples.no_parse Examples.nan_of_string
              Examples.clock0 MemStore.Store MemStore.client [] Cases.flag_schema
              Cases.flagged "rev"
              (mkProp (Some "number") None VUndef false false true false None None None)
              (Examples.world Cases.flags) r w' eq_refl eq_refl eq_refl eq_refl eq_refl E)
    as (_ & _ & Hr).
  rewrite Hr.
  - vm_compute in E. injection E as _ <-. reflexivity.
  - intros k prop Hin. destruct Hin as [Hin|[Hin|[]]]; injection Hin as <- <-; reflexivity.
  - reflexivity.
  - reflexivity.
Defined.

(* ================================================================= *)
(** ** [del] *)

Lemma project_key_instance (schema : Schema) (data : obj) :
  key_declared schema ->
  project_key (s_key schema) (VModel (keys (properties schema)) data)
  = project_key (s_key schema) (VObj data).
Proof.
  intros Hk. unfold project_key.
  assert (Hget : forall a,
            hashKey (s_key schema) = Some a \/ rangeKey (s_key schema) = Some a ->
            js_get (VModel (keys (properties schema)) data) a = js_get (VObj data) a).
  { intros a Ha. cbn [js_get]. pose proof (Hk a Ha) as Hd. unfold declared in Hd.
    now rewrite Hd. }
  destruct (hashKey (s_key schema)) as [h|]; destruct (rangeKey (s_key schema)) as [rg|];
    rewrite ?(Hget h) by auto; rewrite ?(Hget rg) by auto; reflexivity.
Qed.

Section DeletionProofs.

Variable St : Type.
Variable c_delete : DeleteParams -> St -> outcome unit * St.

(** X27.  [del] deletes by the key the entity holds now.  For a schema
    whose key attributes are properties, [del] hands the store one
    request, on the table of the schema, and its result is the answer of
    the store; the key of the request is the one [get] would read from
    the current data of the entity: attributes of the primary key only,
    each with the value the data hold for it.  The snapshot taken at
    construction plays no part. *)
Theorem del_by_current_key (schema : Schema) (e : Entity) (s : St) :
  key_declared schema ->
  exists key,
    del c_delete schema e s
    = (Some (mkDelete (tableName schema) key),
       c_delete (mkDelete (tableName schema) key) s) /\
    project_key (s_key schema) (VObj (_data e)) = Return key /\
    (forall a, In a (keys key) ->
       hashKey (s_key schema) = Some a \/ rangeKey (s_key schema) = Some a) /\
    (forall a v, assoc a key = Some v -> v = obj_get (_data e) a).
Proof.
  intros Hk. unfold del. rewrite (project_key_instance schema (_data e) Hk).
  destruct (project_key (s_key schema) (VObj (_data e))) as [key|err] eqn:E.
  - exists key. split; [reflexivity|]. split; [reflexivity|].
    split; [exact (project_key_keys _ _ key E)|].
    intros a v Ha. pose proof (project_key_values _ _ key E a v Ha) as Hv.
    cbn [js_get] in Hv. now injection Hv as <-.
  - exfalso. unfold project_key in E.
    destruct (hashKey (s_key schema)); destruct (rangeKey (s_key schema));
      cbn [js_get obind] in E; discriminate.
Qed.

End DeletionProofs.

Lemma user_key_declared : key_declared Examples.user_schema.
Proof. intros a [H|H]; [now injection H as <-|discriminate]. Defined.

Lemma del_by_current_key_witness :
  del Cases.delete_all Examples.user_schema
    (mkEntity false [("id", VStr "u2"); ("email", VStr "a@x.com")] Examples.stored_u1) []
  = (Some (mkDelete "users" [("id", VStr "u2")]),
     (Return tt, [mkDelete "users" [("id", VStr "u2")]])).
Proof.
  destruct (del_by_current_key (list DeleteParams) Cases.delete_all Examples.user_schema
              (mkEntity false [("id", VStr "u2"); ("email", VStr "a@x.com")]
                 Examples.stored_u1) [] user_key_declared)
    as (key & E & Hp & _).
  rewrite E. vm_compute in Hp. injection Hp as <-. reflexivity.
Defined.

(* ================================================================= *)
(** ** [populate] *)

Lemma js_get_throws (v : value) (k : string) (e : error) :
  js_get v k = Throw e -> e = TypeError.
Proof.
  destruct v; cbn [js_get]; intros H; try discriminate;
    try (now injection H as <-).
  destruct (existsb (String.eqb k) props); discriminate.
Qed.

Lemma find_row_spec (fk : string) (v : value) (rows : list value) (found : value) :
  find_row fk v rows = Return found ->
  (found = VUndef /\
   forall row, In row rows -> exists x, js_get row fk = Return x /\ strict_eq x v = false) \/
  (In found rows /\ exists x, js_get found fk = Return x /\ strict_eq x v = true).
Proof.
  induction rows as [|i rest IH]; cbn [find_row]; intros H.
  - injection H as <-. left. split; [reflexivity|]. intros row [].
  - destruct (js_get i fk) as [x|] eqn:Ex; [|discriminate]. cbn [obind] in H.
    destruct (strict_eq x v) eqn:Es.
    + injection H as <-. right. split; [now left|]. eauto.
    + destruct (IH H) as [[-> Hall]|[Hin Hx]].
      * left. split; [reflexivity|]. intros row [<-|Hr]; eauto.
      * right. split; [now right|exact Hx].
Qed.

Lemma find_row_throws (fk : string) (v : value) (rows : list value) (e : error) :
  find_row fk v rows = Throw e -> e = TypeError.
Proof.
  induction rows as [|i rest IH]; cbn [find_row]; intros H; [discriminate|].
  destruct (js_get i fk) as [x|e'] eqn:Ex; cbn [obind] in H.
  - destruct (strict_eq x v); [discriminate|auto].
  - injection H as <-. exact (js_get_throws _ _ _ Ex).
Qed.

Lemma Forall2_compose (A : Type) (R1 R2 R3 : A -> A -> Prop) :
  (forall a b c, R1 a b -> R2 b c -> R3 a c) ->
  forall l1 l2 l3, Forall2 R1 l1 l2 -> Forall2 R2 l2 l3 -> Forall2 R3 l1 l3.
Proof.
  intros Hc l1 l2 l3 H. revert l3.
  induction H as [|a b l1 l2 Hab _ IH]; intros l3 H2; inversion H2; subst; constructor.
  - eapply Hc; eauto.
  - now apply IH.
Qed.

Lemma Forall2_In_l (A B : Type) (R : A -> B -> Prop) (l1 : list A) (l2 : list B) (a : A) :
  Forall2 R l1 l2 -> In a l1 -> exists b, In b l2 /\ R a b.
Proof.
  induction 1 as [|x y l1 l2 Hxy _ IH]; intros Hin; [destruct Hin|].
  destruct Hin as [<-|Hin].
  - exists y. split; [now left|exact Hxy].
  - destruct (IH Hin) as (b & Hb & Hr). exists b. split; [now right|exact Hr].
Qed.

Section PopulateProofs.

Variable Date_parse : string -> option Z.
Variable clock : nat -> Z.
Variable St : Type.
Variable client : Client St.
Variable Number_toString : Z -> string.
Variable Date_toString : option Z -> string.

Lemma parseDynamo_loop_type (item : obj) (ps : list (string * PropertyDesc)) :
  forall model e, parseDynamo_loop Date_parse item ps model = Throw e -> e = TypeError.
Proof.
  induction ps as [|[k prop] t IH]; cbn [parseDynamo_loop]; intros model e H;
    [discriminate|].
  destruct (parseDynamo_prop Date_parse item model (k, prop)) as [m|e'] eqn:E;
    cbn [obind] in H.
  - eauto.
  - injection H as <-. apply parseDynamo_prop_throws in E. exact (proj1 E).
Qed.

Lemma init_defaults_runs (ps : list (string * PropertyDesc)) :
  forall data (w : World St), exists data' w',
    init_defaults Date_parse clock ps data w = (Return data', w') /\
    w_store w' = w_store w /\ w_trace w' = w_trace w.
Proof.
  induction ps as [|[k prop] t IH]; intros data w; cbn [init_defaults].
  - exists data, w. now repeat split.
  - destruct (init_default_spec Date_parse clock St data k prop w)
      as (d1 & w1 & E1 & S1 & T1 & _).
    destruct (IH d1 w1) as (d2 & w2 & E2 & S2 & T2).
    exists d2, w2. unfold bind. rewrite E1. split; [exact E2|]. split; congruence.
Qed.

(** [parseDynamo] of a row followed by the constructor: no store access;
    a TypeError is the only failure, and [undefined] only passes for a
    model without properties. *)
Lemma hydrate_spec (schema : Schema) (v : value) (w : World St)
  (r : outcome value) (w' : World St) :
  hydrate Date_parse clock schema v w = (r, w') ->
  w_trace w' = w_trace w /\ w_store w' = w_store w /\
  match r with
  | Return m => instance_of schema m /\ (properties schema <> [] -> v <> VUndef)
  | Throw e => e = TypeError
  end.
Proof.
  unfold hydrate, bind, lift. intros H.
  destruct (attributes_of schema v) as [o|e] eqn:Ea.
  2:{ injection H as <- <-. repeat split.
      destruct v; cbn [attributes_of] in Ea; try discriminate;
        destruct (properties schema); try discriminate; now injection Ea as <-. }
  destruct (parseDynamo Date_parse schema o) as [parsed|e] eqn:Ep.
  2:{ injection H as <- <-. repeat split. unfold parseDynamo in Ep.
      exact (parseDynamo_loop_type _ _ _ _ Ep). }
  unfold NewModel_constructor, bind in H.
  destruct (init_defaults_runs (properties schema) parsed w) as (d & w1 & E1 & S1 & T1).
  rewrite E1 in H. unfold ret in H. injection H as <- <-.
  split; [exact T1|]. split; [exact S1|]. split; [eexists; reflexivity|].
  intros Hne ->. cbn [attributes_of] in Ea.
  destruct (properties schema); [now apply Hne|discriminate].
Qed.

Lemma attach_item_spec (orm : Registry) (prop : PropertyDesc) (field : string)
  (tableItems : TableItems) (item : obj) (w : World St) (r : outcome obj)
  (w' : World St) :
  attach_item Date_parse clock orm prop field tableItems item w = (r, w') ->
  w_trace w' = w_trace w /\ w_store w' = w_store w /\
  match r with
  | Return item' => attached orm tableItems prop field item item'
  | Throw e => e = TypeError
  end.
Proof.
  unfold attach_item. intros H.
  destruct (p_join prop) as [join|] eqn:Ej; [|now injection H as <- <-].
  destruct (truthy (obj_get item (name_of (join_first join)))) eqn:Et; cbn [negb] in H.
  2:{ injection H as <- <-. repeat split. exists join. split; [exact Ej|].
      split; [reflexivity|]. intros Hx. congruence. }
  destruct (assoc (name_of (p_ref prop)) orm) as [refSchema|] eqn:Eo;
    [|now injection H as <- <-].
  destruct (assoc (tableName refSchema) tableItems) as [rows|] eqn:Er;
    [|now injection H as <- <-].
  unfold bind, lift in H.
  destruct (find_row (join_target join (join_first join))
              (obj_get item (name_of (join_first join))) rows) as [found|e] eqn:Ef.
  2:{ injection H as <- <-. repeat split. exact (find_row_throws _ _ _ _ Ef). }
  destruct (hydrate Date_parse clock refSchema found w) as [[m|e] w1] eqn:Eh;
    destruct (hydrate_spec _ _ _ _ _ Eh) as (T & S & Hm).
  2:{ injection H as <- <-. now repeat split. }
  unfold ret in H. injection H as <- <-.
  split; [exact T|]. split; [exact S|]. destruct Hm as [Hi Hu].
  split; [intros a Ha; now apply obj_get_set_other|].
  exists join. split; [exact Ej|]. split; [intros Hx; congruence|].
  intros _. exists refSchema. split; [exact Eo|].
  rewrite obj_get_set_same. split; [exact Hi|].
  intros Hne. destruct (find_row_spec _ _ _ _ Ef) as [[-> _]|[Hin Hx]].
  - now destruct (Hu Hne).
  - exists found. split; [|exact Hx]. unfold items_of. now rewrite Er.
Qed.

Lemma attach_items_spec (orm : Registry) (prop : PropertyDesc) (field : string)
  (tableItems : TableItems) (items : list obj) :
  forall (w : World St) r w',
  attach_items Date_parse clock orm prop field tableItems items w = (r, w') ->
  w_trace w' = w_trace w /\ w_store w' = w_store w /\
  match r with
  | Return items' => Forall2 (attached orm tableItems prop field) items items'
  | Throw e => e = TypeError
  end.
Proof.
  induction items as [|item rest IH]; intros w r w' H; cbn [attach_items] in H.
  - injection H as <- <-. repeat split. constructor.
  - unfold bind in H.
    destruct (attach_item Date_parse clock orm prop field tableItems item w)
      as [[item'|e] w1] eqn:E1;
      destruct (attach_item_spec _ _ _ _ _ _ _ _ E1) as (T1 & S1 & H1).
    2:{ injection H as <- <-. now repeat split. }
    destruct (attach_items Date_parse clock orm prop field tableItems rest w1)
      as [[rest'|e] w2] eqn:E2;
      destruct (IH _ _ _ E2) as (T2 & S2 & H2).
    2:{ injection H as <- <-. split; [congruence|]. split; [congruence|exact H2]. }
    unfold ret in H. injection H as <- <-.
    split; [congruence|]. split; [congruence|]. now constructor.
Qed.

Lemma populated_refl (orm : Registry) (schema : Schema) (tableItems : TableItems)
  (items : list obj) : Forall2 (populated orm schema tableItems []) items items.
Proof.
  induction items as [|item rest IH]; constructor; [|exact IH].
  split; [reflexivity|]. intros f refSchema key fk [].
Qed.

Lemma attach_fields_spec (orm : Registry) (schema : Schema) (tableItems : TableItems)
  (fields : list string) :
  forall items (w : World St) r w',
  attach_fields Date_parse clock orm schema fields tableItems items w = (r, w') ->
  w_trace w' = w_trace w /\ w_store w' = w_store w /\
  match r with
  | Return items' => Forall2 (populated orm schema tableItems fields) items items'
  | Throw e => e = TypeError
  end.
Proof.
  induction fields as [|field rest IH]; intros items w r w' H; cbn [attach_fields] in H.
  - injection H as <- <-. repeat split. apply populated_refl.
  - destruct (assoc field (properties schema)) as [prop|] eqn:Ep.
    + unfold bind in H.
      destruct (attach_items Date_parse clock orm prop field tableItems items w)
        as [[items1|e] w1] eqn:E1;
        destruct (attach_items_spec _ _ _ _ _ _ _ _ E1) as (T1 & S1 & H1).
      2:{ injection H as <- <-. now repeat split. }
      destruct (IH _ _ _ _ H) as (T2 & S2 & H2).
      split; [congruence|]. split; [congruence|].
      destruct r as [items'|e]; [|exact H2].
      refine (Forall2_compose _ _ _ _ _ _ _ _ H1 H2).
      intros item item1 item' [Hoth (join & Ej & Hfalsy & Htruthy)] [Hkeep Hrel].
      split.
      * intros a Ha. rewrite Hkeep by (intros Hx; apply Ha; now right).
        apply Hoth. intros ->. apply Ha. now left.
      * intros f refSchema key fk Hf Hr Hk Ht.
        assert (Hkf : key <> field) by (intros ->; apply Hk; now left).
        assert (Hkr : ~ In key rest) by (intros Hx; apply Hk; now right).
        destruct (in_dec string_dec f rest) as [Hin|Hout].
        -- rewrite <- (Hoth key Hkf) in Ht |- *.
           exact (Hrel f refSchema key fk Hin Hr Hkr Ht).
        -- destruct Hf as [<-|Hf]; [|contradiction].
           destruct Hr as (prop' & join' & Ep' & Ej' & -> & -> & Eo).
           rewrite Ep in Ep'. injection Ep' as <-.
           rewrite Ej in Ej'. injection Ej' as <-.
           destruct (Htruthy Ht) as (refSchema' & Eo' & Hi & Hrow).
           rewrite Eo in Eo'. injection Eo' as <-.
           rewrite (Hkeep field Hout). split; [exact Hi|exact Hrow].
    + destruct (IH _ _ _ _ H) as (T2 & S2 & H2).
      split; [exact T2|]. split; [exact S2|].
      destruct r as [items'|e]; [|exact H2].
      refine (Forall2_impl _ _ H2). 
      intros item item' [Hkeep Hrel]. split.
      * intros a Ha. apply Hkeep. intros Hx. apply Ha. now right.
      * intros f refSchema key fk Hf Hr Hk Ht.
        assert (Hkr : ~ In key rest) by (intros Hx; apply Hk; now right).
        destruct Hf as [<-|Hf]; [|exact (Hrel f refSchema key fk Hf Hr Hkr Ht)].
        destruct Hr as (prop' & join' & Ep' & _). rewrite Ep in Ep'. discriminate.
Qed.

End PopulateProofs.

Lemma NoDup_snoc (A : Type) (l : list A) (a : A) :
  NoDup l -> ~ In a l -> NoDup (l ++ [a]).
Proof.
  induction 1 as [|x l Hx _ IH]; intros Ha; cbn [app].
  - constructor; [intros []|constructor].
  - constructor.
    + rewrite in_app_iff. intros [H|[H|[]]]; [now apply Hx|].
      apply Ha. now left.
    + apply IH. intros H. apply Ha. now right.
Qed.

Section CollectProofs.

Variable Number_toString : Z -> string.
Variable Date_toString : option Z -> string.

Local Abbreviation tag := (key_tag Number_toString Date_toString).
Local Abbreviation once := (one_per_tag Number_toString Date_toString).

Lemma collect_item_once (orm : Registry) (prop : PropertyDesc)
  (st st' : RequestItems * list string) (item : obj) :
  once st ->
  collect_item Number_toString Date_toString orm prop st item = Return st' ->
  once st'.
Proof.
  intros (Hnd & Hlen & Hkeys) H. unfold collect_item in H.
  destruct (p_join prop) as [join|]; [|discriminate].
  destruct (truthy (obj_get item (name_of (join_first join)))) eqn:Et; cbn [negb] in H;
    [|injection H as <-; now repeat split].
  destruct (assoc (name_of (p_ref prop)) orm) as [refSchema|]; [|discriminate].
  set (tn := tableName refSchema) in *.
  set (val := obj_get item (name_of (join_first join))) in *.
  set (fk := join_target join (join_first join)) in *.
  assert (Hpush : forall l tk,
            items_of tn tk = l ->
            length (flatten_keys tk) = length (snd st) ->
            (forall t k, In k (items_of t tk) ->
               exists fk0 v, k = VObj [(fk0, v)] /\ truthy v = true /\ In (tag t v) (snd st)) ->
            existsb (String.eqb (tag tn val)) (snd st) = false ->
            once (assoc_set tn (l ++ [VObj [(fk, val)]])%list tk, (snd st ++ [tag tn val])%list)).
  { intros l tk Hl Hlen' Hkeys' Hnew. split; [|split]; cbn [fst snd].
    - apply NoDup_snoc; [exact Hnd|]. intros Hin.
      assert (existsb (String.eqb (tag tn val)) (snd st) = true) as Hx; [|congruence].
      apply existsb_exists. exists (tag tn val). split; [exact Hin|apply String.eqb_refl].
    - rewrite flatten_keys_set, Hl, !length_app. cbn [length]. lia.
    - intros t k Hin. rewrite items_of_set in Hin.
      destruct (String.eqb t tn) eqn:E.
      + apply String.eqb_eq in E. subst t. apply in_app_iff in Hin.
        destruct Hin as [Hin|[<-|[]]].
        * rewrite <- Hl in Hin. destruct (Hkeys' tn k Hin) as (fk0 & v & -> & Hv & Hs).
          exists fk0, v. split; [reflexivity|]. split; [exact Hv|].
          apply in_app_iff. now left.
        * exists fk, val. split; [reflexivity|]. split; [exact Et|].
          apply in_app_iff. right. now left.
      + destruct (Hkeys' t k Hin) as (fk0 & v & -> & Hv & Hs).
        exists fk0, v. split; [reflexivity|]. split; [exact Hv|].
        apply in_app_iff. now left. }
  destruct (assoc tn (fst st)) as [l|] eqn:Ea.
  - destruct (existsb (String.eqb (tag tn val)) (snd st) || is_inherited (tag tn val))
      eqn:Ek; injection H as <-; [now repeat split|].
    apply orb_false_elim in Ek. destruct Ek as [Ek _].
    apply Hpush; auto. unfold items_of. now rewrite Ea.
  - assert (Hinit : length (flatten_keys (assoc_set tn [] (fst st))) = length (snd st) /\
                    forall t k, In k (items_of t (assoc_set tn [] (fst st))) ->
                      exists fk0 v, k = VObj [(fk0, v)] /\ truthy v = true /\
                        In (tag t v) (snd st)).
    { split.
      - rewrite flatten_keys_set. unfold items_of. rewrite Ea. cbn [length]. lia.
      - intros t k Hin. rewrite items_of_set in Hin.
        destruct (String.eqb t tn); [destruct Hin|now apply Hkeys]. }
    destruct Hinit as [Hlen0 Hkeys0].
    destruct (is_inherited tn).
    + destruct (existsb (String.eqb (tag tn val)) (snd st) || is_inherited (tag tn val));
        [|discriminate].
      injection H as <-. now repeat split.
    + destruct (existsb (String.eqb (tag tn val)) (snd st) || is_inherited (tag tn val))
        eqn:Ek; injection H as <-.
      * split; [exact Hnd|]. split; [exact Hlen0|exact Hkeys0].
      * apply orb_false_elim in Ek. destruct Ek as [Ek _].
        apply (Hpush [] (assoc_set tn [] (fst st))); auto.
        rewrite items_of_set. now rewrite String.eqb_refl.
Qed.

Lemma collect_items_once (orm : Registry) (prop : PropertyDesc) (items : list obj) :
  forall st st',
  once st ->
  collect_items Number_toString Date_toString orm prop st items = Return st' ->
  once st'.
Proof.
  induction items as [|item rest IH]; intros st st' Hst H; cbn [collect_items] in H.
  - now injection H as <-.
  - destruct (collect_item Number_toString Date_toString orm prop st item) as [st1|]
      eqn:E1; [|discriminate].
    cbn [obind] in H. exact (IH st1 st' (collect_item_once _ _ _ _ _ Hst E1) H).
Qed.

Lemma collect_fields_once (orm : Registry) (schema : Schema) (items : list obj)
  (fields : list string) :
  forall st st',
  once st ->
  collect_fields Number_toString Date_toString orm schema fields items st = Return st' ->
  once st'.
Proof.
  induction fields as [|field rest IH]; intros st st' Hst H; cbn [collect_fields] in H.
  - now injection H as <-.
  - destruct (assoc field (properties schema)) as [prop|]; [|exact (IH _ _ Hst H)].
    destruct (collect_items Number_toString Date_toString orm prop st items) as [st1|]
      eqn:E1; [|discriminate].
    cbn [obind] in H. exact (IH st1 st' (collect_items_once _ _ _ _ _ Hst E1) H).
Qed.

(** X28.  [populate] asks for a value once.  The keys it collects for the
    bulk read are one per tag, a tag being the name of the referenced
    table, an underscore and the text of the joined value: the tags are
    pairwise distinct, there are as many keys as tags, and every key is a
    single attribute holding a truthy value whose tag was taken.  So two
    values with the same text, such as a number and its numeral, lead to
    one key only. *)
Theorem populate_collects_once (orm : Registry) (schema : Schema)
  (fields : list string) (items : list obj) (st : RequestItems * list string) :
  collect_fields Number_toString Date_toString orm schema fields items ([], []) = Return st ->
  one_per_tag Number_toString Date_toString st.
Proof.
  apply collect_fields_once. split; [constructor|]. split; [reflexivity|].
  intros tn k [].
Qed.

End CollectProofs.

Lemma populate_collects_once_witness :
  exists st,
    collect_fields Cases.number_text Cases.date_text Cases.blog_orm Examples.post_schema
      ["author"] Cases.posts ([], []) = Return st /\
    snd st = ["users_u1"] /\ length (flatten_keys (fst st)) = 1%nat.
Proof.
  destruct (collect_fields Cases.number_text Cases.date_text Cases.blog_orm
              Examples.post_schema ["author"] Cases.posts ([], [])) as [st|e] eqn:E;
    [|vm_compute in E; discriminate].
  destruct (populate_collects_once _ _ _ _ _ _ _ E) as (_ & L & _).
  exists st. split; [reflexivity|].
  assert (Hs : snd st = ["users_u1"]) by (vm_compute in E; now injection E as <-).
  split; [exact Hs|]. now rewrite L, Hs.
Defined.

Section PopulateRuns.

Variable Date_parse : string -> option Z.
Variable clock : nat -> Z.
Variable St : Type.
Variable client : Client St.
Variable Number_toString : Z -> string.
Variable Date_toString : option Z -> string.

Local Abbreviation populate' :=
  (populate Date_parse clock client Number_toString Date_toString).
Local Abbreviation collect' := (collect_fields Number_toString Date_toString).

(** X29.  What a returning [populate] has done.  With no field or no item
    nothing happens.  Otherwise the keys collected from the items were
    read with one [batchGetKeys], the only access to the store, and the
    items come back one for one: the attributes that are no field are as
    they were, and each field that is a relation joined from a truthy
    attribute holds an instance of the referenced model; when that model
    has properties, the instance was built from a row of the rows read
    for its table whose joined attribute is strictly equal to the value
    of the item. *)
Theorem populate_attaches (fuel : nat) (orm : Registry) (schema : Schema)
  (fields : list string) (items : list obj) (w : World St)
  (items' : list obj) (w' : World St) :
  populate' fuel orm schema fields items w = (Return (Some items'), w') ->
  (fields = [] \/ items = [] -> items' = items /\ w' = w) /\
  (fields <> [] -> items <> [] ->
   exists st tableItems w1,
     collect' orm schema fields items ([], []) = Return st /\
     batchGetKeys client fuel (fst st) w = (Return (Some tableItems), w1) /\
     w_trace w' = w_trace w1 /\ w_store w' = w_store w1 /\
     Forall2 (populated orm schema tableItems fields) items items').
Proof.
  intros H. unfold populate in H.
  destruct fields as [|field rest].
  { injection H as <- <-. split; [now intros _|]. now intros Hx. }
  destruct items as [|item more].
  { injection H as <- <-. split; [now intros _|]. now intros _ Hx. }
  split; [intros [Hx|Hx]; discriminate|]. intros _ _.
  unfold bind, lift in H.
  destruct (collect' orm schema (field :: rest) (item :: more) ([], []))
    as [st|e] eqn:Ec; [|discriminate].
  destruct (batchGetKeys client fuel (fst st) w) as [[[tableItems|]|e] w1] eqn:Eb;
    try discriminate.
  destruct (attach_fields Date_parse clock orm schema (field :: rest) tableItems
              (item :: more) w1) as [[items1|e] w2] eqn:Ea; [|discriminate].
  unfold ret in H. injection H as <- <-.
  destruct (attach_fields_spec _ _ _ _ _ _ _ _ _ _ _ Ea) as (T & S & F).
  exists st, tableItems, w1. now repeat split.
Qed.

(** X30.  A referenced row that is missing makes [populate] fail.  Once
    the keys are collected and read, if some item holds a truthy join
    attribute for a field whose referenced model has properties, and no
    row read for the table of that model matches the value, the call
    throws a TypeError; the store is not touched again. *)
Theorem populate_missing_row (fuel : nat) (orm : Registry) (schema : Schema)
  (fields : list string) (items : list obj) (w : World St)
  (st : RequestItems * list string) (tableItems : TableItems) (w1 : World St)
  (item : obj) (f : string) (refSchema : Schema) (key fk : string) :
  collect' orm schema fields items ([], []) = Return st ->
  batchGetKeys client fuel (fst st) w = (Return (Some tableItems), w1) ->
  In item items -> In f fields ->
  relation_to orm schema f refSchema key fk -> ~ In key fields ->
  truthy (obj_get item key) = true ->
  properties refSchema <> [] ->
  (forall row, ~ matching_row tableItems refSchema fk (obj_get item key) row) ->
  exists w',
    populate' fuel orm schema fields items w = (Throw TypeError, w') /\
    w_trace w' = w_trace w1 /\ w_store w' = w_store w1.
Proof.
  intros Ec Eb Hitem Hf Hrel Hkey Ht Hne Hnone. unfold populate.
  destruct fields as [|field rest]; [destruct Hf|].
  destruct items as [|item0 more]; [destruct Hitem|].
  unfold bind, lift. rewrite Ec, Eb.
  destruct (attach_fields Date_parse clock orm schema (field :: rest) tableItems
              (item0 :: more) w1) as [[items1|e] w2] eqn:Ea;
    destruct (attach_fields_spec _ _ _ _ _ _ _ _ _ _ _ Ea) as (T & S & F).
  - exfalso. destruct (Forall2_In_l _ _ _ _ _ _ F Hitem) as (item' & _ & _ & Hp).
    destruct (Hp f refSchema key fk Hf Hrel Hkey Ht) as (_ & Hrow).
    destruct (Hrow Hne) as (row & Hm). exact (Hnone row Hm).
  - subst e. exists w2. now repeat split.
Qed.

End PopulateRuns.

Lemma populate_attaches_witness :
  exists items' tableItems w',
    populate Examples.no_parse Examples.clock0 MemStore.client Cases.number_text
      Cases.date_text 2 Cases.blog_orm Examples.post_schema ["author"] Cases.posts
      (Examples.world Cases.blog) = (Return (Some items'), w') /\
    Forall2 (populated Cases.blog_orm Examples.post_schema tableItems ["author"])
      Cases.posts items' /\
    length (w_trace w') = 1%nat.
Proof.
  destruct (populate Examples.no_parse Examples.clock0 MemStore.client Cases.number_text
              Cases.date_text 2 Cases.blog_orm Examples.post_schema ["author"]
              Cases.posts (Examples.world Cases.blog)) as [[[items'|]|e] w'] eqn:E;
    try (vm_compute in E; discriminate).
  destruct (populate_attaches _ _ _ _ _ _ _ _ _ _ _ _ _ _ E) as [_ H].
  destruct H as (st & tableItems & w1 & _ & _ & _ & _ & F); try discriminate.
  exists items', tableItems, w'. split; [reflexivity|]. split; [exact F|].
  vm_compute in E. now injection E as _ <-.
Defined.

Lemma populate_missing_row_witness :
  exists w',
    populate Examples.no_parse Examples.clock0 MemStore.client Cases.number_text
      Cases.date_text 2 Cases.blog_orm Examples.post_schema ["author"]
      [Cases.post_of "p9" "u9"] (Examples.world Cases.blog) = (Throw TypeError, w') /\
    length (w_trace w') = 1%nat.
Proof.
  destruct (populate_missing_row Examples.no_parse Examples.clock0 MemStore.Store
              MemStore.client Cases.number_text Cases.date_text 2 Cases.blog_orm
              Examples.post_schema ["author"] [Cases.post_of "p9" "u9"]
              (Examples.world Cases.blog)
              ([("users", [VObj [("id", VStr "u9")]])], ["users_u9"])
              [("users", [])]
              (mkWorld Cases.blog 0
                 [EvBatchGet [("users", [VObj [("id", VStr "u9")]])]
                    (Return (mkBatchGetOut [("users", [])] []))])
              (Cases.post_of "p9" "u9") "author" Examples.user_schema "authorId" "id")
    as (w' & E & T & _).
  - reflexivity.
  - reflexivity.
  - now left.
  - now left.
  - exists (Examples.relation "User" [("authorId", "id")]), [("authorId", "id")].
    repeat split; reflexivity.
  - intros [H|[]]. discriminate.
  - reflexivity.
  - discriminate.
  - intros row [[] _].
  - exists w'. split; [exact E|]. now rewrite T.
Defined.
